(** * Gemini Business cookie refresh tool: a shallow embedding

    The development follows the layout of the Python sources:

    - [PyStr]      string helpers shared by all modules (truthiness, [in]);
    - [DateTime]   the fragment of Python's [datetime] the code relies on;
    - [Utils]      [src/utils.py]  (the accounts.json artifact store);
    - [Browser]    [src/browser_controller.py] ([extract_cookies],
                   [enter_verification_code], [wait_for_login_complete]);
    - [Mail]       [src/mail_client.py] ([_extract_code] and the regular
                   expressions it runs);
    - [Clash]      [src/clash_manager.py] ([find_healthy_node]);
    - [Orchestrator] [src/main.py] and [src/api_server.py] (the four
                   acquisition paths and their callers).

    Part I holds the embedding and the vocabulary of the statements, Part
    II the lemmas about each module, Part III the properties the
    specification claims, Part IV further properties of the code. *)

From Stdlib Require Import ZArith NArith List String Ascii Bool Lia DecimalString.
From Stdlib Require DecimalNat DecimalFacts.
From stdpp Require Import base list option.
Import ListNotations.
Local Open Scope string_scope.
Local Open Scope list_scope.
Local Open Scope Z_scope.

(* ===================================================================== *)
(** * Part I: the embedding                                               *)
(* ===================================================================== *)

(** ** Python strings

    Node names, URLs and keywords are Python [str] values.  They are kept
    here as Rocq strings holding their UTF-8 encoding.  The only operations
    the sources apply to them are equality, emptiness and [kw in s]; on
    valid UTF-8 the byte-level substring test agrees with the code-point
    one, because the encoding is self-synchronising. *)
Module PyStr.

(** Truthiness of a [str]: only the empty string is falsy. *)
Definition truthy (s : string) : bool :=
  match s with EmptyString => false | String _ _ => true end.

(** [kw in s]. *)
Fixpoint contains (kw s : string) : bool :=
  String.prefix kw s ||
  match s with
  | EmptyString => false
  | String _ s' => contains kw s'
  end.

(** [any(kw in s for kw in kws)]. *)
Definition any_contains (kws : list string) (s : string) : bool :=
  existsb (fun kw => contains kw s) kws.

(** [str(n)] for a natural number. *)
Definition of_nat (n : nat) : string :=
  NilZero.string_of_uint (Nat.to_uint n).

End PyStr.

(** ** Naive date-times

    [datetime.now()], [datetime.fromtimestamp], [datetime.replace(day=..)],
    [+ timedelta(days=..)] and [strftime("%Y-%m-%d %H:%M:%S")].  Time stamps
    are whole seconds; the local zone is a fixed offset from UTC. *)
Module DateTime.

Record datetime := mkDT {
  year : Z; month : Z; day : Z;
  hour : Z; minute : Z; second : Z
}.

Definition MINYEAR : Z := 1.
Definition MAXYEAR : Z := 9999.

Definition is_leap (y : Z) : bool :=
  (y mod 4 =? 0) && (negb (y mod 100 =? 0) || (y mod 400 =? 0)).

Definition days_in_month (y m : Z) : Z :=
  match m with
  | 1 | 3 | 5 | 7 | 8 | 10 | 12 => 31
  | 4 | 6 | 9 | 11 => 30
  | 2 => if is_leap y then 29 else 28
  | _ => 0
  end.

(** The values a [datetime] object can hold. *)
Definition valid (d : datetime) : Prop :=
  MINYEAR <= year d <= MAXYEAR /\ 1 <= month d <= 12 /\
  1 <= day d <= days_in_month (year d) (month d) /\
  0 <= hour d < 24 /\ 0 <= minute d < 60 /\ 0 <= second d < 60.

(** [d.replace(day=n)]: raises [ValueError] (here [None]) when [n] is not
    a day of [d]'s month. *)
Definition replace_day (d : datetime) (n : Z) : option datetime :=
  if (1 <=? n) && (n <=? days_in_month (year d) (month d))
  then Some (mkDT (year d) (month d) n (hour d) (minute d) (second d))
  else None.

(** Days since 1970-01-01 of a proleptic Gregorian date, and back. *)
Definition days_from_civil (y m d : Z) : Z :=
  let y' := if m <=? 2 then y - 1 else y in
  let era := y' / 400 in
  let yoe := y' - era * 400 in
  let mp := if 2 <? m then m - 3 else m + 9 in
  let doy := (153 * mp + 2) / 5 + d - 1 in
  let doe := yoe * 365 + yoe / 4 - yoe / 100 + doy in
  era * 146097 + doe - 719468.

Definition civil_from_days (z : Z) : Z * Z * Z :=
  let z' := z + 719468 in
  let era := z' / 146097 in
  let doe := z' - era * 146097 in
  let yoe := (doe - doe / 1460 + doe / 36524 - doe / 146096) / 365 in
  let doy := doe - (365 * yoe + yoe / 4 - yoe / 100) in
  let mp := (5 * doy + 2) / 153 in
  let d := doy - (153 * mp + 2) / 5 + 1 in
  let m := if mp <? 10 then mp + 3 else mp - 9 in
  let y := yoe + era * 400 in
  (if m <=? 2 then y + 1 else y, m, d).

(** The naive date-time [s] seconds after 1970-01-01 00:00:00; [None]
    stands for the [OverflowError]/[ValueError] Python raises outside
    years 1..9999. *)
Definition of_seconds (s : Z) : option datetime :=
  let '(y, m, d) := civil_from_days (s / 86400) in
  let sod := s mod 86400 in
  if (MINYEAR <=? y) && (y <=? MAXYEAR)
  then Some (mkDT y m d (sod / 3600) (sod mod 3600 / 60) (sod mod 60))
  else None.

Definition to_seconds (d : datetime) : Z :=
  days_from_civil (year d) (month d) (day d) * 86400
  + hour d * 3600 + minute d * 60 + second d.

(** [datetime.fromtimestamp(t)] in a zone [utc_offset] seconds east of
    Greenwich. *)
Definition fromtimestamp (utc_offset t : Z) : option datetime :=
  of_seconds (t + utc_offset).

(** [d + timedelta(days=n)]. *)
Definition add_days (d : datetime) (n : Z) : option datetime :=
  of_seconds (to_seconds d + n * 86400).

Definition digit (z : Z) : ascii := ascii_of_nat (48 + Z.to_nat z).

Definition pad2 (z : Z) : string :=
  String (digit (z / 10 mod 10)) (String (digit (z mod 10)) EmptyString).

Definition pad4 (z : Z) : string :=
  String (digit (z / 1000 mod 10)) (String (digit (z / 100 mod 10)) (pad2 z)).

(** [d.strftime("%Y-%m-%d %H:%M:%S")] (four-digit years; what CPython
    prints for years below 1000 depends on the platform's C library). *)
Definition strftime (d : datetime) : string :=
  (pad4 (year d) ++ "-" ++ pad2 (month d) ++ "-" ++ pad2 (day d) ++ " " ++
   pad2 (hour d) ++ ":" ++ pad2 (minute d) ++ ":" ++ pad2 (second d))%string.

End DateTime.

(** ** Cookie bundles

    The dict built by [BrowserController.extract_cookies], to which the
    orchestrators add ["email"] and ["password"]. *)
Record cookie_data := mkCookieData {
  secure_c_ses : string;
  csesidx : string;
  config_id : string;
  host_c_oses : string;
  expires_at : string;
  cd_email : option string;
  cd_password : option string
}.

Definition set_email (e : string) (c : cookie_data) : cookie_data :=
  mkCookieData (secure_c_ses c) (csesidx c) (config_id c) (host_c_oses c)
               (expires_at c) (Some e) (cd_password c).

Definition set_password (p : string) (c : cookie_data) : cookie_data :=
  mkCookieData (secure_c_ses c) (csesidx c) (config_id c) (host_c_oses c)
               (expires_at c) (cd_email c) (Some p).

(** ** src/utils.py *)
Module Utils.
Import DateTime.

(** One record of accounts.json.  The three fields the code reads back
    with [.get] from records already in the file may be missing there. *)
Record account := mkAccount {
  acc_id : option string;
  acc_email : option string;
  acc_secure_c_ses : string;
  acc_csesidx : string;
  acc_config_id : string;
  acc_host_c_oses : string;
  acc_expires_at : string;
  acc_created_at : option string;
  acc_updated_at : string
}.

Definition email_is (email : string) (a : account) : bool :=
  match acc_email a with
  | Some e => String.eqb e email
  | None => false
  end.

(** The [for idx, account in enumerate(accounts)] search: the index of
    the first record whose email is [email]. *)
Fixpoint find_existing_idx (email : string) (accounts : list account) : option nat :=
  match accounts with
  | [] => None
  | a :: rest =>
      if email_is email a then Some 0%nat
      else option_map S (find_existing_idx email rest)
  end.

(** [update_accounts_json(json_path, email, cookie_data)] run at local
    time [now] on a file holding [accounts]; the reads of [datetime.now()]
    within one call are taken at the same instant.  [None] is the
    [ValueError] of [replace(day=...)], raised before anything is written;
    [Some l] is the list handed to [write_json_file]. *)
Definition update_accounts_json
    (now : datetime) (accounts : list account)
    (email : string) (cd : cookie_data) : option (list account) :=
  let existing_idx := find_existing_idx email accounts in
  let now_s := strftime now in
  match replace_day now (day now + 7) with
  | None => None
  | Some exp =>
      let expires := strftime exp in
      let old := existing_idx ≫= (fun i => accounts !! i) in
      let record := mkAccount
        (match old with
         | None => Some ("account_" ++ PyStr.of_nat (length accounts + 1)%nat)%string
         | Some a => acc_id a
         end)
        (Some email)
        (secure_c_ses cd) (csesidx cd) (config_id cd) (host_c_oses cd)
        expires
        (match old with
         | None => Some now_s
         | Some a => Some (default now_s (acc_created_at a))
         end)
        now_s in
      match existing_idx with
      | Some i => Some (<[i := record]> accounts)
      | None => Some (accounts ++ [record])
      end
  end.

End Utils.

(** ** src/browser_controller.py *)
Module Browser.
Import DateTime.

(** One entry of [BrowserContext.cookies()].  [ck_expires] is what
    [cookie.get("expires")] returns: [None] when the key is missing,
    otherwise a Unix time, here in whole seconds. *)
Record cookie := mkCookie {
  ck_name : string;
  ck_value : string;
  ck_expires : option Z
}.

(** The two calls into [urllib.parse] that [extract_cookies] makes:
    [urlparse(url).path] and
    [parse_qs(urlparse(url).query).get(key, [None])[0]]. *)
Record urllib := mkUrllib {
  url_path : string -> string;
  url_query_first : string -> string -> option string
}.

(** What one browser session shows to [extract_cookies] and
    [enter_verification_code]: the value of [page.url] at its successive
    reads, the outcome of [context.cookies()] ([None] when the call raises),
    the successive look-ups of the code input, and whether the input steps
    of [enter_verification_code] (click, fill, event dispatch, button click
    or Enter) run without raising. *)
Record page := mkPage {
  page_url : nat -> string;
  context_cookies : option (list cookie);
  code_input_found : nat -> bool;
  input_steps_ok : bool
}.

(** [s.split('/')]. *)
Fixpoint split_slash (acc s : string) : list string :=
  match s with
  | EmptyString => [acc]
  | String c s' =>
      if Ascii.eqb c "/"%char then acc :: split_slash EmptyString s'
      else split_slash (acc ++ String c EmptyString)%string s'
  end.

(** [parts[parts.index('cid') + 1]] when ['cid' in parts] and the list is
    long enough. *)
Fixpoint after_cid (parts : list string) : option string :=
  match parts with
  | [] => None
  | p :: rest =>
      if String.eqb p "cid" then head rest else after_cid rest
  end.

(** The [for i in range(15)] wait: the number of reads of [page.url] made
    before the loop ends, starting at read [k] with [n] rounds left. *)
Fixpoint wait_target_url (url : nat -> string) (k n : nat) : nat :=
  match n with
  | O => k
  | S n' =>
      if PyStr.contains "/cid/" (url k) || PyStr.contains "csesidx=" (url k)
      then S k
      else wait_target_url url (S k) n'
  end.

Definition SECURE_C_SES : string := "__Secure-C_SES".
Definition HOST_C_OSES : string := "__Host-C_OSES".

Definition with_secure_c_ses (v : string) (r : cookie_data) : cookie_data :=
  mkCookieData v (csesidx r) (config_id r) (host_c_oses r) (expires_at r)
               (cd_email r) (cd_password r).
Definition with_csesidx (v : string) (r : cookie_data) : cookie_data :=
  mkCookieData (secure_c_ses r) v (config_id r) (host_c_oses r) (expires_at r)
               (cd_email r) (cd_password r).
Definition with_config_id (v : string) (r : cookie_data) : cookie_data :=
  mkCookieData (secure_c_ses r) (csesidx r) v (host_c_oses r) (expires_at r)
               (cd_email r) (cd_password r).
Definition with_host_c_oses (v : string) (r : cookie_data) : cookie_data :=
  mkCookieData (secure_c_ses r) (csesidx r) (config_id r) v (expires_at r)
               (cd_email r) (cd_password r).
Definition with_expires_at (v : string) (r : cookie_data) : cookie_data :=
  mkCookieData (secure_c_ses r) (csesidx r) (config_id r) (host_c_oses r) v
               (cd_email r) (cd_password r).

Definition empty_result : cookie_data :=
  mkCookieData "" "" "" "" "" None None.

(** Truthiness of [cookie.get("expires")]: [None] and [0] are falsy. *)
Definition truthy_expiry (e : option Z) : option Z :=
  match e with
  | Some t => if t =? 0 then None else Some t
  | None => None
  end.

(** The [for cookie in cookies] loop over the mutable [result].  The
    boolean tells whether [datetime.fromtimestamp] raised, which leaves the
    loop with [result] as it stood. *)
Fixpoint scan_cookies (utc_offset : Z) (cookies : list cookie)
    (result : cookie_data) : cookie_data * bool :=
  match cookies with
  | [] => (result, false)
  | c :: rest =>
      if String.eqb (ck_name c) SECURE_C_SES then
        let result := with_secure_c_ses (ck_value c) result in
        match truthy_expiry (ck_expires c) with
        | Some expiry =>
            match fromtimestamp utc_offset (expiry - 43200) with
            | Some adjusted_time =>
                scan_cookies utc_offset rest
                  (with_expires_at (strftime adjusted_time) result)
            | None => (result, true)
            end
        | None => scan_cookies utc_offset rest result
        end
      else if String.eqb (ck_name c) HOST_C_OSES then
        scan_cookies utc_offset rest (with_host_c_oses (ck_value c) result)
      else scan_cookies utc_offset rest result
  end.

(** [extract_cookies()], run at local time [now].  Every exception is
    caught by the function itself, which then returns [result] as filled
    so far. *)
Definition extract_cookies (lib : urllib) (utc_offset : Z) (now : datetime)
    (pg : page) : cookie_data :=
  let result := empty_result in
  let current_url := page_url pg (wait_target_url (page_url pg) 0 15) in
  let path_parts := split_slash EmptyString (url_path lib current_url) in
  let result :=
    match after_cid path_parts with
    | Some cid => with_config_id cid result
    | None => result
    end in
  let result :=
    match url_query_first lib current_url "csesidx" with
    | Some v => if PyStr.truthy v then with_csesidx v result else result
    | None => result
    end in
  match context_cookies pg with
  | None => result
  | Some cookies =>
      let '(result, raised) := scan_cookies utc_offset cookies result in
      if raised then result
      else if PyStr.truthy (expires_at result) then result
      else
        match add_days now 7 with
        | Some d => with_expires_at (strftime d) result
        | None => result
        end
  end.

Definition LOGGED_IN_KEYWORDS : list string :=
  ["home"; "admin"; "setup"; "create"; "dashboard"].
Definition FAIL_KEYWORDS : list string := ["verify"; "oob"; "error"].

(** The [for _ in range(10)] search for the code input: does one of the
    ten look-ups find it? *)
Fixpoint find_code_input (found : nat -> bool) (k n : nat) : bool :=
  match n with
  | O => false
  | S n' => found k || find_code_input found (S k) n'
  end.

(** The navigation wait that ends [enter_verification_code]:
    [for _ in range(n): sleep(3); if any(kw in page.url ...): return True],
    then the check of the failure keywords on one more read of [page.url].
    The result comes with the number of three-second sleeps spent. *)
Fixpoint wait_navigation (url : nat -> string) (k n : nat) : bool * nat :=
  match n with
  | O => (negb (PyStr.any_contains FAIL_KEYWORDS (url k)), k)
  | S n' =>
      if PyStr.any_contains LOGGED_IN_KEYWORDS (url k) then (true, S k)
      else wait_navigation url (S k) n'
  end.

(** [enter_verification_code(code)]: the boolean it returns and the number
    of three-second sleeps of its navigation wait. *)
Definition enter_verification_code (pg : page) (code : string) : bool * nat :=
  if negb (find_code_input (code_input_found pg) 0 10) then (false, 0%nat)
  else if negb (input_steps_ok pg) then (false, 0%nat)
  else wait_navigation (page_url pg) 0 10.

Definition COMPLETE_KEYWORDS : list string :=
  ["home"; "admin"; "setup"; "create"; "dashboard"; "cid"].

(** [wait_for_login_complete(timeout)], polling [timeout // 3] times. *)
Fixpoint poll_complete (url : nat -> string) (k n : nat) : bool :=
  match n with
  | O => false
  | S n' =>
      PyStr.any_contains COMPLETE_KEYWORDS (url k) || poll_complete url (S k) n'
  end.

Definition wait_for_login_complete (pg : page) (timeout : nat) : bool :=
  poll_complete (page_url pg) 0 (timeout / 3).

End Browser.

(** ** src/mail_client.py: code extraction

    Email bodies are Python [str] values, that is sequences of Unicode code
    points, and [re] works on code points: the body is a [list N]. *)
Module Mail.
Local Open Scope N_scope.

Definition text := list N.

(** UTF-8 decoding, used to write bodies and expected codes as literals. *)
Fixpoint utf8_decode_bytes (bs : list N) (fuel : nat) : text :=
  match fuel with
  | O => []
  | S fuel' =>
      match bs with
      | [] => []
      | b0 :: r0 =>
          if b0 <? 128 then b0 :: utf8_decode_bytes r0 fuel'
          else if b0 <? 224 then
            match r0 with
            | b1 :: r1 =>
                ((b0 - 192) * 64 + (b1 - 128)) :: utf8_decode_bytes r1 fuel'
            | _ => []
            end
          else if b0 <? 240 then
            match r0 with
            | b1 :: b2 :: r2 =>
                ((b0 - 224) * 4096 + (b1 - 128) * 64 + (b2 - 128))
                  :: utf8_decode_bytes r2 fuel'
            | _ => []
            end
          else
            match r0 with
            | b1 :: b2 :: b3 :: r3 =>
                ((b0 - 240) * 262144 + (b1 - 128) * 4096 + (b2 - 128) * 64
                 + (b3 - 128)) :: utf8_decode_bytes r3 fuel'
            | _ => []
            end
      end
  end.

Definition str (s : string) : text :=
  let bs := map N_of_ascii (list_ascii_of_string s) in
  utf8_decode_bytes bs (length bs).

(** *** Character classes of [re] on [str] patterns *)

(** The part of the Unicode database that lies outside ASCII and that the
    two patterns consult: [str.isalnum] (for [\b]) and the decimal-digit
    property (for [\d]). *)
Record unicode_db := mkUnicodeDb {
  uni_isalnum : N -> bool;
  uni_isdecimal : N -> bool
}.

Definition in_range (lo hi c : N) : bool := (lo <=? c) && (c <=? hi).

Definition ascii_digit (c : N) : bool := in_range 48 57 c.
Definition ascii_upper (c : N) : bool := in_range 65 90 c.
Definition ascii_lower (c : N) : bool := in_range 97 122 c.
Definition ascii_alnum (c : N) : bool :=
  ascii_digit c || ascii_upper c || ascii_lower c.

(** [\d]. *)
Definition is_digit (db : unicode_db) (c : N) : bool :=
  if c <? 128 then ascii_digit c else uni_isdecimal db c.

(** [\w]: alphanumeric or underscore. *)
Definition is_word (db : unicode_db) (c : N) : bool :=
  if c <? 128 then ascii_alnum c || (c =? 95) else uni_isalnum db c.

(** [\s]: the white space of [str.isspace]. *)
Definition is_space (c : N) : bool :=
  in_range 9 13 c || in_range 28 32 c || (c =? 133) || (c =? 160) ||
  (c =? 5760) || in_range 8192 8202 c || (c =? 8232) || (c =? 8233) ||
  (c =? 8239) || (c =? 8287) || (c =? 12288).

(** [.] under [re.DOTALL]. *)
Definition any_char (_ : N) : bool := true.

(** Simple lower-casing, as far as it can reach a character of the
    patterns: ASCII capitals, U+0130 (to [i]) and U+212A (to [k]). *)
Definition lower (c : N) : N :=
  if ascii_upper c then c + 32
  else if c =? 304 then 105
  else if c =? 8490 then 107
  else c.

(** A literal pattern character under [re.IGNORECASE]: the subject
    character is lower-cased and compared; [i] and [s] also accept their
    case-folding equivalents U+0131 and U+017F. *)
Definition lit_ignorecase (p c : N) : bool :=
  let lo := lower p in
  (lower c =? lo) ||
  ((lo =? 105) && (c =? 305)) || ((lo =? 115) && (c =? 383)).

(** [[A-Za-z0-9]] under [re.IGNORECASE]: the ASCII letters and digits and
    the four non-ASCII letters whose case mappings fall into the class. *)
Definition token_char (c : N) : bool :=
  ascii_alnum c || (c =? 304) || (c =? 305) || (c =? 383) || (c =? 8490).

(** [[:：]]. *)
Definition colon_char (c : N) : bool := (c =? 58) || (c =? 65306).

(** *** A backtracking matcher for the fragment of [re] in use *)

Inductive regex :=
| Eps
| Chr (p : N -> bool)
| Seq (r1 r2 : regex)
| Alt (r1 r2 : regex)
| Star (greedy : bool) (p : N -> bool)
| Repeat (p : N -> bool) (lo hi : nat)
| WordBoundary.

(** [\b] between the previous character and the rest of the subject. *)
Definition at_boundary (db : unicode_db) (prev : option N) (s : text) : bool :=
  let w (o : option N) := match o with Some c => is_word db c | None => false end in
  xorb (w prev) (w (head s)).

Section Matcher.
Context {A : Type}.
Variable db : unicode_db.

(** The continuation receives the last character consumed and the rest of
    the subject. *)
Definition cont := option N -> text -> option A.

(** [p*?]: as few characters as the continuation accepts. *)
Fixpoint star_lazy (p : N -> bool) (k : cont) (prev : option N) (s : text)
    : option A :=
  match k prev s with
  | Some x => Some x
  | None =>
      match s with
      | c :: s' => if p c then star_lazy p k (Some c) s' else None
      | [] => None
      end
  end.

(** [p*]: as many characters as possible, giving back one at a time. *)
Fixpoint star_greedy (p : N -> bool) (k : cont) (prev : option N) (s : text)
    : option A :=
  match s with
  | c :: s' =>
      if p c then
        match star_greedy p k (Some c) s' with
        | Some x => Some x
        | None => k prev s
        end
      else k prev s
  | [] => k prev s
  end.

(** [p{lo,hi}], greedy. *)
Fixpoint repeat_greedy (p : N -> bool) (k : cont) (lo hi : nat)
    (prev : option N) (s : text) : option A :=
  let stop := match lo with O => k prev s | S _ => None end in
  match hi with
  | O => stop
  | S hi' =>
      match s with
      | c :: s' =>
          if p c then
            match repeat_greedy p k (Nat.pred lo) hi' (Some c) s' with
            | Some x => Some x
            | None => stop
            end
          else stop
      | [] => stop
      end
  end.

Fixpoint exec (r : regex) (k : cont) (prev : option N) (s : text) : option A :=
  match r with
  | Eps => k prev s
  | Chr p =>
      match s with
      | c :: s' => if p c then k (Some c) s' else None
      | [] => None
      end
  | Seq r1 r2 => exec r1 (exec r2 k) prev s
  | Alt r1 r2 =>
      match exec r1 k prev s with
      | Some x => Some x
      | None => exec r2 k prev s
      end
  | Star true p => star_greedy p k prev s
  | Star false p => star_lazy p k prev s
  | Repeat p lo hi => repeat_greedy p k lo hi prev s
  | WordBoundary => if at_boundary db prev s then k prev s else None
  end.

(** [re.search]: the match at the leftmost position that has one.
    [at_pos prev s] is the attempt at matching from one position. *)
Fixpoint search (at_pos : option N -> text -> option A)
    (prev : option N) (s : text) : option A :=
  match at_pos prev s with
  | Some x => Some x
  | None =>
      match s with
      | c :: s' => search at_pos (Some c) s'
      | [] => None
      end
  end.

End Matcher.

(** [re.findall] for a pattern that never matches the empty string: the
    matches found from left to right, each attempt starting where the
    previous match ended ([skip] characters are still to be passed). *)
Fixpoint findall (at_pos : option N -> text -> option text)
    (skip : nat) (prev : option N) (s : text) : list text :=
  match skip with
  | S n =>
      match s with
      | c :: s' => findall at_pos n (Some c) s'
      | [] => []
      end
  | O =>
      match at_pos prev s with
      | Some m =>
          m :: match s with
               | c :: s' => findall at_pos (Nat.pred (length m)) (Some c) s'
               | [] => []
               end
      | None =>
          match s with
          | c :: s' => findall at_pos O (Some c) s'
          | [] => []
          end
      end
  end.

(** A literal string under [re.IGNORECASE]. *)
Fixpoint lit (cs : text) : regex :=
  match cs with
  | [] => Eps
  | c :: cs' => Seq (Chr (lit_ignorecase c)) (lit cs')
  end.

(** [(?:验证码|code|verification|passcode|pin)] *)
Definition LABELS : list text :=
  [str "验证码"; str "code"; str "verification"; str "passcode"; str "pin"].

Definition label_re : regex :=
  Alt (lit (str "验证码"))
   (Alt (lit (str "code"))
    (Alt (lit (str "verification"))
     (Alt (lit (str "passcode")) (lit (str "pin"))))).

(** [pattern_context], cut at its capturing group:
    [(?:...).*?[:：]\s*] , [([A-Za-z0-9]{4,8})] , [\b]. *)
Definition context_prefix : regex :=
  Seq label_re (Seq (Star false any_char) (Seq (Chr colon_char) (Star true is_space))).
Definition context_group : regex := Repeat token_char 4 8.
Definition context_suffix : regex := WordBoundary.

(** The characters a match took from [s], given what it left. *)
Definition consumed (s rest : text) : text :=
  take (length s - length rest)%nat s.

(** One attempt of [pattern_context] at a position; the result is
    [match.group(1)]. *)
Definition context_at (db : unicode_db) (prev : option N) (s : text) : option text :=
  exec db context_prefix
    (fun p1 s1 =>
       exec db context_group
         (fun p2 s2 =>
            exec db context_suffix (fun _ _ => Some (consumed s1 s2)) p2 s2)
         p1 s1)
    prev s.

(** One attempt of [\b\d{6}\b] at a position; the result is the match. *)
Definition six_digits_at (db : unicode_db) (prev : option N) (s : text) : option text :=
  exec db (Seq WordBoundary (Seq (Repeat (is_digit db) 6 6) WordBoundary))
    (fun _ rest => Some (consumed s rest)) prev s.

(** [MailClient._extract_code(text)]. *)
Definition _extract_code (db : unicode_db) (body : text) : option text :=
  match search (context_at db) None body with
  | Some code => Some code
  | None =>
      match findall (six_digits_at db) O None body with
      | d :: _ => Some d
      | [] => None
      end
  end.

End Mail.

(** ** src/clash_manager.py *)
Module Clash.

(** One value of the dict returned by the controller's [/proxies]:
    [val.get("type")] and [val.get("all", [])]. *)
Record proxy_info := mkProxyInfo {
  p_type : option string;
  p_all : list string
}.

(** A dict keeps its insertion order, and the auto-detection below depends
    on it: the proxies are an association list. *)
Definition proxies_dict := list (string * proxy_info).

Fixpoint lookup_group (g : string) (proxies : proxies_dict) : option proxy_info :=
  match proxies with
  | [] => None
  | (k, v) :: rest => if String.eqb k g then Some v else lookup_group g rest
  end.

(** The answer to one HTTP request: an exception of [requests] (time-out,
    connection error, undecodable body), or a status code together with the
    ["delay"] field of the JSON body, if the body has one. *)
Inductive http_reply :=
| Raised
| Reply (status : Z) (delay : option Z).

(** The world outside the manager: the controller API, the route through
    the selected node, and the random source behind [random.shuffle]. *)
Record clash_env := mkClashEnv {
  api_proxies : option proxies_dict;        (* GET /proxies, [None]: raises *)
  api_delay : string -> http_reply;         (* GET /proxies/<node>/delay *)
  api_select : string -> string -> bool;    (* PUT /proxies/<group>, [false]: raises *)
  gstatic_204 : string -> http_reply;       (* GET generate_204 through the node *)
  shuffle : list string -> list string
}.

(** The requests [find_healthy_node] sends, in order. *)
Inductive request :=
| ReqDelay (node : string)
| ReqSelect (group node : string)
| ReqGstatic (node : string).

Definition SKIP_KEYWORDS : list string :=
  ["自动选择"; "故障转移"; "DIRECT"; "REJECT"; "剩余"; "到期"; "官网"].

(** [any(kw in node for kw in self.SKIP_KEYWORDS)]. *)
Definition skipped (node : string) : bool :=
  PyStr.any_contains SKIP_KEYWORDS node.

Definition get_proxies (env : clash_env) : proxies_dict :=
  match api_proxies env with
  | Some d => d
  | None => []
  end.

(** [test_latency(proxy_name)]: the delay in ms, or -1. *)
Definition test_latency (env : clash_env) (proxy_name : string) : Z :=
  match api_delay env proxy_name with
  | Reply status delay =>
      if status =? 200 then default 0 delay else -1
  | Raised => -1
  end.

(** [select_proxy(group_name, proxy_name)]. *)
Definition select_proxy (env : clash_env) (group_name proxy_name : string) : bool :=
  api_select env group_name proxy_name.

(** [_test_google_access(proxy_name)]. *)
Definition _test_google_access (env : clash_env) (proxy_name : string) : bool :=
  match gstatic_204 env proxy_name with
  | Reply status _ => (status =? 200) || (status =? 204)
  | Raised => false
  end.

(** The auto-detection loop: the first key whose value is a non-empty
    ["Selector"]. *)
Fixpoint first_selector (proxies : proxies_dict) : option string :=
  match proxies with
  | [] => None
  | (key, val) :: rest =>
      if match p_type val with Some t => String.eqb t "Selector" | None => false end
         && (0 <? length (p_all val))%nat
      then Some key
      else first_selector rest
  end.

(** [not group_name or group_name not in proxies]. *)
Definition unusable (group_name : option string) (proxies : proxies_dict) : bool :=
  match group_name with
  | None => true
  | Some g =>
      negb (PyStr.truthy g) ||
      match lookup_group g proxies with Some _ => false | None => true end
  end.

Definition resolve_group (group_name : option string) (proxies : proxies_dict)
    : option string :=
  let group_name :=
    if unusable group_name proxies then
      match first_selector proxies with
      | Some key => Some key
      | None => group_name
      end
    else group_name in
  if unusable group_name proxies then None else group_name.

(** The [for node in all_nodes] loop, with the requests it sends. *)
Fixpoint probe_nodes (env : clash_env) (group_name : string)
    (all_nodes : list string) : option string * list request :=
  match all_nodes with
  | [] => (None, [])
  | node :: rest =>
      if skipped node then probe_nodes env group_name rest
      else
        let delay := test_latency env node in
        if delay <=? 0 then
          let '(r, reqs) := probe_nodes env group_name rest in
          (r, ReqDelay node :: reqs)
        else
          let _ := select_proxy env group_name node in
          if _test_google_access env node then
            (Some node, [ReqDelay node; ReqSelect group_name node; ReqGstatic node])
          else
            let '(r, reqs) := probe_nodes env group_name rest in
            (r, ReqDelay node :: ReqSelect group_name node :: ReqGstatic node :: reqs)
  end.

(** [find_healthy_node(group_name)]. *)
Definition find_healthy_node (env : clash_env) (group_name : option string)
    : option string * list request :=
  let proxies := get_proxies env in
  match resolve_group group_name proxies with
  | None => (None, [])
  | Some g =>
      let all_nodes := default [] (p_all <$> lookup_group g proxies) in
      probe_nodes env g (shuffle env all_nodes)
  end.

End Clash.

(** ** src/main.py and src/api_server.py: the acquisition paths *)
Module Orchestrator.
Import DateTime.

(** What one [MailClient] object answers: [register()] (the generated
    address and password when it returns [True]), [login_existing],
    and [wait_for_code]. *)
Record mail_script := mkMail {
  m_register : option (string * string);
  m_login_existing : bool;
  m_wait_for_code : option string
}.

(** What one [BrowserController] object answers.  [start()] is the one
    method that lets exceptions out ([b_start = false]); the others catch
    them and return [False] or the partial result. *)
Record browser_script := mkBrowser {
  b_start : bool;
  b_login : bool;
  b_enter_verification_code : string -> bool;
  b_wait_for_login_complete : bool;
  b_extract_cookies : cookie_data
}.

(** The environment of a run.  Objects are told apart by their creation
    order; the proxy manager and the clock by the number of calls made. *)
Record env := mkEnv {
  e_find_healthy_node : nat -> option string;
  e_switch_node : string -> bool;
  e_mail : nat -> mail_script;
  e_browser : nat -> browser_script;
  e_now : nat -> datetime
}.

(** The observable effects, in program order. *)
Inductive event :=
| FindHealthyNode
| SwitchNode (node : string)
| NewMailClient (m : nat)
| Register (m : nat)
| SetCredentials (m : nat) (email password : string)
| LoginExisting (m : nat) (email password : string)
| ClearInbox (m : nat)
| WaitForCode (m : nat) (timeout : nat)
| NewBrowser (b : nat) (headless : bool)
| Start (b : nat)
| Login (b : nat) (email password : string)
| EnterVerificationCode (b : nat) (code : string)
| WaitForLoginComplete (b : nat) (timeout : nat)
| ExtractCookies (b : nat)
| Stop (b : nat)
| UpdateAccountsJson (email : string) (data : cookie_data)
| AppendToCsv (email password : string)
| Sleep (seconds : nat).

Record world := mkWorld {
  w_trace : list event;
  w_accounts : list Utils.account;   (* the content of accounts.json *)
  w_finds : nat;                     (* calls of find_healthy_node so far *)
  w_mails : nat;                     (* MailClient objects created so far *)
  w_browsers : nat;                  (* BrowserController objects created *)
  w_writes : nat                     (* calls of update_accounts_json *)
}.

Definition initial (accounts : list Utils.account) : world :=
  mkWorld [] accounts 0 0 0 0.

(** A small state monad over the world. *)
Definition M (A : Type) : Type := world -> A * world.

Definition ret {A} (a : A) : M A := fun w => (a, w).
Definition bind {A B} (m : M A) (k : A -> M B) : M B :=
  fun w => let '(a, w') := m w in k a w'.

Notation "'let*' x ':=' m 'in' k" := (bind m (fun x => k))
  (at level 10, x pattern, m at level 100, k at level 200).
Notation "m '>>' k" := (bind m (fun _ => k))
  (at level 90, right associativity).

Definition emit (e : event) : M unit :=
  fun w => (tt, mkWorld (w_trace w ++ [e]) (w_accounts w) (w_finds w)
                        (w_mails w) (w_browsers w) (w_writes w)).

Section Paths.
Variable E : env.

(** [clash_manager.find_healthy_node()], with Python's truthiness applied
    to the returned name. *)
Definition find_healthy_node : M (option string) :=
  fun w =>
    let r := match e_find_healthy_node E (w_finds w) with
             | Some n => if PyStr.truthy n then Some n else None
             | None => None
             end in
    (r, mkWorld (w_trace w ++ [FindHealthyNode]) (w_accounts w)
                (S (w_finds w)) (w_mails w) (w_browsers w) (w_writes w)).

Definition switch_node (n : string) : M bool :=
  emit (SwitchNode n) >> ret (e_switch_node E n).

(** [MailClient(proxy_url=...)]. *)
Definition new_mail_client : M nat :=
  fun w =>
    (w_mails w,
     mkWorld (w_trace w ++ [NewMailClient (w_mails w)]) (w_accounts w)
             (w_finds w) (S (w_mails w)) (w_browsers w) (w_writes w)).

(** [BrowserController(proxy_url=..., headless=...)]. *)
Definition new_browser (headless : bool) : M nat :=
  fun w =>
    (w_browsers w,
     mkWorld (w_trace w ++ [NewBrowser (w_browsers w) headless]) (w_accounts w)
             (w_finds w) (w_mails w) (S (w_browsers w)) (w_writes w)).

Definition mail_register (m : nat) : M (option (string * string)) :=
  emit (Register m) >> ret (m_register (e_mail E m)).

Definition mail_login_existing (m : nat) (email password : string) : M bool :=
  emit (LoginExisting m email password) >> ret (m_login_existing (e_mail E m)).

Definition mail_clear_inbox (m : nat) : M unit := emit (ClearInbox m).

(** [wait_for_code(timeout)], with the truthiness test of [if not code]. *)
Definition mail_wait_for_code (m : nat) (timeout : nat) : M (option string) :=
  emit (WaitForCode m timeout) >>
  ret (match m_wait_for_code (e_mail E m) with
       | Some c => if PyStr.truthy c then Some c else None
       | None => None
       end).

Definition browser_start (b : nat) : M bool :=
  emit (Start b) >> ret (b_start (e_browser E b)).
Definition browser_login (b : nat) (email password : string) : M bool :=
  emit (Login b email password) >> ret (b_login (e_browser E b)).
Definition browser_enter_verification_code (b : nat) (code : string) : M bool :=
  emit (EnterVerificationCode b code) >>
  ret (b_enter_verification_code (e_browser E b) code).
Definition browser_wait_for_login_complete (b : nat) (timeout : nat) : M bool :=
  emit (WaitForLoginComplete b timeout) >>
  ret (b_wait_for_login_complete (e_browser E b)).
Definition browser_extract_cookies (b : nat) : M cookie_data :=
  emit (ExtractCookies b) >> ret (b_extract_cookies (e_browser E b)).
Definition browser_stop (b : nat) : M unit := emit (Stop b).

(** [update_accounts_json(config.output_json_path, email, cookie_data)] on
    the file of the world, at the time of the call.  The result tells
    whether the call returned ([true]) or raised ([false]); a call that
    raises leaves the file as it was. *)
Definition update_accounts_json (email : string) (cd : cookie_data) : M bool :=
  fun w =>
    let tr := w_trace w ++ [UpdateAccountsJson email cd] in
    match Utils.update_accounts_json (e_now E (w_writes w)) (w_accounts w) email cd with
    | Some accounts' =>
        (true, mkWorld tr accounts' (w_finds w) (w_mails w) (w_browsers w)
                       (S (w_writes w)))
    | None =>
        (false, mkWorld tr (w_accounts w) (w_finds w) (w_mails w) (w_browsers w)
                        (S (w_writes w)))
    end.

(** [append_to_csv]: it catches its own exceptions. *)
Definition append_to_csv (email password : string) : M unit :=
  emit (AppendToCsv email password).

(** *** Registration *)

(** One round of the [for attempt in range(max_retries)] loop shared by
    [register_new_account] (src/main.py) and [register_single_account]
    (src/api_server.py): [Some data] is [return cookie_data], [None] is
    [continue]. *)
Definition register_attempt (headless : bool) : M (option cookie_data) :=
  let* m := new_mail_client in
  let* reg := mail_register m in
  match reg with
  | None => ret None
  | Some (email, password) =>
      let* b := new_browser headless in
      let* started := browser_start b in
      if negb started then browser_stop b >> ret None else
      let* ok := browser_login b email password in
      if negb ok then browser_stop b >> ret None else
      let* code := mail_wait_for_code m 30 in
      match code with
      | None => browser_stop b >> ret None
      | Some code =>
          let* ok := browser_enter_verification_code b code in
          if negb ok then browser_stop b >> ret None else
          let* ok := browser_wait_for_login_complete b 60 in
          if negb ok then browser_stop b >> ret None else
          let* cookie_data := browser_extract_cookies b in
          if negb (PyStr.truthy (secure_c_ses cookie_data))
          then browser_stop b >> ret None
          else
            let cookie_data := set_password password (set_email email cookie_data) in
            browser_stop b >> ret (Some cookie_data)
      end
  end.

Fixpoint register_loop (headless : bool) (retries : nat) : M (option cookie_data) :=
  match retries with
  | O => ret None
  | S n =>
      let* r := register_attempt headless in
      match r with
      | Some data => ret (Some data)
      | None => register_loop headless n
      end
  end.

Definition max_retries : nat := 3.

(** [register_new_account(clash_manager, headless)]. *)
Definition register_new_account (headless : bool) : M (option cookie_data) :=
  let* node := find_healthy_node in
  match node with
  | None => ret None
  | Some _ => register_loop headless max_retries
  end.

(** [register_single_account(clash_manager)]: the same pipeline, with
    [headless=False]. *)
Definition register_single_account : M (option cookie_data) :=
  register_new_account false.

(** *** Refresh *)

(** The body of the [try] of [process_existing_account]; [finally] is in
    the caller. *)
Definition process_try (m b : nat) (email password : string) : M bool :=
  let* started := browser_start b in
  if negb started then ret false else
  let* _ := mail_clear_inbox m in
  let* ok := browser_login b email password in
  if negb ok then ret false else
  let* code := mail_wait_for_code m 30 in
  match code with
  | None => ret false
  | Some code =>
      let* ok := browser_enter_verification_code b code in
      if negb ok then ret false else
      let* ok := browser_wait_for_login_complete b 60 in
      if negb ok then ret false else
      let* cookie_data := browser_extract_cookies b in
      if negb (PyStr.truthy (secure_c_ses cookie_data)) then ret false else
      let cookie_data := set_email email cookie_data in
      update_accounts_json email cookie_data
  end.

(** [process_existing_account(account, clash_manager, headless, proxy_node)]
    with [account = {"email": email, "password": password}]. *)
Definition process_existing_account (email password : string)
    (headless : bool) (proxy_node : option string) : M bool :=
  if negb (PyStr.truthy email) then ret false else
  let* node :=
    match proxy_node with
    | Some n =>
        if PyStr.truthy n then
          let* ok := switch_node n in ret (if ok then Some n else None)
        else find_healthy_node
    | None => find_healthy_node
    end in
  match node with
  | None => ret false
  | Some _ =>
      let* m := new_mail_client in
      let* _ := emit (SetCredentials m email password) in
      let* b := new_browser headless in
      let* r := process_try m b email password in
      browser_stop b >> ret r
  end.

(** The body of the [try] of [refresh_single_account]. *)
Definition refresh_try (m b : nat) (email password : string) : M (option cookie_data) :=
  let* started := browser_start b in
  if negb started then ret None else
  let* ok := browser_login b email password in
  if negb ok then ret None else
  let* code := mail_wait_for_code m 30 in
  match code with
  | None => ret None
  | Some code =>
      let* ok := browser_enter_verification_code b code in
      if negb ok then ret None else
      let* ok := browser_wait_for_login_complete b 60 in
      if negb ok then ret None else
      let* cookie_data := browser_extract_cookies b in
      if negb (PyStr.truthy (secure_c_ses cookie_data)) then ret None else
      ret (Some (set_password password (set_email email cookie_data)))
  end.

(** [refresh_single_account(clash_manager, email, password)]. *)
Definition refresh_single_account (email password : string) : M (option cookie_data) :=
  let* node := find_healthy_node in
  match node with
  | None => ret None
  | Some _ =>
      let* m := new_mail_client in
      let* ok := mail_login_existing m email password in
      if negb ok then ret None else
      let* b := new_browser false in
      let* r := refresh_try m b email password in
      browser_stop b >> ret r
  end.

(** *** The callers that persist the result *)

(** The email under which [update_accounts_json(path, result["email"],
    result)] files a result. *)
Definition result_email (r : cookie_data) : string := default "" (cd_email r).
Definition result_password (r : cookie_data) : string := default "" (cd_password r).

(** The register branch of [main_async]: [for i in range(count)].  The
    result is the pair [(success_count, fail_count)], or [None] when
    [update_accounts_json] raised, which ends [main_async]. *)
Fixpoint main_register (headless : bool) (count : nat) (success fail : nat)
    : M (option (nat * nat)) :=
  match count with
  | O => ret (Some (success, fail))
  | S rest =>
      let* result := register_new_account headless in
      let* step :=
        match result with
        | Some r =>
            let* written := update_accounts_json (result_email r) r in
            if negb written then ret None else
            append_to_csv (result_email r) (result_password r) >>
            ret (Some (S success, fail))
        | None => ret (Some (success, S fail))
        end in
      match step with
      | None => ret None
      | Some (success, fail) =>
          (match rest with
           | O => ret tt
           | S _ => emit (Sleep 3)
           end) >>
          main_register headless rest success fail
      end
  end.

(** The refresh branch of [main_async]: [for account in accounts], with the
    emails already present in accounts.json skipped. *)
Fixpoint main_refresh_loop (headless : bool) (proxy_node : option string)
    (existing : list string) (accounts : list (string * string))
    (success fail : nat) : M (nat * nat) :=
  match accounts with
  | [] => ret (success, fail)
  | (email, password) :: rest =>
      if existsb (String.eqb email) existing
      then main_refresh_loop headless proxy_node existing rest success fail
      else
        let* ok := process_existing_account email password headless proxy_node in
        if ok
        then main_refresh_loop headless proxy_node existing rest (S success) fail
        else main_refresh_loop headless proxy_node existing rest success (S fail)
  end.

Definition existing_emails (accounts : list Utils.account) : list string :=
  omap (fun a => match Utils.acc_email a with
                 | Some e => if PyStr.truthy e then Some e else None
                 | None => None
                 end) accounts.

Definition main_refresh (headless : bool) (proxy_node : option string)
    (accounts : list (string * string)) : M (nat * nat) :=
  fun w =>
    main_refresh_loop headless proxy_node (existing_emails (w_accounts w))
                      accounts 0 0 w.

Inductive TaskStatus := PENDING | RUNNING | SUCCESS | FAILED.

(** [run_register_task(task_id, count)]: the final status and the
    [results] list. *)
Fixpoint run_register_loop (count : nat) (results : list cookie_data)
    : M (TaskStatus * list cookie_data) :=
  match count with
  | O => ret (SUCCESS, results)
  | S rest =>
      let* result := register_single_account in
      let* step :=
        match result with
        | Some r =>
            let* written := update_accounts_json (result_email r) r in
            if negb written then ret None else
            append_to_csv (result_email r) (result_password r) >>
            ret (Some (results ++ [r]))
        | None => ret (Some results)
        end in
      match step with
      | None => ret (FAILED, results)
      | Some results =>
          (match rest with
           | O => ret tt
           | S _ => emit (Sleep 3)
           end) >>
          run_register_loop rest results
      end
  end.

Definition run_register_task (count : nat) : M (TaskStatus * list cookie_data) :=
  run_register_loop count [].

(** [run_refresh_task(task_id, email, password)]: the final status and
    [task.result]. *)
Definition run_refresh_task (email password : string)
    : M (TaskStatus * option cookie_data) :=
  let* result := refresh_single_account email password in
  match result with
  | Some r =>
      let* written := update_accounts_json email r in
      ret (if written then SUCCESS else FAILED, Some r)
  | None => ret (FAILED, None)
  end.

End Paths.

(** Projections of a trace. *)
Definition is_register (e : event) : bool :=
  match e with Register _ => true | _ => false end.
Definition is_new_mail (e : event) : bool :=
  match e with NewMailClient _ => true | _ => false end.
Definition is_new_browser (e : event) : bool :=
  match e with NewBrowser _ _ => true | _ => false end.
Definition is_start (e : event) : bool :=
  match e with Start _ => true | _ => false end.
Definition is_login (e : event) : bool :=
  match e with Login _ _ _ => true | _ => false end.
Definition is_clear_inbox (e : event) : bool :=
  match e with ClearInbox _ => true | _ => false end.
Definition is_binding (e : event) : bool :=
  match e with SetCredentials _ _ _ | LoginExisting _ _ _ => true | _ => false end.

Fixpoint count (p : event -> bool) (t : list event) : nat :=
  match t with
  | [] => 0
  | e :: t' => (if p e then 1 else 0) + count p t'
  end.

(** The bundles handed to [update_accounts_json]. *)
Definition stored (t : list event) : list cookie_data :=
  omap (fun e => match e with UpdateAccountsJson _ d => Some d | _ => None end) t.

End Orchestrator.

(** ** The vocabulary of the statements

    The predicates and functions in which the properties of Part II and
    Part III are stated, module by module, and the concrete inputs on which
    they are exercised. *)
Module UtilsSpec.
Import DateTime Utils.

(** Where [update_accounts_json] puts its record: over the first record
    with that email, or at the end. *)
Definition target_index (email : string) (accounts : list account) : nat :=
  default (length accounts) (find_existing_idx email accounts).

(** The default expiry of [update_accounts_json]: the day field of the
    current date plus seven, every other field kept. *)
Definition day_plus_7 (now : datetime) : datetime :=
  mkDT (year now) (month now) (day now + 7) (hour now) (minute now) (second now).

End UtilsSpec.

Module BrowserSpec.
Import DateTime Browser.

(** A URL that shows a logged-in keyword, and one that shows a failure
    keyword. *)
Definition logged_in (u : string) : bool := PyStr.any_contains LOGGED_IN_KEYWORDS u.
Definition failed (u : string) : bool := PyStr.any_contains FAIL_KEYWORDS u.

(** The wait in the specification's words, where a failure keyword ends
    it at once: at each of the ten reads a logged-in keyword returns true,
    a failure keyword returns false, and when neither ever shows the result
    is true. *)
Fixpoint wait_navigation_as_stated (url : nat -> string) (k n : nat) : bool * nat :=
  match n with
  | O => (true, k)
  | S n' =>
      if logged_in (url k) then (true, S k)
      else if failed (url k) then (false, S k)
      else wait_navigation_as_stated url (S k) n'
  end.

End BrowserSpec.

Module MailSpec.
Import Mail.
Local Open Scope nat_scope.

(** The last character before a position: the last one of [w], or what
    came before [w] when [w] is empty. *)
Fixpoint last_of (prev : option N) (w : text) : option N :=
  match w with
  | [] => prev
  | c :: w' => last_of (Some c) w'
  end.

(** [Matches db r prev w rest]: the pattern [r] matches exactly the
    characters [w], found after the character [prev] and before the
    characters [rest]. *)
Inductive Matches (db : unicode_db) : regex -> option N -> text -> text -> Prop :=
| MEps prev rest : Matches db Eps prev [] rest
| MChr p c prev rest : p c = true -> Matches db (Chr p) prev [c] rest
| MSeq r1 r2 prev w1 w2 rest :
    Matches db r1 prev w1 (w2 ++ rest) ->
    Matches db r2 (last_of prev w1) w2 rest ->
    Matches db (Seq r1 r2) prev (w1 ++ w2) rest
| MAltL r1 r2 prev w rest : Matches db r1 prev w rest -> Matches db (Alt r1 r2) prev w rest
| MAltR r1 r2 prev w rest : Matches db r2 prev w rest -> Matches db (Alt r1 r2) prev w rest
| MStar g p prev w rest : forallb p w = true -> Matches db (Star g p) prev w rest
| MRepeat p lo hi prev w rest :
    forallb p w = true -> lo <= length w <= hi ->
    Matches db (Repeat p lo hi) prev w rest
| MBoundary prev rest :
    at_boundary db prev rest = true -> Matches db WordBoundary prev [] rest.

(** [w] spells the pattern word [L], case ignored. *)
Definition same_ignorecase (L w : text) : Prop :=
  Forall2 (fun p c => lit_ignorecase p c = true) L w.

(** One of 验证码, code, verification, passcode, pin. *)
Definition is_label (w : text) : Prop :=
  Exists (fun L => same_ignorecase L w) LABELS.

(** A labelled code in [body]: a label, any characters, a colon, optional
    white space, then the token [t] of four to eight letters or digits,
    ending at a word boundary. *)
Definition labelled_token (db : unicode_db) (body t : text) : Prop :=
  exists before label gap colon ws after,
    body = before ++ label ++ gap ++ colon :: ws ++ t ++ after /\
    is_label label /\ colon_char colon = true /\ forallb is_space ws = true /\
    forallb token_char t = true /\ 4 <= length t <= 8 /\
    at_boundary db (last_of None t) after = true.

(** A standalone six-digit number: six decimal digits [d] with a word
    boundary on either side, found after [before] and followed by [after]. *)
Definition standalone_six (db : unicode_db) (before d after : text) : Prop :=
  length d = 6 /\ forallb (is_digit db) d = true /\
  at_boundary db (last_of None before) (d ++ after) = true /\
  at_boundary db (last_of None d) after = true.

(** [d] is the first standalone six-digit number of [body]. *)
Definition first_standalone_six (db : unicode_db) (body d : text) : Prop :=
  exists before after,
    body = before ++ d ++ after /\ standalone_six db before d after /\
    forall b1 b2 d' after', b1 ++ b2 = before -> b2 <> [] ->
      b2 ++ d ++ after = d' ++ after' -> ~ standalone_six db b1 d' after'.

End MailSpec.

Module ClashSpec.
Import Clash.





End ClashSpec.

Module OrchestratorSpec.
Import Orchestrator.
Local Open Scope nat_scope.

(** [triple P m Q]: run from a world satisfying [P], the computation [m]
    ends with a result and a world satisfying [Q]. *)
Definition triple {A} (P : world -> Prop) (m : M A) (Q : A -> world -> Prop) : Prop :=
  forall w, P w -> Q (m w).1 (m w).2.

(** An event that is not a write, or a write of a bundle with a session
    cookie. *)
Definition ok_event (e : event) : Prop :=
  match e with
  | UpdateAccountsJson _ d => PyStr.truthy (secure_c_ses d) = true
  | _ => True
  end.

(** Every bundle handed to [update_accounts_json] so far carried a
    non-empty [secure_c_ses]. *)
Definition safe (w : world) : Prop := Forall ok_event (w_trace w).

(** The computation keeps [safe] and its result satisfies [Q]. *)
Definition keeps {A} (m : M A) (Q : A -> Prop) : Prop :=
  triple safe m (fun a w => safe w /\ Q a).

(** A returned bundle, if any, has a session cookie. *)
Definition has_session (r : option cookie_data) : Prop :=
  forall d, r = Some d -> PyStr.truthy (secure_c_ses d) = true.

(** The steps of one attempt before the extraction all succeed: the
    browser starts, [login] returns true, a code arrives, the code is
    accepted and the login completes. *)
Definition steps_ok (E : env) (m b : nat) : bool :=
  b_start (e_browser E b) && b_login (e_browser E b) &&
  match m_wait_for_code (e_mail E m) with
  | Some c => PyStr.truthy c && b_enter_verification_code (e_browser E b) c
  | None => false
  end &&
  b_wait_for_login_complete (e_browser E b).

(** The bundle the [b]-th browser session extracts. *)
Definition extracted (E : env) (b : nat) : cookie_data :=
  b_extract_cookies (e_browser E b).

(** Does [update_accounts_json] return, called now on this world? *)
Definition write_completes (E : env) (w : world) (email : string) (d : cookie_data) : bool :=
  match Utils.update_accounts_json (e_now E (w_writes w)) (w_accounts w) email d with
  | Some _ => true
  | None => false
  end.

(** One failed attempt in which the mailbox registers, the browser starts
    and [login] returns false. *)
Definition failed_login_attempt (h : bool) (m b : nat) (email password : string)
    : list event :=
  [NewMailClient m; Register m; NewBrowser b h; Start b;
   Login b email password; Stop b].

End OrchestratorSpec.

Module Samples.
Import DateTime Browser Mail Clash Orchestrator.

(** A complete bundle, as [extract_cookies] builds it. *)
Definition sample_bundle : cookie_data :=
  mkCookieData "CAESxyz" "1234567" "cfg-1" "oses" "2025-01-20 20:00:00" None None.

(** A library stand-in that answers for one fixed URL. *)
Definition sample_urllib : urllib :=
  mkUrllib (fun _ => "/home/cid/9f3c")
           (fun _ key => if String.eqb key "csesidx" then Some "1234567" else None).

(** A session that has reached the home page and holds [cookies]. *)
Definition sample_page (cookies : list cookie) : page :=
  mkPage (fun _ => "https://business.gemini.google/home/cid/9f3c?csesidx=1234567")
         (Some cookies) (fun _ => true) true.

(** A session that sits on the verification page for two reads and then
    reaches the home page. *)
Definition slow_redirect : page :=
  mkPage (fun k => if (k <? 2)%nat
                   then "https://accountverification.business.gemini.google/v1/verify-oob-code"
                   else "https://business.gemini.google/home/cid/9f3c?csesidx=1234567")
         (Some []) (fun _ => true) true.

(** The Unicode properties of the CJK ideographs, enough for the bodies
    below. *)
Definition sample_unicode : unicode_db :=
  mkUnicodeDb (fun c => (19968 <=? c)%N && (c <=? 40959)%N) (fun _ => false).


(** An environment in which every mailbox registers, every browser starts,
    a healthy node is always found, and [login] always returns false. *)
Definition login_always_false : env :=
  mkEnv (fun _ => Some "jp-03") (fun _ => true)
        (fun m => mkMail (Some ("t" ++ PyStr.of_nat m ++ "@virgilian.com", "Pwd"))%string
                         true (Some "482193"))
        (fun _ => mkBrowser true false (fun _ => true) true sample_bundle)
        (fun _ => mkDT 2025 1 10 8 0 0).

(** A bundle with the session cookie and nothing else. *)
Definition bare_session : cookie_data :=
  mkCookieData "CAESxyz" "" "" "" "" None None.

(** An environment in which every step succeeds and the extraction yields
    [bare_session]. *)
Definition only_session_cookie : env :=
  mkEnv (fun _ => Some "jp-03") (fun _ => true)
        (fun _ => mkMail (Some ("t1234abc@virgilian.com", "Pwdabc1234")) true
                         (Some "482193"))
        (fun _ => mkBrowser true true (fun _ => true) true bare_session)
        (fun _ => mkDT 2025 1 10 8 0 0).

End Samples.

(** ** src/clash_manager.py: the pinned node and the runtime configuration *)
Module ClashManager.
Import Clash.

(** [group_info.get("type") == "Selector"]. *)
Definition is_selector (info : proxy_info) : bool :=
  match p_type info with
  | Some t => String.eqb t "Selector"
  | None => false
  end.

(** The search of [switch_node]: the first group, in the order of the
    dict, that is a ["Selector"] and lists [proxy_name]. *)
Fixpoint selector_of (proxy_name : string) (proxies : proxies_dict) : option string :=
  match proxies with
  | [] => None
  | (group_name, group_info) :: rest =>
      if is_selector group_info && existsb (String.eqb proxy_name) (p_all group_info)
      then Some group_name
      else selector_of proxy_name rest
  end.

(** [switch_node(proxy_name)], with the requests it sends. *)
Definition switch_node (env : clash_env) (proxy_name : string) : bool * list request :=
  match selector_of proxy_name (get_proxies env) with
  | Some group_name =>
      (select_proxy env group_name proxy_name, [ReqSelect group_name proxy_name])
  | None => (false, [])
  end.

(** The keys of the YAML configuration that [_prepare_config] reads or
    writes; every other key is copied as it is.  [cfg_proxies] holds, for
    each entry of ["proxies"], its ["name"] if it has one; a missing
    ["proxies"] key is the empty list.  For ["proxy-groups"] and
    ["rules"], [None] is a missing key or a null value; a group is its
    name and the names it lists.  The controller address is either the
    text ["127.0.0.1:<port>"], kept as the port, or some other text. *)
Inductive controller := Local (api_port : Z) | Other (address : string).

Record config := mkConfig {
  cfg_mixed_port : option Z;
  cfg_external_controller : option controller;
  cfg_mode : option string;
  cfg_log_level : option string;
  cfg_proxies : list (option string);
  cfg_proxy_groups : option (list (string * list string));
  cfg_rules : option (list string)
}.

Definition AUTO_GROUP : string := "🚀 节点选择".
Definition AUTO_RULE : string := "MATCH,🚀 节点选择".

(** ["k" not in cfg or not cfg["k"]] for a list-valued key. *)
Definition absent {A} (v : option (list A)) : bool :=
  match v with
  | None | Some [] => true
  | Some (_ :: _) => false
  end.

(** [[p["name"] for p in proxies if "name" in p]]. *)
Definition proxy_names (cfg : config) : list string := omap id (cfg_proxies cfg).

(** [_prepare_config()]: the configuration written to the runtime file,
    for a manager made with [port] and [api_port]. *)
Definition _prepare_config (port api_port : Z) (cfg : config) : config :=
  let proxy_groups :=
    if absent (cfg_proxy_groups cfg) then
      match proxy_names cfg with
      | [] => cfg_proxy_groups cfg
      | _ :: _ => Some [(AUTO_GROUP, proxy_names cfg)]
      end
    else cfg_proxy_groups cfg in
  let rules :=
    if absent (cfg_rules cfg) then Some [AUTO_RULE] else cfg_rules cfg in
  mkConfig (Some port) (Some (Local api_port)) (Some "rule") (Some "info")
           (cfg_proxies cfg) proxy_groups rules.

(** The names of the groups of a configuration. *)
Definition group_names (cfg : config) : list string :=
  map fst (default [] (cfg_proxy_groups cfg)).

End ClashManager.

(** ** src/utils.py: the CSV file of the accounts *)
Module Csv.

(** The file as [csv.reader] yields it: one list of cells for each line,
    the empty list for a blank line. *)
Definition row := list string.
Definition csv_file := list row.

(** The two methods of [str] that [append_to_csv] calls on the ID cells:
    [s.isdigit()], and [int(s)] for a string of digits ([None] is the
    [ValueError] raised for digits that are not decimal digits). *)
Record py_digits := mkPyDigits {
  isdigit : string -> bool;
  int_of : string -> option nat
}.

(** [csv.DictReader]: the first line of the file gives the field names,
    the blank lines after it are skipped. *)
Definition fieldnames (file : csv_file) : row := default [] (head file).

Definition records (file : csv_file) : list row :=
  List.filter (fun r => match r with [] => false | _ :: _ => true end) (tail file).

(** The entry for [key] of the dict that DictReader builds from a line:
    [None] when no field has this name, [Some None] when the line is too
    short for the field (the [restval]); of two fields with the same name
    the later one counts. *)
Fixpoint get_cell (key : string) (names cells : row) : option (option string) :=
  match names with
  | [] => None
  | n :: names' =>
      match get_cell key names' (tail cells) with
      | Some v => Some v
      | None => if String.eqb n key then Some (head cells) else None
      end
  end.

(** [row.get(key, "")]; [None] is Python's [None]. *)
Definition get_or_empty (key : string) (names cells : row) : option string :=
  match get_cell key names cells with
  | Some v => v
  | None => Some EmptyString
  end.

(** [[int(row.get("ID", 0)) for row in rows if row.get("ID", "").isdigit()]];
    [None] when it raises ([isdigit] on [None], or [int] on digits that it
    does not read). *)
Fixpoint valid_ids (py : py_digits) (names : row) (rows : list row) : option (list nat) :=
  match rows with
  | [] => Some []
  | r :: rest =>
      match get_or_empty "ID" names r with
      | None => None
      | Some s =>
          if isdigit py s then
            match int_of py s with
            | None => None
            | Some n => option_map (cons n) (valid_ids py names rest)
            end
          else valid_ids py names rest
      end
  end.

(** [max(valid_ids) if valid_ids else 0]. *)
Definition max_id (ids : list nat) : nat := foldr Nat.max 0%nat ids.

Definition HEADER : row := ["ID"; "Account"; "Password"; "Date"].

(** The line [append_to_csv] writes. *)
Definition new_row (next_id : nat) (email password today : string) : row :=
  [PyStr.of_nat next_id; email; password; today].

(** [append_to_csv(csv_path, email, password)] on a file that does not
    exist ([None]) or holds [file], on the day [today]: what it returns and
    the file afterwards.  An exception is caught by the function, which
    then returns [False] with nothing written. *)
Definition append_to_csv (py : py_digits) (file : option csv_file)
    (email password today : string) : bool * option csv_file :=
  match file with
  | None => (true, Some [HEADER; new_row 1 email password today])
  | Some lines =>
      match valid_ids py (fieldnames lines) (records lines) with
      | None => (false, file)
      | Some ids =>
          let next_id :=
            match records lines with
            | [] => 1%nat
            | _ :: _ => (max_id ids + 1)%nat
            end in
          (true, Some (lines ++ [new_row next_id email password today]))
      end
  end.

(** One account as [read_csv_accounts] returns it: the values under
    ["id"], ["email"], ["password"] and ["date"]. *)
Record csv_account := mkCsvAccount {
  ca_id : option string;
  ca_email : option string;
  ca_password : option string;
  ca_date : option string
}.

(** [read_csv_accounts(csv_path)]. *)
Definition read_csv_accounts (file : csv_file) : list csv_account :=
  map (fun r => mkCsvAccount (get_or_empty "ID" (fieldnames file) r)
                             (get_or_empty "Account" (fieldnames file) r)
                             (get_or_empty "Password" (fieldnames file) r)
                             (get_or_empty "Date" (fieldnames file) r))
      (records file).

(** The registrations of a run, appended one after the other; the file of
    the last append that succeeded is kept. *)
Fixpoint append_all (py : py_digits) (file : option csv_file)
    (accounts : list (string * string * string)) : option csv_file :=
  match accounts with
  | [] => file
  | (email, password, today) :: rest =>
      append_all py (append_to_csv py file email password today).2 rest
  end.

End Csv.

(** ** src/browser_controller.py: the navigation of [login] *)
Module BrowserLogin.

(** What one [page.goto] does: the page loads, or the call raises with a
    message. *)
Inductive goto_outcome :=
| Loaded
| Failed (error_msg : string).

(** ["net::ERR_CONNECTION_CLOSED" in error_msg or
     "net::ERR_CONNECTION_RESET" in error_msg]. *)
Definition connection_error (error_msg : string) : bool :=
  PyStr.contains "net::ERR_CONNECTION_CLOSED" error_msg ||
  PyStr.contains "net::ERR_CONNECTION_RESET" error_msg.

(** The [for attempt in range(max_retries)] loop of [login] around
    [page.goto], from the [k]-th call on with [n] rounds left.  The result
    tells whether the loop was left with the page loaded ([false]: an
    exception leaves [login], which then returns [False]), and comes with
    the number of calls of [goto] made. *)
Fixpoint navigate (goto : nat -> goto_outcome) (k n : nat) : bool * nat :=
  match n with
  | O => (false, k)
  | S n' =>
      match goto k with
      | Loaded => (true, S k)
      | Failed error_msg =>
          if connection_error error_msg then
            match n' with
            | O => (false, S k)
            | S _ => navigate goto (S k) n'
            end
          else (false, S k)
      end
  end.

Definition max_retries : nat := 3.

(** A failure after which [login] tries again. *)
Definition retried (o : goto_outcome) : bool :=
  match o with
  | Loaded => false
  | Failed error_msg => connection_error error_msg
  end.

End BrowserLogin.

(** ** src/mail_client.py: the mailbox *)
Module MailBox.
Import Mail.

(** What [data.get(key)] gives for a key of a JSON object: nothing, a
    string, or a value of another type, of which only the truthiness
    matters. *)
Inductive field :=
| Missing
| Text (t : text)
| NotText (truthy : bool).

Definition field_truthy (f : field) : bool :=
  match f with
  | Missing => false
  | Text [] => false
  | Text (_ :: _) => true
  | NotText b => b
  end.

(** [data.get('text') or data.get('html') or ""]. *)
Definition content (text_field html_field : field) : field :=
  if field_truthy text_field then text_field
  else if field_truthy html_field then html_field
  else Text [].

(** One message of the list: its ['id'], if it has one, and the two
    fields of the JSON object that [GET /messages/<id>] returns ([None]
    when that request, or decoding its body, raises). *)
Record message := mkMessage {
  msg_id : option string;
  msg_detail : option (field * field)
}.

(** The answer to [GET /messages]: an exception (of the request or of
    reading the body), or a status code with the list ['hydra:member']. *)
Inductive inbox :=
| Unreachable
| Listing (status : Z) (msgs : list message).

(** One round of the loop of [wait_for_code]: the code it returns, if it
    returns one.  Every exception inside the round is caught and the round
    yields nothing. *)
Definition examine (db : unicode_db) (box : inbox) : option text :=
  match box with
  | Unreachable => None
  | Listing status msgs =>
      if status =? 200 then
        match msgs with
        | [] => None
        | m :: _ =>
            match msg_id m, msg_detail m with
            | Some _, Some (text_field, html_field) =>
                match content text_field html_field with
                | Text body =>
                    match _extract_code db body with
                    | Some (c :: code) => Some (c :: code)
                    | _ => None
                    end
                | _ => None
                end
            | _, _ => None
            end
        end
      else None
  end.



(** [s[-4:]]. *)
Definition last4 (s : string) : string :=
  String.substring (String.length s - 4) 4 s.

(** The address and the password [register()] makes up, from
    [str(int(time.time()))], the ten random characters and the domain. *)
Definition new_identity (epoch rand_str domain : string) : string * string :=
  let timestamp := last4 epoch in
  (("t" ++ timestamp ++ rand_str ++ "@" ++ domain)%string,
   ("Pwd" ++ rand_str ++ timestamp)%string).

End MailBox.

(** ** src/data_pusher.py *)
Module DataPusher.

(** What one [requests.post] does: it returns a response with a status
    code, or raises [Timeout], another [RequestException], or an exception
    outside that family (which [push] does not catch). *)
Inductive post_outcome :=
| Response (status : Z)
| Timeout
| RequestError
| Uncaught.

(** [response.status_code in (200, 201, 204)]. *)
Definition accepted_status (status : Z) : bool :=
  (status =? 200) || (status =? 201) || (status =? 204).

(** The [for attempt in range(self.retry_count)] loop, from the [k]-th
    request on with [n] rounds left.  The result is what [push] returns
    ([None] when an exception leaves it) and the number of requests sent. *)
Fixpoint push_loop (post : nat -> post_outcome) (k n : nat) : option bool * nat :=
  match n with
  | O => (Some false, k)
  | S n' =>
      match post k with
      | Response status =>
          if accepted_status status then (Some true, S k)
          else push_loop post (S k) n'
      | Timeout | RequestError => push_loop post (S k) n'
      | Uncaught => (None, S k)
      end
  end.

(** [DataPusher(target_url, timeout, retry_count).push(data)]. *)
Definition push (target_url : string) (retry_count : Z) (post : nat -> post_outcome)
    : option bool * nat :=
  if negb (PyStr.truthy target_url) then (Some false, 0%nat)
  else push_loop post 0 (Z.to_nat retry_count).

(** [push_from_file(json_path)] on a file holding [n_records] records. *)
Definition push_from_file (target_url : string) (retry_count : Z)
    (post : nat -> post_outcome) (n_records : nat) : option bool * nat :=
  match n_records with
  | O => (Some false, 0%nat)
  | S _ => push target_url retry_count post
  end.

(** A request that [push] takes for a failure and goes on from. *)
Definition retried (o : post_outcome) : bool :=
  match o with
  | Response status => negb (accepted_status status)
  | Timeout | RequestError => true
  | Uncaught => false
  end.

Definition succeeded (o : post_outcome) : bool :=
  match o with
  | Response status => accepted_status status
  | _ => false
  end.

End DataPusher.

(** ** src/api_server.py: the task store and its endpoints *)
Module ApiTasks.
Import DateTime Orchestrator.

(** The [progress] dict of a task; ["current"] is present only while
    [run_register_task] is at work. *)
Record progress_info := mkProgress {
  total : Z;
  completed : Z;
  success : Z;
  failed : Z;
  current : option string
}.

(** The [result] of a task: the dict [run_register_task] builds, or the
    bundle [run_refresh_task] stores. *)
Inductive task_result :=
| Accounts (accounts : list cookie_data) (success_count fail_count : nat)
| Cookies (d : cookie_data).

Record TaskInfo := mkTaskInfo {
  task_id : string;
  status : TaskStatus;
  created_at : string;
  completed_at : option string;
  result : option task_result;
  error : option string;
  progress : option progress_info
}.

(** The dict [tasks], in the order of its keys: a key that is new goes to
    the end, a key that is present keeps its place. *)
Definition task_store := list (string * TaskInfo).

(** [tasks[k] = v]. *)
Fixpoint set_item (k : string) (v : TaskInfo) (tasks : task_store) : task_store :=
  match tasks with
  | [] => [(k, v)]
  | (k', v') :: rest =>
      if String.eqb k' k then (k, v) :: rest else (k', v') :: set_item k v rest
  end.

(** [tasks[k]], [None] when [k not in tasks]. *)
Fixpoint get_item (k : string) (tasks : task_store) : option TaskInfo :=
  match tasks with
  | [] => None
  | (k', v') :: rest => if String.eqb k' k then Some v' else get_item k rest
  end.

(** [tasks.values()]. *)
Definition values (tasks : task_store) : list TaskInfo := map snd tasks.

(** [str(uuid.uuid4())[:8]]. *)
Definition short_id (uuid4 : string) : string := String.substring 0 8 uuid4.

(** [POST /api/register] with the request's [count], at the time [now],
    [uuid4] being the text of the UUID drawn: the task id of the answer and
    the store afterwards. *)
Definition register_accounts (uuid4 : string) (now : datetime) (count : Z)
    (tasks : task_store) : string * task_store :=
  let id := short_id uuid4 in
  let task := mkTaskInfo id PENDING (strftime now) None None None
                (Some (mkProgress count 0 0 0 None)) in
  (id, set_item id task tasks).

(** [POST /api/refresh]. *)
Definition refresh_account (uuid4 : string) (now : datetime)
    (tasks : task_store) : string * task_store :=
  let id := short_id uuid4 in
  let task := mkTaskInfo id PENDING (strftime now) None None None None in
  (id, set_item id task tasks).

(** [GET /api/status/{task_id}]; [None] is the answer 404. *)
Definition get_task_status (id : string) (tasks : task_store) : option TaskInfo :=
  get_item id tasks.

(** [a.created_at > b.created_at], on strings. *)
Definition newer (a b : TaskInfo) : bool := String.ltb (created_at b) (created_at a).

(** [sorted(tasks.values(), key=lambda t: t.created_at, reverse=True)].
    [sorted] is stable, also with [reverse=True]: tasks with the same
    [created_at] stay in the order of the dict.  The list is built from
    its end; a task goes in front of the first task that is not newer. *)
Fixpoint insert_task (t : TaskInfo) (l : list TaskInfo) : list TaskInfo :=
  match l with
  | [] => [t]
  | u :: l' => if newer u t then u :: insert_task t l' else t :: u :: l'
  end.

Definition sorted_tasks (l : list TaskInfo) : list TaskInfo :=
  foldr insert_task [] l.

(** [l[:limit]]: a negative [limit] counts from the end. *)
Definition slice_to {A} (limit : Z) (l : list A) : list A :=
  if 0 <=? limit then take (Z.to_nat limit) l
  else take (length l - Z.to_nat (- limit)) l.

(** [GET /api/tasks?limit=...]. *)
Definition list_tasks (limit : Z) (tasks : task_store) : list TaskInfo :=
  slice_to limit (sorted_tasks (values tasks)).

End ApiTasks.

(** ** The vocabulary of the further properties *)
Module StoreSpec.
Import DateTime Utils.

(** The emails of the records of accounts.json, in file order; records
    without an email are left out. *)
Definition emails (accounts : list account) : list string :=
  omap acc_email accounts.

(** The id given to the [n]-th record of the file when it is added. *)
Definition nth_id (n : nat) : string := ("account_" ++ PyStr.of_nat n)%string.

(** The records carry the ids account_1, account_2, ... in file order. *)
Definition numbered (accounts : list account) : Prop :=
  forall i a, accounts !! i = Some a -> acc_id a = Some (nth_id (S i)).

(** A file as the tool itself leaves it: numbered records, one record per
    email, every record with an email and a session cookie. *)
Definition well_formed (accounts : list account) : Prop :=
  numbered accounts /\ NoDup (emails accounts) /\
  Forall (fun a => is_Some (acc_email a) /\
                   PyStr.truthy (acc_secure_c_ses a) = true) accounts.

End StoreSpec.

Module CsvSpec.
Import Csv.


(** A file as [append_to_csv] builds it: the header, then lines of four
    cells. *)
Definition well_headed (file : csv_file) : Prop :=
  exists lines, file = HEADER :: lines /\
    Forall (fun r => exists a b c d, r = [a; b; c; d]) lines.




(** ASCII digits, read in base ten. *)
Definition ascii_digits : py_digits :=
  mkPyDigits
    (fun s => match s with
              | EmptyString => false
              | _ => forallb (fun c => (48 <=? nat_of_ascii c)%nat &&
                                       (nat_of_ascii c <=? 57)%nat)
                             (list_ascii_of_string s)
              end)
    (fun s => option_map Nat.of_uint (NilZero.uint_of_string s)).

End CsvSpec.

Module ApiTasksSpec.
Import ApiTasks.

(** The tasks of a list that were created at the moment [stamp]. *)
Definition created_on (stamp : string) (l : list TaskInfo) : list TaskInfo :=
  List.filter (fun t => String.eqb (created_at t) stamp) l.

(** No task of the list is created later than one before it. *)
Definition newest_first (l : list TaskInfo) : Prop :=
  forall i j a b, (i < j)%nat -> l !! i = Some a -> l !! j = Some b ->
    newer b a = false.

(** The same, element by element: no task is created later than the
    head, and so on down the list. *)
Fixpoint descending (l : list TaskInfo) : Prop :=
  match l with
  | [] => True
  | a :: l' => Forall (fun b => newer b a = false) l' /\ descending l'
  end.

(** Every key of the store is the id of its task, and no key occurs
    twice: a store as the endpoints build it from the empty dict. *)
Definition keyed (tasks : task_store) : Prop :=
  NoDup (map fst tasks) /\ Forall (fun kv => task_id kv.2 = kv.1) tasks.

(** What creating a task under [id] at the time [now] does to the store:
    the status endpoint shows a pending task of that id and time, with
    nothing else set; under every other id it shows what it showed before;
    the store has grown by one task unless it held one with this id. *)
Definition stored_pending (id : string) (now : DateTime.datetime)
    (before after : task_store) : Prop :=
  (exists t, get_task_status id after = Some t /\
     task_id t = id /\ status t = Orchestrator.PENDING /\
     created_at t = DateTime.strftime now /\
     completed_at t = None /\ result t = None /\ error t = None) /\
  (forall id', id' <> id -> get_task_status id' after = get_task_status id' before) /\
  length after = match get_task_status id before with
                 | Some _ => length before
                 | None => S (length before)
                 end.

End ApiTasksSpec.

Module MailBoxSpec.
Import Mail MailBox.

(** The password that goes with an address made by [register()]. *)
Definition password_of_address (address : string) : string :=
  ("Pwd" ++ String.substring 5 10 address ++ String.substring 1 4 address)%string.


End MailBoxSpec.
(** The acquisition paths seen from outside: invariants of the world, the
    life cycle of browser sessions, and what a run writes. *)
Module PathSpec.
Import Orchestrator OrchestratorSpec.

(** [m] maintains the invariant [Inv] of the world. *)
Definition maintains {A} (Inv : world -> Prop) (m : M A) : Prop :=
  triple Inv m (fun _ w => Inv w).

(** An invariant of the content of accounts.json. *)
Definition on_accounts (I : list Utils.account -> Prop) (w : world) : Prop :=
  I (w_accounts w).


(** A result as the callers file it: a bundle with a session cookie,
    stored under the email it carries. *)
Definition filed (email : string) (d : cookie_data) : Prop :=
  PyStr.truthy (secure_c_ses d) = true /\ cd_email d = Some email.

Definition filed_result (r : option cookie_data) : Prop :=
  forall d, r = Some d -> filed (result_email d) d.

(** *** The protocol of the two clients

    A monitor for the order in which the methods of [MailClient] and
    [BrowserController] are called.  It follows the mail client created
    last and the browser session that is open. *)

(** What the mail client is bound to: nothing yet, the address its
    [register()] made up, or the credentials it was given. *)
Inductive binding := Unbound | Registered | Bound (email password : string).

(** The stages of one [BrowserController]: each method is called on a
    session that went through the stage before it. *)
Inductive stage :=
  Created | Started | LoginCalled | CodeAwaited | CodeEntered | Completed | Extracted.

Definition stage_eqb (p q : stage) : bool :=
  match p, q with
  | Created, Created | Started, Started | LoginCalled, LoginCalled
  | CodeAwaited, CodeAwaited | CodeEntered, CodeEntered
  | Completed, Completed | Extracted, Extracted => true
  | _, _ => false
  end.

Record monitor := mkMonitor {
  mon_mail : option (nat * binding);
  mon_browser : option (nat * stage)
}.

Definition idle : monitor := mkMonitor None None.

(** The binding of client [m], when [m] is the client created last. *)
Definition on_mail (s : monitor) (m : nat) : option binding :=
  match mon_mail s with
  | Some (m', bd) => if Nat.eqb m m' then Some bd else None
  | None => None
  end.

(** The stage of session [b], when [b] is the open session. *)
Definition on_browser (s : monitor) (b : nat) : option stage :=
  match mon_browser s with
  | Some (b', p) => if Nat.eqb b b' then Some p else None
  | None => None
  end.

Definition closed (s : monitor) : bool :=
  match mon_browser s with None => true | Some _ => false end.

(** May the browser log in with [email] and [password], given what the
    mail client is bound to?  A registered client made its identity up
    itself; the trace does not show it. *)
Definition binds (bd : binding) (email password : string) : bool :=
  match bd with
  | Unbound => false
  | Registered => true
  | Bound e p => String.eqb e email && String.eqb p password
  end.

(** The session [b] moves from stage [from] to stage [to]. *)
Definition advance (s : monitor) (b : nat) (from to : stage) : option monitor :=
  match on_browser s b with
  | Some p => if stage_eqb p from then Some (mkMonitor (mon_mail s) (Some (b, to)))
              else None
  | None => None
  end.

Definition bind_mail (s : monitor) (m : nat) (bd : binding) : option monitor :=
  match on_mail s m with
  | Some Unbound => Some (mkMonitor (Some (m, bd)) (mon_browser s))
  | _ => None
  end.

(** One event against the monitor: [None] when the event breaks the
    protocol. *)
Definition monitor_step (s : monitor) (e : event) : option monitor :=
  match e with
  | FindHealthyNode | SwitchNode _ | AppendToCsv _ _ | Sleep _ =>
      if closed s then Some s else None
  | NewMailClient m =>
      if closed s then Some (mkMonitor (Some (m, Unbound)) None) else None
  | Register m => bind_mail s m Registered
  | SetCredentials m email password | LoginExisting m email password =>
      bind_mail s m (Bound email password)
  | NewBrowser b _ =>
      match mon_mail s with
      | Some (_, Unbound) | None => None
      | Some _ =>
          if closed s then Some (mkMonitor (mon_mail s) (Some (b, Created))) else None
      end
  | Start b => advance s b Created Started
  | ClearInbox m =>
      match on_mail s m, mon_browser s with
      | Some (Bound _ _), Some (_, Started) => Some s
      | _, _ => None
      end
  | Login b email password =>
      match mon_mail s with
      | Some (_, bd) =>
          if binds bd email password then advance s b Started LoginCalled else None
      | None => None
      end
  | WaitForCode m _ =>
      match on_mail s m, mon_browser s with
      | Some (Registered | Bound _ _), Some (b, LoginCalled) =>
          Some (mkMonitor (mon_mail s) (Some (b, CodeAwaited)))
      | _, _ => None
      end
  | EnterVerificationCode b _ => advance s b CodeAwaited CodeEntered
  | WaitForLoginComplete b _ => advance s b CodeEntered Completed
  | ExtractCookies b => advance s b Completed Extracted
  | Stop b =>
      match on_browser s b with
      | Some _ => Some (mkMonitor (mon_mail s) None)
      | None => None
      end
  | UpdateAccountsJson email d =>
      match cd_email d with
      | Some e =>
          if String.eqb e email &&
             match mon_browser s, mon_mail s with
             | None, _ => true
             | Some (_, Extracted), Some (_, Bound e' _) => String.eqb e' email
             | _, _ => false
             end
          then Some s else None
      | None => None
      end
  end.

Fixpoint run_monitor (s : monitor) (t : list event) : option monitor :=
  match t with
  | [] => Some s
  | e :: t' =>
      match monitor_step s e with
      | Some s' => run_monitor s' t'
      | None => None
      end
  end.









(** The rows of the CSV file a refresh run does not skip. *)
Definition to_process (existing : list string) (csv : list (string * string))
    : list (string * string) :=
  List.filter (fun row => negb (existsb (String.eqb row.1) existing)) csv.


End PathSpec.

(** Inputs on which the further properties are exercised. *)
Module Scenarios.
Import DateTime Utils Orchestrator.

(** A subscription that brings its own group but no rules, and one that
    brings only nodes. *)
Definition own_group : ClashManager.config :=
  ClashManager.mkConfig (Some 7890) None (Some "global") None
    [Some "jp-03"; Some "us-02"] (Some [("PROXY", ["jp-03"; "us-02"])]) None.

Definition only_nodes : ClashManager.config :=
  ClashManager.mkConfig None None None None
    [Some "jp-03"; None; Some "us-02"] None None.

Definition alice : account :=
  mkAccount (Some "account_1") (Some "alice@virgilian.com") "CAESold-a" "111"
            "cfg-a" "oses-a" "2025-01-09 08:00:00"
            (Some "2025-01-02 08:00:00") "2025-01-02 08:00:00".

Definition bob : account :=
  mkAccount (Some "account_2") (Some "bob@virgilian.com") "CAESold-b" "222"
            "cfg-b" "oses-b" "2025-01-10 09:30:00"
            (Some "2025-01-03 09:30:00") "2025-01-03 09:30:00".

Definition two_accounts : list account := [alice; bob].

(** Bob's record after a refresh on 10 January 08:00 with [sample_bundle],
    and the record a new address gets then. *)
Definition bob_refreshed : account :=
  mkAccount (Some "account_2") (Some "bob@virgilian.com") "CAESxyz" "1234567"
            "cfg-1" "oses" "2025-01-17 08:00:00"
            (Some "2025-01-03 09:30:00") "2025-01-10 08:00:00".

Definition carol : account :=
  mkAccount (Some "account_3") (Some "carol@virgilian.com") "CAESxyz" "1234567"
            "cfg-1" "oses" "2025-01-17 08:00:00"
            (Some "2025-01-10 08:00:00") "2025-01-10 08:00:00".

(** Every step succeeds, but the clock stands at 27 February. *)
Definition late_february : env :=
  mkEnv (fun _ => Some "jp-03") (fun _ => true)
        (fun _ => mkMail (Some ("t1234abc@virgilian.com", "Pwdabc1234")) true
                         (Some "482193"))
        (fun _ => mkBrowser true true (fun _ => true) true Samples.bare_session)
        (fun _ => mkDT 2025 2 27 8 0 0).

(** The first browser session fails at [login]; the later ones succeed.
    Every mailbox registers an identity of its own. *)
Definition second_attempt_succeeds : env :=
  mkEnv (fun _ => Some "jp-03") (fun _ => true)
        (fun m => mkMail (Some ("t" ++ PyStr.of_nat m ++ "@virgilian.com",
                                "Pwd" ++ PyStr.of_nat m))%string
                         true (Some "482193"))
        (fun b => mkBrowser true (negb (Nat.eqb b 0)) (fun _ => true) true
                            Samples.bare_session)
        (fun _ => mkDT 2025 1 10 8 0 0).

(** A page that stays on a URL with none of the keywords. *)
Definition stuck_page : Browser.page :=
  Browser.mkPage (fun _ => "https://auth.business.gemini.google/signin/pin")
                 (Some []) (fun _ => true) true.

(** A navigation whose first call meets a reset connection. *)
Definition reset_once (k : nat) : BrowserLogin.goto_outcome :=
  match k with
  | 0%nat => BrowserLogin.Failed
               "Page.goto: net::ERR_CONNECTION_RESET at https://business.gemini.google/"
  | _ => BrowserLogin.Loaded
  end.

(** A navigation that runs into the time-out of [goto]. *)
Definition goto_times_out (k : nat) : BrowserLogin.goto_outcome :=
  BrowserLogin.Failed "Page.goto: Timeout 60000ms exceeded.".

(** Sessions that log in but whose cookie jar lacks the session cookie. *)
Definition no_session_cookie : env :=
  mkEnv (fun _ => Some "jp-03") (fun _ => true)
        (fun _ => mkMail (Some ("t1234abc@virgilian.com", "Pwdabc1234")) true
                         (Some "482193"))
        (fun _ => mkBrowser true true (fun _ => true) true
                    (Browser.extract_cookies Samples.sample_urllib 0
                       (mkDT 2025 1 10 8 0 0)
                       (Samples.sample_page
                          [Browser.mkCookie "NID" "n" None;
                           Browser.mkCookie "__Host-C_OSES" "oses" (Some 1700000000)])))
        (fun _ => mkDT 2025 1 10 8 0 0).



(** A server that times out, answers 503, and then accepts. *)
Definition third_time_lucky (k : nat) : DataPusher.post_outcome :=
  match k with
  | 0%nat => DataPusher.Timeout
  | 1%nat => DataPusher.Response 503
  | _ => DataPusher.Response 201
  end.

(** Three tasks, two of them created in the same second. *)
Definition three_tasks : ApiTasks.task_store :=
  [("aaaa0001", ApiTasks.mkTaskInfo "aaaa0001" SUCCESS "2025-01-10 08:00:00"
                  (Some "2025-01-10 08:03:10") None None None);
   ("bbbb0002", ApiTasks.mkTaskInfo "bbbb0002" RUNNING "2025-01-10 09:15:00"
                  None None None None);
   ("cccc0003", ApiTasks.mkTaskInfo "cccc0003" PENDING "2025-01-10 09:15:00"
                  None None None None)].

End Scenarios.

(* ===================================================================== *)
(** * Part II: properties                                                 *)
(* ===================================================================== *)

(** ** The artifact store *)
Module UtilsFacts.
Import DateTime Utils UtilsSpec.

Lemma find_existing_idx_lt (email : string) (accounts : list account) (i : nat) :
  find_existing_idx email accounts = Some i -> (i < length accounts)%nat.
Proof.
  revert i. induction accounts as [|a rest IH]; intros i H; simpl in *.
  - discriminate.
  - destruct (email_is email a).
    + injection H as <-. lia.
    + destruct (find_existing_idx email rest) as [j|]; simpl in H; [|discriminate].
      injection H as <-. specialize (IH j eq_refl). lia.
Qed.

Lemma replace_day_None (d : datetime) (n : Z) :
  days_in_month (year d) (month d) < n -> replace_day d n = None.
Proof.
  intros H. unfold replace_day.
  destruct (n <=? days_in_month (year d) (month d)) eqn:E.
  - apply Z.leb_le in E. lia.
  - now rewrite andb_false_r.
Qed.

Lemma replace_day_Some (d : datetime) (n : Z) :
  1 <= n <= days_in_month (year d) (month d) ->
  replace_day d n = Some (mkDT (year d) (month d) n (hour d) (minute d) (second d)).
Proof.
  intros [H1 H2]. unfold replace_day.
  apply Z.leb_le in H1, H2. now rewrite H1, H2.
Qed.

Lemma replace_day_inv (d e : datetime) (n : Z) :
  replace_day d n = Some e ->
  e = mkDT (year d) (month d) n (hour d) (minute d) (second d) /\
  1 <= n <= days_in_month (year d) (month d).
Proof.
  unfold replace_day.
  destruct (1 <=? n) eqn:E1; destruct (n <=? days_in_month (year d) (month d)) eqn:E2;
    simpl; intros H; try discriminate.
  injection H as <-. apply Z.leb_le in E1, E2. auto.
Qed.

Lemma update_accounts_json_record (now : datetime) (accounts accounts' : list account)
    (email : string) (cd : cookie_data) :
  update_accounts_json now accounts email cd = Some accounts' ->
  exists r, accounts' !! target_index email accounts = Some r /\
    acc_email r = Some email /\
    acc_secure_c_ses r = secure_c_ses cd /\
    acc_expires_at r = strftime (day_plus_7 now) /\
    acc_updated_at r = strftime now.
Proof.
  unfold update_accounts_json, target_index.
  destruct (replace_day now (day now + 7)) as [exp|] eqn:R; [|discriminate].
  apply replace_day_inv in R as [-> _].
  destruct (find_existing_idx email accounts) as [i|] eqn:F; simpl;
    intros H; injection H as <-.
  - eexists. split.
    + apply list_lookup_insert_eq. eapply find_existing_idx_lt; eauto.
    + simpl. auto.
  - eexists. split.
    + rewrite lookup_app_r by lia. rewrite Nat.sub_diag. reflexivity.
    + simpl. auto.
Qed.

Lemma update_accounts_json_ignores_expires_at (now : datetime)
    (accounts : list account) (email x : string) (cd : cookie_data) :
  update_accounts_json now accounts email (Browser.with_expires_at x cd) =
  update_accounts_json now accounts email cd.
Proof. reflexivity. Qed.

End UtilsFacts.

(** ** Cookie extraction and the navigation wait *)
Module BrowserFacts.
Import DateTime Browser BrowserSpec.





(** The record [extract_cookies] holds when it starts reading cookies has
    no session cookie and no expiry yet. *)
Lemma extract_cookies_unfold (lib : urllib) (off : Z) (now : datetime)
    (pg : page) (cookies : list cookie) :
  context_cookies pg = Some cookies ->
  exists r0, secure_c_ses r0 = "" /\ expires_at r0 = "" /\
    extract_cookies lib off now pg =
      let '(result, raised) := scan_cookies off cookies r0 in
      if raised then result
      else if PyStr.truthy (expires_at result) then result
      else match add_days now 7 with
           | Some d => with_expires_at (strftime d) result
           | None => result
           end.
Proof.
  intros H. unfold extract_cookies. rewrite H.
  eexists. split; [|split; [|reflexivity]].
  - destruct (after_cid _); destruct (url_query_first _ _ _) as [v|];
      try destruct (PyStr.truthy v); reflexivity.
  - destruct (after_cid _); destruct (url_query_first _ _ _) as [v|];
      try destruct (PyStr.truthy v); reflexivity.
Qed.

(** The navigation wait, characterised: the first read among the ten that
    shows a logged-in keyword decides for [true]; without one, the eleventh
    read decides, by the failure keywords alone. *)
Lemma wait_navigation_S (url : nat -> string) (k n : nat) :
  wait_navigation url k (S n) =
  if logged_in (url k) then (true, S k) else wait_navigation url (S k) n.
Proof. reflexivity. Qed.

Lemma wait_navigation_O (url : nat -> string) (k : nat) :
  wait_navigation url k 0 = (negb (failed (url k)), k).
Proof. reflexivity. Qed.

Lemma wait_navigation_hit (url : nat -> string) (n k j : nat) :
  (j < n)%nat ->
  (forall i, (i < j)%nat -> logged_in (url (k + i)%nat) = false) ->
  logged_in (url (k + j)%nat) = true ->
  wait_navigation url k n = (true, S (k + j)).
Proof.
  revert k j. induction n as [|n IH]; intros k j Hj Hbefore Hhit; [lia|].
  rewrite wait_navigation_S. destruct j as [|j].
  - rewrite Nat.add_0_r in Hhit. rewrite Hhit.
    now rewrite Nat.add_0_r.
  - pose proof (Hbefore 0%nat ltac:(lia)) as H0. rewrite Nat.add_0_r in H0.
    rewrite H0.
    replace (k + S j)%nat with (S k + j)%nat in * by lia.
    apply IH; [lia| |assumption].
    intros i Hi. replace (S k + i)%nat with (k + S i)%nat by lia.
    apply Hbefore. lia.
Qed.

Lemma wait_navigation_miss (url : nat -> string) (n k : nat) :
  (forall i, (i < n)%nat -> logged_in (url (k + i)%nat) = false) ->
  wait_navigation url k n = (negb (failed (url (k + n)%nat)), (k + n)%nat).
Proof.
  revert k. induction n as [|n IH]; intros k Hmiss.
  - now rewrite wait_navigation_O, Nat.add_0_r.
  - rewrite wait_navigation_S.
    pose proof (Hmiss 0%nat ltac:(lia)) as H0. rewrite Nat.add_0_r in H0.
    rewrite H0.
    replace (k + S n)%nat with (S k + n)%nat by lia.
    apply IH. intros i Hi. replace (S k + i)%nat with (k + S i)%nat by lia.
    apply Hmiss. lia.
Qed.

End BrowserFacts.

(** ** The matcher against a declarative reading of the patterns *)
Module MailFacts.
Import Mail MailSpec.
Local Open Scope nat_scope.

Lemma last_of_app (prev : option N) (w1 w2 : text) :
  last_of prev (w1 ++ w2) = last_of (last_of prev w1) w2.
Proof. revert prev. induction w1; intros; simpl; auto. Qed.

#[local] Hint Constructors Matches : core.

Section Engine.
Context {A : Type}.
Variable db : unicode_db.
Implicit Types (k : option N -> text -> option A) (p : N -> bool).

(** *** Soundness: what the matcher returns comes from a match *)

Lemma star_lazy_sound p k prev s x :
  star_lazy p k prev s = Some x ->
  exists w rest, s = w ++ rest /\ forallb p w = true /\ k (last_of prev w) rest = Some x.
Proof.
  revert prev. induction s as [|c s IH]; intros prev H; simpl in H.
  - destruct (k prev []) eqn:K; [|discriminate].
    injection H as <-. exists [], []. auto.
  - destruct (k prev (c :: s)) eqn:K.
    + injection H as <-. exists [], (c :: s). auto.
    + destruct (p c) eqn:P; [|discriminate].
      destruct (IH _ H) as (w & rest & -> & Hw & Hk).
      exists (c :: w), rest. simpl. rewrite P. auto.
Qed.

Lemma star_greedy_sound p k prev s x :
  star_greedy p k prev s = Some x ->
  exists w rest, s = w ++ rest /\ forallb p w = true /\ k (last_of prev w) rest = Some x.
Proof.
  revert prev. induction s as [|c s IH]; intros prev H; simpl in H.
  - exists [], []. auto.
  - destruct (p c) eqn:P.
    + destruct (star_greedy p k (Some c) s) eqn:G.
      * injection H as <-. destruct (IH _ G) as (w & rest & -> & Hw & Hk).
        exists (c :: w), rest. simpl. rewrite P. auto.
      * exists [], (c :: s). auto.
    + exists [], (c :: s). auto.
Qed.

Lemma repeat_greedy_sound p k lo hi prev s x :
  repeat_greedy p k lo hi prev s = Some x ->
  exists w rest, s = w ++ rest /\ forallb p w = true /\
    lo <= length w <= hi /\ k (last_of prev w) rest = Some x.
Proof.
  revert lo prev s. induction hi as [|hi IH]; intros lo prev s H.
  - simpl in H. destruct lo; [|discriminate].
    exists [], s. simpl. auto with lia.
  - assert (Hstop : match lo with O => k prev s | S _ => None end = Some x ->
              exists w rest, s = w ++ rest /\ forallb p w = true /\
                lo <= length w <= S hi /\ k (last_of prev w) rest = Some x).
    { destruct lo; [|discriminate]. intros Hk. exists [], s. simpl. auto with lia. }
    simpl in H. destruct s as [|c s]; [auto|].
    destruct (p c) eqn:P; [|auto].
    destruct (repeat_greedy p k (Nat.pred lo) hi (Some c) s) eqn:G; [|auto].
    injection H as <-. destruct (IH _ _ _ G) as (w & rest & -> & Hw & Hlen & Hk).
    exists (c :: w), rest. simpl. rewrite P. repeat split; auto; lia.
Qed.

Lemma exec_sound r k prev s x :
  exec db r k prev s = Some x ->
  exists w rest, s = w ++ rest /\ Matches db r prev w rest /\
                 k (last_of prev w) rest = Some x.
Proof.
  revert k prev s. induction r as [|p|r1 IH1 r2 IH2|r1 IH1 r2 IH2|g p|p lo hi|];
    intros k prev s H; simpl in H.
  - exists [], s. auto.
  - destruct s as [|c s]; [discriminate|]. destruct (p c) eqn:P; [|discriminate].
    exists [c], s. auto.
  - destruct (IH1 _ _ _ H) as (w1 & rest1 & -> & M1 & H2).
    destruct (IH2 _ _ _ H2) as (w2 & rest & -> & M2 & Hk).
    exists (w1 ++ w2), rest. rewrite <- app_assoc, last_of_app. auto.
  - destruct (exec db r1 k prev s) eqn:E1.
    + injection H as <-. destruct (IH1 _ _ _ E1) as (w & rest & -> & M & Hk). eauto 6.
    + destruct (IH2 _ _ _ H) as (w & rest & -> & M & Hk). eauto 6.
  - destruct g.
    + destruct (star_greedy_sound _ _ _ _ _ H) as (w & rest & -> & Hw & Hk). eauto 6.
    + destruct (star_lazy_sound _ _ _ _ _ H) as (w & rest & -> & Hw & Hk). eauto 6.
  - destruct (repeat_greedy_sound _ _ _ _ _ _ _ H) as (w & rest & -> & Hw & Hl & Hk).
    eauto 6.
  - destruct (at_boundary db prev s) eqn:B; [|discriminate].
    exists [], s. auto.
Qed.

(** *** Completeness: where a match exists, the matcher finds one *)

Lemma star_lazy_complete p k prev w rest :
  forallb p w = true -> is_Some (k (last_of prev w) rest) ->
  is_Some (star_lazy p k prev (w ++ rest)).
Proof.
  revert prev. induction w as [|c w IH]; intros prev Hw Hk; simpl in *.
  - destruct rest; simpl; destruct Hk as [x ->]; eauto.
  - apply andb_true_iff in Hw as [Pc Hw].
    destruct (k prev (c :: w ++ rest)); [eauto|]. rewrite Pc. auto.
Qed.

Lemma star_greedy_complete p k prev w rest :
  forallb p w = true -> is_Some (k (last_of prev w) rest) ->
  is_Some (star_greedy p k prev (w ++ rest)).
Proof.
  revert prev. induction w as [|c w IH]; intros prev Hw Hk; simpl in *.
  - destruct rest as [|c rest]; simpl; [assumption|].
    destruct (p c); [|assumption].
    destruct (star_greedy p k (Some c) rest); [eauto|assumption].
  - apply andb_true_iff in Hw as [Pc Hw]. rewrite Pc.
    destruct (IH (Some c) Hw Hk) as [y ->]. eauto.
Qed.

Lemma repeat_greedy_complete p k lo hi prev w rest :
  forallb p w = true -> lo <= length w <= hi ->
  is_Some (k (last_of prev w) rest) ->
  is_Some (repeat_greedy p k lo hi prev (w ++ rest)).
Proof.
  revert lo prev w. induction hi as [|hi IH]; intros lo prev w Hw Hlen Hk.
  - destruct w; simpl in *; [|lia]. destruct lo; [assumption|lia].
  - destruct w as [|c w]; simpl in *.
    + destruct lo; [|lia].
      destruct rest as [|c rest]; [assumption|].
      destruct (p c); [|assumption].
      destruct (repeat_greedy p k _ hi (Some c) rest); [eauto|assumption].
    + apply andb_true_iff in Hw as [Pc Hw]. rewrite Pc.
      destruct (IH (Nat.pred lo) (Some c) w Hw ltac:(lia) Hk) as [y ->]. eauto.
Qed.

Lemma exec_complete r k prev w rest :
  Matches db r prev w rest -> is_Some (k (last_of prev w) rest) ->
  is_Some (exec db r k prev (w ++ rest)).
Proof.
  intros M. revert k. induction M; intros k Hk; simpl in *.
  - assumption.
  - rewrite H. assumption.
  - rewrite <- app_assoc. apply IHM1. apply IHM2. now rewrite <- last_of_app.
  - destruct (IHM _ Hk) as [y ->]. eauto.
  - destruct (exec db r1 k prev (w ++ rest)); [eauto|]. auto.
  - destruct g; [apply star_greedy_complete|apply star_lazy_complete]; auto.
  - apply repeat_greedy_complete; auto.
  - rewrite H. assumption.
Qed.

(** *** [re.search]: leftmost *)

Lemma search_sound (at_pos : option N -> text -> option A) prev s x :
  search at_pos prev s = Some x ->
  exists before rest, s = before ++ rest /\
    at_pos (last_of prev before) rest = Some x /\
    forall b1 b2, b1 ++ b2 = before -> b2 <> [] ->
      at_pos (last_of prev b1) (b2 ++ rest) = None.
Proof.
  revert prev. induction s as [|c s IH]; intros prev H; simpl in H.
  - destruct (at_pos prev []) eqn:E; [|discriminate]. injection H as <-.
    exists [], []. repeat split; auto.
    intros b1 b2 Hb. apply app_eq_nil in Hb as [_ ->]. congruence.
  - destruct (at_pos prev (c :: s)) eqn:E.
    + injection H as <-. exists [], (c :: s). repeat split; auto.
      intros b1 b2 Hb. apply app_eq_nil in Hb as [_ ->]. congruence.
    + destruct (IH _ H) as (before & rest & -> & Hat & Hleft).
      exists (c :: before), rest. repeat split; auto.
      intros b1 b2 Hb Hne. destruct b1 as [|c1 b1]; simpl in *.
      * subst b2. simpl. assumption.
      * injection Hb as -> Hb. apply Hleft; assumption.
Qed.

Lemma search_complete (at_pos : option N -> text -> option A) prev before rest :
  is_Some (at_pos (last_of prev before) rest) ->
  is_Some (search at_pos prev (before ++ rest)).
Proof.
  revert prev. induction before as [|c before IH]; intros prev H; simpl in *.
  - destruct rest; simpl; destruct H as [x ->]; eauto.
  - destruct (at_pos prev (c :: before ++ rest)); [eauto|]. auto.
Qed.

Lemma search_None (at_pos : option N -> text -> option A) prev before rest :
  search at_pos prev (before ++ rest) = None ->
  at_pos (last_of prev before) rest = None.
Proof.
  intros H. destruct (at_pos (last_of prev before) rest) eqn:E; [|reflexivity].
  destruct (search_complete at_pos prev before rest) as [y Hy]; [rewrite E; eauto|].
  congruence.
Qed.

End Engine.

(** [digits[0]] of [re.findall] is the match [re.search] finds. *)
Lemma findall_head (at_pos : option N -> text -> option text) prev s :
  head (findall at_pos 0 prev s) = search at_pos prev s.
Proof.
  revert prev. induction s as [|c s IH]; intros prev; simpl.
  - destruct (at_pos prev []); reflexivity.
  - destruct (at_pos prev (c :: s)); [reflexivity|apply IH].
Qed.

(** *** The two patterns in words *)

Lemma last_of_nonempty (prev : option N) (w : text) :
  w <> [] -> last_of prev w = last_of None w.
Proof. destruct w; [congruence|reflexivity]. Qed.


Lemma consumed_app (w rest : text) : consumed (w ++ rest) rest = w.
Proof.
  unfold consumed. rewrite length_app.
  replace (length w + length rest - length rest) with (length w) by lia.
  apply take_app_length.
Qed.

Ltac inv_matches :=
  repeat match goal with
  | H : Matches _ (Seq _ _) _ _ _ |- _ => inversion H; subst; clear H
  | H : Matches _ (Chr _) _ _ _ |- _ => inversion H; subst; clear H
  | H : Matches _ (Star _ _) _ _ _ |- _ => inversion H; subst; clear H
  | H : Matches _ (Repeat _ _ _) _ _ _ |- _ => inversion H; subst; clear H
  | H : Matches _ WordBoundary _ _ _ |- _ => inversion H; subst; clear H
  | H : Matches _ Eps _ _ _ |- _ => inversion H; subst; clear H
  end.

Lemma lit_matches (db : unicode_db) (L w : text) prev rest :
  Matches db (lit L) prev w rest <-> same_ignorecase L w.
Proof.
  split.
  - revert prev w. induction L as [|p L IH]; intros prev w M; simpl in M; inv_matches.
    + constructor.
    + constructor; [assumption|]. eapply IH; eauto.
  - intros F. revert prev. induction F as [|p c L w Hpc F IH]; intros prev; simpl.
    + constructor.
    + change (c :: w) with ([c] ++ w). constructor; [now constructor|apply IH].
Qed.

Lemma alt_matches (db : unicode_db) (r1 r2 : regex) prev (w rest : text) :
  Matches db (Alt r1 r2) prev w rest <->
  Matches db r1 prev w rest \/ Matches db r2 prev w rest.
Proof.
  split.
  - intros M. inversion M; subst; auto.
  - intros [M|M]; [now apply MAltL|now apply MAltR].
Qed.

Lemma label_re_matches (db : unicode_db) (w : text) prev rest :
  Matches db label_re prev w rest <-> is_label w.
Proof.
  unfold label_re, is_label, LABELS.
  rewrite !alt_matches, !lit_matches. split.
  - intros [H|[H|[H|[H|H]]]].
    + apply Exists_cons_hd, H.
    + apply Exists_cons_tl, Exists_cons_hd, H.
    + do 2 apply Exists_cons_tl. apply Exists_cons_hd, H.
    + do 3 apply Exists_cons_tl. apply Exists_cons_hd, H.
    + do 4 apply Exists_cons_tl. apply Exists_cons_hd, H.
  - intros H.
    inversion_clear H as [? ? H1|? ? H1]; [auto|].
    inversion_clear H1 as [? ? H2|? ? H2]; [auto|].
    inversion_clear H2 as [? ? H3|? ? H3]; [auto|].
    inversion_clear H3 as [? ? H4|? ? H4]; [auto|].
    inversion_clear H4 as [? ? H5|? ? H5]; [auto 6|].
    inversion H5.
Qed.

Lemma context_at_sound (db : unicode_db) prev s t :
  context_at db prev s = Some t ->
  exists label gap colon ws after,
    s = label ++ gap ++ colon :: ws ++ t ++ after /\
    is_label label /\ colon_char colon = true /\ forallb is_space ws = true /\
    forallb token_char t = true /\ 4 <= length t <= 8 /\
    at_boundary db (last_of None t) after = true.
Proof.
  unfold context_at. intros H.
  apply exec_sound in H as (w1 & s1 & -> & M1 & H).
  apply exec_sound in H as (w2 & s2 & -> & M2 & H).
  apply exec_sound in H as (w3 & s3 & -> & M3 & H).
  injection H as <-. unfold context_prefix, context_group, context_suffix in *.
  inv_matches. simpl. rewrite consumed_app.
  match goal with H : Matches _ label_re _ ?l _ |- _ =>
    apply label_re_matches in H; exists l end.
  match goal with H : at_boundary _ _ ?a = true |- _ =>
    rewrite last_of_nonempty in H by (destruct w2; simpl in *; [lia|congruence]);
    match goal with
    | Hc : colon_char ?c = true, Hs : forallb is_space ?ws = true,
      Hg : forallb any_char ?g = true |- _ => exists g, c, ws, a
    end
  end.
  split; [rewrite <- !app_assoc; reflexivity|].
  repeat split; try assumption; lia.
Qed.


(** The outcome of [re.search(pattern_context, ...)] is a labelled token,
    and a body with a labelled token makes the search succeed. *)
Lemma search_context_sound (db : unicode_db) (body t : text) :
  search (context_at db) None body = Some t -> labelled_token db body t.
Proof.
  intros H. apply search_sound in H as (before & rest & -> & H & _).
  apply context_at_sound in H as (label & gap & colon & ws & after & -> & H).
  exists before, label, gap, colon, ws, after. auto.
Qed.


Lemma six_digits_at_sound (db : unicode_db) (before s d : text) :
  six_digits_at db (last_of None before) s = Some d ->
  exists after, s = d ++ after /\ standalone_six db before d after.
Proof.
  unfold six_digits_at. intros H.
  apply exec_sound in H as (w & rest & -> & M & H). injection H as <-.
  rewrite consumed_app. inv_matches. simpl in *.
  rewrite app_nil_r in *. exists rest. split; [reflexivity|].
  match goal with H : at_boundary _ (last_of (last_of _ _) ?w) _ = true |- _ =>
    rewrite last_of_nonempty in H by (destruct w; simpl in *; [lia|congruence]) end.
  repeat split; auto; lia.
Qed.

Lemma six_digits_at_complete (db : unicode_db) (before d after : text) :
  standalone_six db before d after ->
  six_digits_at db (last_of None before) (d ++ after) = Some d.
Proof.
  intros (Hlen & Hd & Hb1 & Hb2). unfold six_digits_at.
  destruct (exec_complete db
              (Seq WordBoundary (Seq (Repeat (is_digit db) 6 6) WordBoundary))
              (fun _ rest => Some (consumed (d ++ after) rest))
              (last_of None before) d after) as [x Hx].
  - replace d with ([] ++ (d ++ [])) at 1 by (simpl; now rewrite app_nil_r).
    constructor; [constructor; simpl; now rewrite app_nil_r|].
    constructor; [constructor; [assumption|lia]|].
    constructor. simpl.
    rewrite last_of_nonempty by (destruct d; simpl in *; [lia|congruence]).
    assumption.
  - eauto.
  - rewrite Hx. apply exec_sound in Hx as (w & rest & E & M & H).
    injection H as <-. inv_matches. simpl in *. rewrite app_nil_r in *.
    match goal with Hl : 6 <= length ?w <= 6 |- _ =>
      assert (L : length w = length d) by lia;
      assert (Ew : w = d /\ rest = after)
        by (symmetry in E; apply app_inj_1 in E; tauto)
    end.
    destruct Ew as [-> ->]. now rewrite consumed_app.
Qed.

Lemma search_six_sound (db : unicode_db) (body d : text) :
  search (six_digits_at db) None body = Some d -> first_standalone_six db body d.
Proof.
  intros H. apply search_sound in H as (before & rest & -> & H & Hleft).
  apply six_digits_at_sound in H as (after & -> & Hs).
  exists before, after. split; [reflexivity|]. split; [assumption|].
  intros b1 b2 d' after' Hb Hne E Hs'.
  specialize (Hleft b1 b2 Hb Hne). rewrite E in Hleft.
  rewrite (six_digits_at_complete db b1 d' after' Hs') in Hleft. discriminate.
Qed.


End MailFacts.

(** ** Node selection *)
Module ClashFacts.
Import Clash ClashSpec.








End ClashFacts.

(** ** The acquisition paths *)
Module OrchestratorFacts.
Import Orchestrator OrchestratorSpec.
Local Open Scope nat_scope.

Lemma count_app (p : event -> bool) (t1 t2 : list event) :
  count p (t1 ++ t2) = count p t1 + count p t2.
Proof. induction t1 as [|e t1 IH]; simpl; [reflexivity|]. rewrite IH. lia. Qed.

(** *** A program logic for [M] *)

Lemma triple_ret {A} (P : world -> Prop) (a : A) (Q : A -> world -> Prop) :
  (forall w, P w -> Q a w) -> triple P (ret a) Q.
Proof. intros H w Hw. apply H, Hw. Qed.

Lemma triple_bind {A B} (P : world -> Prop) (R : A -> world -> Prop)
    (Q : B -> world -> Prop) (m : M A) (k : A -> M B) :
  triple P m R -> (forall a, triple (R a) (k a) Q) -> triple P (bind m k) Q.
Proof.
  intros Hm Hk w Hw. unfold bind. specialize (Hm w Hw).
  destruct (m w) as [a w1]. apply (Hk a w1 Hm).
Qed.

Lemma triple_weaken {A} (P P' : world -> Prop) (Q Q' : A -> world -> Prop) (m : M A) :
  triple P' m Q' -> (forall w, P w -> P' w) -> (forall a w, Q' a w -> Q a w) ->
  triple P m Q.
Proof. intros H HP HQ w Hw. apply HQ, H, HP, Hw. Qed.

(** *** Only bundles with a session cookie reach the store *)

Lemma keeps_ret {A} (a : A) (Q : A -> Prop) : Q a -> keeps (ret a) Q.
Proof. intros H. apply triple_ret. auto. Qed.

Lemma keeps_bind {A B} (m : M A) (k : A -> M B) (R : A -> Prop) (Q : B -> Prop) :
  keeps m R -> (forall a, R a -> keeps (k a) Q) -> keeps (bind m k) Q.
Proof.
  intros Hm Hk. eapply triple_bind; [exact Hm|].
  intros a w [Hs Ha]. apply (Hk a Ha w Hs).
Qed.

Lemma keeps_weaken {A} (m : M A) (Q Q' : A -> Prop) :
  keeps m Q' -> (forall a, Q' a -> Q a) -> keeps m Q.
Proof. intros H HQ w Hw. destruct (H w Hw). split; auto. Qed.

Lemma safe_snoc (w : world) (e : event) t a f m b n :
  safe w -> ok_event e -> w_trace w ++ [e] = t -> safe (mkWorld t a f m b n).
Proof.
  unfold safe. intros Hs He <-. simpl. apply Forall_app. split; [assumption|].
  constructor; [assumption|constructor].
Qed.

Lemma keeps_emit (e : event) : ok_event e -> keeps (emit e) (fun _ => True).
Proof. intros He w Hw. split; [|exact I]. eapply safe_snoc; eauto. Qed.

Lemma keeps_emit_then {A} (e : event) (a : A) (Q : A -> Prop) :
  ok_event e -> Q a -> keeps (emit e >> ret a) Q.
Proof.
  intros He Ha. eapply keeps_bind; [apply keeps_emit, He|].
  intros _ _. now apply keeps_ret.
Qed.

Section Keeps.
Variable E : env.

Lemma keeps_find_healthy_node : keeps (find_healthy_node E) (fun _ => True).
Proof. intros w Hw. split; [|exact I]. eapply safe_snoc; eauto. exact I. Qed.

Lemma keeps_new_mail_client : keeps new_mail_client (fun _ => True).
Proof. intros w Hw. split; [|exact I]. eapply safe_snoc; eauto. exact I. Qed.

Lemma keeps_new_browser h : keeps (new_browser h) (fun _ => True).
Proof. intros w Hw. split; [|exact I]. eapply safe_snoc; eauto. exact I. Qed.

Lemma keeps_update_accounts_json email d :
  PyStr.truthy (secure_c_ses d) = true ->
  keeps (update_accounts_json E email d) (fun _ => True).
Proof.
  intros Hd w Hw. unfold update_accounts_json.
  destruct (Utils.update_accounts_json _ _ _ _); (split; [|exact I]);
    (eapply (safe_snoc w (UpdateAccountsJson email d)); [exact Hw|exact Hd|reflexivity]).
Qed.

Lemma keeps_stop_ret {A} b (a : A) (Q : A -> Prop) :
  Q a -> keeps (browser_stop b >> ret a) Q.
Proof. intros H. now apply keeps_emit_then. Qed.

Lemma has_session_None : has_session None.
Proof. intros d H. discriminate. Qed.

Lemma keeps_register_attempt h : keeps (register_attempt E h) has_session.
Proof.
  unfold register_attempt.
  eapply keeps_bind; [apply keeps_new_mail_client|]. intros m _.
  eapply keeps_bind; [apply keeps_emit_then with (Q := fun _ => True); exact I|].
  intros [[email password]|] _; [|apply keeps_ret, has_session_None].
  eapply keeps_bind; [apply keeps_new_browser|]. intros b _.
  eapply keeps_bind; [apply keeps_emit_then with (Q := fun _ => True); exact I|].
  intros [] _; simpl; [|apply keeps_stop_ret, has_session_None].
  eapply keeps_bind; [apply keeps_emit_then with (Q := fun _ => True); exact I|].
  intros [] _; simpl; [|apply keeps_stop_ret, has_session_None].
  eapply keeps_bind; [apply keeps_emit_then with (Q := fun _ => True); exact I|].
  intros [code|] _; [|apply keeps_stop_ret, has_session_None].
  eapply keeps_bind; [apply keeps_emit_then with (Q := fun _ => True); exact I|].
  intros [] _; simpl; [|apply keeps_stop_ret, has_session_None].
  eapply keeps_bind; [apply keeps_emit_then with (Q := fun _ => True); exact I|].
  intros [] _; simpl; [|apply keeps_stop_ret, has_session_None].
  eapply keeps_bind; [apply keeps_emit_then with (Q := fun _ => True); exact I|].
  intros d _. destruct (PyStr.truthy (secure_c_ses d)) eqn:T; simpl.
  - apply keeps_stop_ret. intros d' H. injection H as <-. exact T.
  - apply keeps_stop_ret, has_session_None.
Qed.

Lemma keeps_register_loop h n : keeps (register_loop E h n) has_session.
Proof.
  induction n as [|n IH]; simpl.
  - apply keeps_ret, has_session_None.
  - eapply keeps_bind; [apply keeps_register_attempt|].
    intros [d|] Hd; [now apply keeps_ret|exact IH].
Qed.

Lemma keeps_register_new_account h : keeps (register_new_account E h) has_session.
Proof.
  unfold register_new_account.
  eapply keeps_bind; [apply keeps_find_healthy_node|].
  intros [node|] _; [apply keeps_register_loop|apply keeps_ret, has_session_None].
Qed.

Lemma keeps_process_try m b email password :
  keeps (process_try E m b email password) (fun _ => True).
Proof.
  unfold process_try.
  eapply keeps_bind; [apply keeps_emit_then with (Q := fun _ => True); exact I|].
  intros [] _; simpl; [|now apply keeps_ret].
  eapply keeps_bind; [apply keeps_emit; exact I|]. intros _ _.
  eapply keeps_bind; [apply keeps_emit_then with (Q := fun _ => True); exact I|].
  intros [] _; simpl; [|now apply keeps_ret].
  eapply keeps_bind; [apply keeps_emit_then with (Q := fun _ => True); exact I|].
  intros [code|] _; [|now apply keeps_ret].
  eapply keeps_bind; [apply keeps_emit_then with (Q := fun _ => True); exact I|].
  intros [] _; simpl; [|now apply keeps_ret].
  eapply keeps_bind; [apply keeps_emit_then with (Q := fun _ => True); exact I|].
  intros [] _; simpl; [|now apply keeps_ret].
  eapply keeps_bind; [apply keeps_emit_then with (Q := fun _ => True); exact I|].
  intros d _. destruct (PyStr.truthy (secure_c_ses d)) eqn:T; simpl.
  - apply keeps_update_accounts_json. exact T.
  - now apply keeps_ret.
Qed.

Lemma keeps_process_existing_account email password h proxy_node :
  keeps (process_existing_account E email password h proxy_node) (fun _ => True).
Proof.
  unfold process_existing_account.
  destruct (PyStr.truthy email); simpl; [|now apply keeps_ret].
  eapply keeps_bind with (R := fun _ => True).
  { destruct proxy_node as [n|]; [|apply keeps_find_healthy_node].
    destruct (PyStr.truthy n); [|apply keeps_find_healthy_node].
    eapply keeps_bind; [apply keeps_emit_then with (Q := fun _ => True); exact I|].
    intros ok _. now apply keeps_ret. }
  intros [node|] _; [|now apply keeps_ret].
  eapply keeps_bind; [apply keeps_new_mail_client|]. intros m _.
  eapply keeps_bind; [apply keeps_emit; exact I|]. intros _ _.
  eapply keeps_bind; [apply keeps_new_browser|]. intros b _.
  eapply keeps_bind; [apply keeps_process_try|]. intros r _.
  now apply keeps_stop_ret.
Qed.

Lemma keeps_refresh_try m b email password :
  keeps (refresh_try E m b email password) has_session.
Proof.
  unfold refresh_try.
  eapply keeps_bind; [apply keeps_emit_then with (Q := fun _ => True); exact I|].
  intros [] _; simpl; [|apply keeps_ret, has_session_None].
  eapply keeps_bind; [apply keeps_emit_then with (Q := fun _ => True); exact I|].
  intros [] _; simpl; [|apply keeps_ret, has_session_None].
  eapply keeps_bind; [apply keeps_emit_then with (Q := fun _ => True); exact I|].
  intros [code|] _; [|apply keeps_ret, has_session_None].
  eapply keeps_bind; [apply keeps_emit_then with (Q := fun _ => True); exact I|].
  intros [] _; simpl; [|apply keeps_ret, has_session_None].
  eapply keeps_bind; [apply keeps_emit_then with (Q := fun _ => True); exact I|].
  intros [] _; simpl; [|apply keeps_ret, has_session_None].
  eapply keeps_bind; [apply keeps_emit_then with (Q := fun _ => True); exact I|].
  intros d _. destruct (PyStr.truthy (secure_c_ses d)) eqn:T; simpl.
  - apply keeps_ret. intros d' H. injection H as <-. exact T.
  - apply keeps_ret, has_session_None.
Qed.

Lemma keeps_refresh_single_account email password :
  keeps (refresh_single_account E email password) has_session.
Proof.
  unfold refresh_single_account.
  eapply keeps_bind; [apply keeps_find_healthy_node|].
  intros [node|] _; [|apply keeps_ret, has_session_None].
  eapply keeps_bind; [apply keeps_new_mail_client|]. intros m _.
  eapply keeps_bind; [apply keeps_emit_then with (Q := fun _ => True); exact I|].
  intros [] _; simpl; [|apply keeps_ret, has_session_None].
  eapply keeps_bind; [apply keeps_new_browser|]. intros b _.
  eapply keeps_bind; [apply keeps_refresh_try|]. intros r Hr.
  now apply keeps_stop_ret.
Qed.

(** The step both register callers take with a result. *)
Lemma keeps_store_result {A} (r : cookie_data) (a : A) :
  PyStr.truthy (secure_c_ses r) = true ->
  keeps (let* written := update_accounts_json E (result_email r) r in
         if negb written then ret None
         else append_to_csv (result_email r) (result_password r) >> ret (Some a))
        (fun _ => True).
Proof.
  intros Hr. eapply keeps_bind; [now apply keeps_update_accounts_json|].
  intros [] _; simpl; [|now apply keeps_ret].
  now apply keeps_emit_then.
Qed.

Lemma keeps_cooldown (rest : nat) :
  keeps (match rest with O => ret tt | S _ => emit (Sleep 3) end) (fun _ => True).
Proof. destruct rest; [now apply keeps_ret|now apply keeps_emit]. Qed.

Lemma keeps_main_register h count success fail :
  keeps (main_register E h count success fail) (fun _ => True).
Proof.
  revert success fail. induction count as [|rest IH]; intros success fail; simpl.
  - now apply keeps_ret.
  - eapply keeps_bind; [apply keeps_register_new_account|]. intros result Hres.
    eapply keeps_bind with (R := fun _ => True).
    { destruct result as [r|]; [|now apply keeps_ret].
      apply keeps_store_result. now apply Hres. }
    intros [[s f]|] _; [|now apply keeps_ret].
    eapply keeps_bind; [apply keeps_cooldown|]. intros _ _. apply IH.
Qed.

Lemma keeps_main_refresh_loop h proxy_node existing accounts success fail :
  keeps (main_refresh_loop E h proxy_node existing accounts success fail)
        (fun _ => True).
Proof.
  revert success fail.
  induction accounts as [|[email password] rest IH]; intros success fail; simpl.
  - now apply keeps_ret.
  - destruct (existsb (String.eqb email) existing); [apply IH|].
    eapply keeps_bind; [apply keeps_process_existing_account|].
    intros [] _; apply IH.
Qed.

Lemma keeps_main_refresh h proxy_node accounts :
  keeps (main_refresh E h proxy_node accounts) (fun _ => True).
Proof. intros w Hw. unfold main_refresh. now apply keeps_main_refresh_loop. Qed.

Lemma keeps_run_register_loop count results :
  keeps (run_register_loop E count results) (fun _ => True).
Proof.
  revert results. induction count as [|rest IH]; intros results; simpl.
  - now apply keeps_ret.
  - eapply keeps_bind; [apply keeps_register_new_account|]. intros result Hres.
    eapply keeps_bind with (R := fun _ => True).
    { destruct result as [r|]; [|now apply keeps_ret].
      apply keeps_store_result. now apply Hres. }
    intros [rs|] _; [|now apply keeps_ret].
    eapply keeps_bind; [apply keeps_cooldown|]. intros _ _. apply IH.
Qed.

Lemma keeps_run_refresh_task email password :
  keeps (run_refresh_task E email password) (fun _ => True).
Proof.
  unfold run_refresh_task.
  eapply keeps_bind; [apply keeps_refresh_single_account|].
  intros [r|] Hr; [|now apply keeps_ret].
  eapply keeps_bind; [apply keeps_update_accounts_json; now apply Hr|].
  intros written _. now apply keeps_ret.
Qed.

End Keeps.

(** *** Running the paths symbolically *)

Ltac unfold_paths :=
  unfold register_single_account, register_new_account, register_attempt,
    process_existing_account, process_try,
    refresh_single_account, refresh_try, run_refresh_task,
    find_healthy_node, switch_node, new_mail_client, mail_register,
    mail_login_existing, mail_clear_inbox, mail_wait_for_code, new_browser,
    browser_start, browser_login, browser_enter_verification_code,
    browser_wait_for_login_complete, browser_extract_cookies, browser_stop,
    update_accounts_json, bind, ret, emit.

Ltac case_env :=
  match goal with
  | |- context [e_find_healthy_node ?E ?k] =>
      destruct (e_find_healthy_node E k) as [?node|] eqn:?
  | |- context [e_switch_node ?E ?n] => destruct (e_switch_node E n) eqn:?
  | |- context [m_register ?a] =>
      destruct (m_register a) as [[?email ?password]|] eqn:?
  | |- context [m_login_existing ?a] => destruct (m_login_existing a) eqn:?
  | |- context [b_start ?a] => destruct (b_start a) eqn:?
  | |- context [b_login ?a] => destruct (b_login a) eqn:?
  | |- context [m_wait_for_code ?a] =>
      destruct (m_wait_for_code a) as [?code|] eqn:?
  | |- context [b_enter_verification_code ?a ?c] =>
      destruct (b_enter_verification_code a c) eqn:?
  | |- context [b_wait_for_login_complete ?a] =>
      destruct (b_wait_for_login_complete a) eqn:?
  | |- context [PyStr.truthy ?s] => destruct (PyStr.truthy s) eqn:?
  | |- context [Utils.update_accounts_json ?n ?a ?e ?d] =>
      destruct (Utils.update_accounts_json n a e d) eqn:?
  end.

Ltac run_paths := unfold_paths; cbn; repeat (case_env; cbn).

Lemma register_attempt_result (E : env) (h : bool) (w : world) :
  (register_attempt E h w).1 =
  match m_register (e_mail E (w_mails w)) with
  | Some (email, password) =>
      if steps_ok E (w_mails w) (w_browsers w) &&
         PyStr.truthy (secure_c_ses (extracted E (w_browsers w)))
      then Some (set_password password (set_email email (extracted E (w_browsers w))))
      else None
  | None => None
  end.
Proof. unfold steps_ok, extracted. run_paths; first [reflexivity|congruence]. Qed.

Lemma refresh_try_result (E : env) (m b : nat) (email password : string) (w : world) :
  (refresh_try E m b email password w).1 =
  if steps_ok E m b && PyStr.truthy (secure_c_ses (extracted E b))
  then Some (set_password password (set_email email (extracted E b)))
  else None.
Proof. unfold steps_ok, extracted. run_paths; first [reflexivity|congruence]. Qed.

Lemma process_try_result (E : env) (m b : nat) (email password : string) (w : world) :
  (process_try E m b email password w).1 =
  steps_ok E m b && PyStr.truthy (secure_c_ses (extracted E b)) &&
  write_completes E w email (set_email email (extracted E b)).
Proof.
  unfold steps_ok, extracted, write_completes.
  run_paths; first [reflexivity|congruence].
Qed.

(** The events of a whole path, and where it leaves the counters. *)
Lemma register_attempt_login_false (E : env) (h : bool) (w : world) :
  (forall k, b_login (e_browser E k) = false) ->
  exists evs nb,
    register_attempt E h w =
      (None, mkWorld (w_trace w ++ evs) (w_accounts w) (w_finds w)
                     (1 + w_mails w) (nb + w_browsers w) (w_writes w)) /\
    count is_new_mail evs = 1 /\ count is_register evs = 1 /\
    count is_login evs <= 1 /\ nb <= 1.
Proof.
  intros Hlogin. unfold_paths. cbn.
  destruct (m_register (e_mail E (w_mails w))) as [[email password]|]; cbn.
  - destruct (b_start (e_browser E (w_browsers w))); cbn.
    + rewrite Hlogin. cbn. rewrite <- !app_assoc. cbn.
      eexists _, 1. split; [reflexivity|]. cbn. repeat split; lia.
    + rewrite <- !app_assoc. cbn.
      eexists _, 1. split; [reflexivity|]. cbn. repeat split; lia.
  - rewrite <- !app_assoc. cbn.
    eexists _, 0. split; [reflexivity|]. cbn. repeat split; lia.
Qed.

Lemma register_loop_login_false (E : env) (h : bool) (n : nat) (w : world) :
  (forall k, b_login (e_browser E k) = false) ->
  exists evs nb,
    register_loop E h n w =
      (None, mkWorld (w_trace w ++ evs) (w_accounts w) (w_finds w)
                     (n + w_mails w) (nb + w_browsers w) (w_writes w)) /\
    count is_new_mail evs = n /\ count is_register evs = n /\
    count is_login evs <= n /\ nb <= n.
Proof.
  intros Hlogin. revert w. induction n as [|n IH]; intros w.
  - exists [], 0. cbn. rewrite app_nil_r. destruct w; auto.
  - cbn [register_loop]. unfold bind.
    destruct (register_attempt_login_false E h w Hlogin)
      as (evs1 & nb1 & -> & Hm1 & Hr1 & Hl1 & Hb1).
    destruct (IH (mkWorld (w_trace w ++ evs1) (w_accounts w) (w_finds w)
                          (1 + w_mails w) (nb1 + w_browsers w) (w_writes w)))
      as (evs2 & nb2 & -> & Hm2 & Hr2 & Hl2 & Hb2).
    exists (evs1 ++ evs2), (nb2 + nb1). cbn. rewrite !count_app.
    split; [|repeat split; lia].
    f_equal. f_equal; [now rewrite app_assoc|lia|lia].
Qed.

Lemma register_attempt_failed_login (E : env) (h : bool) (w : world) email password :
  m_register (e_mail E (w_mails w)) = Some (email, password) ->
  b_start (e_browser E (w_browsers w)) = true ->
  b_login (e_browser E (w_browsers w)) = false ->
  register_attempt E h w =
    (None, mkWorld (w_trace w ++ failed_login_attempt h (w_mails w) (w_browsers w)
                                   email password)
                   (w_accounts w) (w_finds w) (1 + w_mails w)
                   (1 + w_browsers w) (w_writes w)).
Proof.
  intros Hr Hs Hl. unfold_paths. cbn. rewrite Hr. cbn. rewrite Hs. cbn.
  rewrite Hl. cbn. now rewrite <- !app_assoc.
Qed.

(** What [safe] says about the stored bundles. *)
Lemma safe_stored (w : world) :
  safe w -> Forall (fun d => secure_c_ses d <> EmptyString) (stored (w_trace w)).
Proof.
  unfold safe, stored. induction 1 as [|e t He _ IH]; simpl; [constructor|].
  destruct e; simpl; try exact IH.
  constructor; [|exact IH]. simpl in He. intros Hempty. rewrite Hempty in He.
  discriminate.
Qed.

Lemma safe_initial (accounts : list Utils.account) : safe (initial accounts).
Proof. constructor. Qed.

End OrchestratorFacts.

(* ===================================================================== *)
(** * Part III: the specification's claims                                *)
(* ===================================================================== *)

Import DateTime Samples.

(** ** The artifact store: default expiry *)

(** C9.  [update_accounts_json] computes its default expiry with
    [replace(day=day+7)].  Whenever the day of the month plus seven exceeds
    the last day of the current month, that call raises: the function
    returns nothing, [write_json_file] is never reached, and a caller that
    catches the exception finds accounts.json as it was. *)
Theorem update_accounts_json_raises_at_month_end
    (now : datetime) (accounts : list Utils.account) (email : string)
    (cd : cookie_data) :
  days_in_month (year now) (month now) < day now + 7 ->
  replace_day now (day now + 7) = None /\
  Utils.update_accounts_json now accounts email cd = None /\
  forall (E : Orchestrator.env) (w : Orchestrator.world),
    Orchestrator.e_now E (Orchestrator.w_writes w) = now ->
    Orchestrator.w_accounts w = accounts ->
    (Orchestrator.update_accounts_json E email cd w).1 = false /\
    Orchestrator.w_accounts (Orchestrator.update_accounts_json E email cd w).2
      = accounts.
Proof.
  intros H. pose proof (UtilsFacts.replace_day_None now _ H) as R.
  assert (U : forall a, Utils.update_accounts_json now a email cd = None).
  { intros a. unfold Utils.update_accounts_json. now rewrite R. }
  split; [exact R|]. split; [apply U|].
  intros E w Hnow Hacc. unfold Orchestrator.update_accounts_json.
  rewrite Hnow, U. split; [reflexivity|exact Hacc].
Qed.

(** On 25 January the write fails, although 1 February exists. *)
Lemma update_accounts_json_raises_at_month_end_witness :
  valid (mkDT 2025 1 25 10 30 0) /\
  days_in_month 2025 1 < 25 + 7 /\
  add_days (mkDT 2025 1 25 10 30 0) 7 = Some (mkDT 2025 2 1 10 30 0) /\
  Utils.update_accounts_json (mkDT 2025 1 25 10 30 0) [] "t1234abc@virgilian.com"
    sample_bundle = None.
Proof.
  split; [unfold valid, MINYEAR, MAXYEAR; cbn; lia|].
  split; [reflexivity|]. split; [reflexivity|].
  apply (update_accounts_json_raises_at_month_end (mkDT 2025 1 25 10 30 0) []
           "t1234abc@virgilian.com" sample_bundle).
  reflexivity.
Defined.

(** C10.  Whenever [update_accounts_json] completes, the record it writes
    for [email] carries as [expires_at] the local default, the current
    date-time with its day field increased by seven; the [expires_at] of
    the bundle it was given has no influence on what is written. *)
Theorem update_accounts_json_writes_default_expiry
    (now : datetime) (accounts accounts' : list Utils.account) (email : string)
    (cd : cookie_data) :
  Utils.update_accounts_json now accounts email cd = Some accounts' ->
  (exists r, accounts' !! UtilsSpec.target_index email accounts = Some r /\
     Utils.acc_email r = Some email /\
     Utils.acc_secure_c_ses r = secure_c_ses cd /\
     Utils.acc_expires_at r = strftime (UtilsSpec.day_plus_7 now)) /\
  forall x : string,
    Utils.update_accounts_json now accounts email (Browser.with_expires_at x cd)
      = Some accounts'.
Proof.
  intros H. split.
  - destruct (UtilsFacts.update_accounts_json_record _ _ _ _ _ H)
      as (r & Hr & He & Hs & Hx & _).
    exists r. auto.
  - intros x. now rewrite UtilsFacts.update_accounts_json_ignores_expires_at.
Qed.

(** A bundle that says 20 January 20:00 is stored on 10 January 08:00 with
    17 January 08:00. *)
Lemma update_accounts_json_writes_default_expiry_witness :
  exists accounts',
    Utils.update_accounts_json (mkDT 2025 1 10 8 0 0) [] "t1234abc@virgilian.com"
      sample_bundle = Some accounts' /\
    exists r, accounts' !! 0%nat = Some r /\
      Utils.acc_expires_at r = "2025-01-17 08:00:00" /\
      expires_at sample_bundle = "2025-01-20 20:00:00".
Proof.
  eexists. split; [reflexivity|].
  destruct (update_accounts_json_writes_default_expiry (mkDT 2025 1 10 8 0 0) [] _
              "t1234abc@virgilian.com" sample_bundle eq_refl)
    as [(r & Hr & _ & _ & Hx) _].
  exists r. split; [exact Hr|]. split; [exact Hx|reflexivity].
Defined.

(** ** Cookie extraction *)

Import Browser.




(** ** The navigation wait of [enter_verification_code] *)

(** C8 (amended).  Once the code is submitted, [enter_verification_code]
    reads the page URL up to ten times, three seconds apart, and returns
    true at the first read that shows a logged-in keyword.  Failure
    keywords are not looked at during these ten reads: only when none of
    them showed a logged-in keyword is the URL read once more, and the
    result is false if that URL holds a failure keyword and true
    otherwise. *)
Theorem enter_verification_code_navigation_wait (pg : page) (code : string) :
  find_code_input (code_input_found pg) 0 10 = true ->
  input_steps_ok pg = true ->
  (forall j : nat, (j < 10)%nat ->
     (forall i : nat, (i < j)%nat -> BrowserSpec.logged_in (page_url pg i) = false) ->
     BrowserSpec.logged_in (page_url pg j) = true ->
     enter_verification_code pg code = (true, S j)) /\
  ((forall i : nat, (i < 10)%nat -> BrowserSpec.logged_in (page_url pg i) = false) ->
   enter_verification_code pg code
     = (negb (BrowserSpec.failed (page_url pg 10)), 10%nat)).
Proof.
  intros Hfound Hsteps. unfold enter_verification_code.
  rewrite Hfound, Hsteps. simpl negb. cbv iota. split.
  - intros j Hj Hbefore Hhit.
    apply (BrowserFacts.wait_navigation_hit (page_url pg) 10 0 j); assumption.
  - intros Hmiss.
    apply (BrowserFacts.wait_navigation_miss (page_url pg) 10 0). assumption.
Qed.

Lemma enter_verification_code_navigation_wait_witness :
  enter_verification_code slow_redirect "482193" = (true, 3%nat).
Proof.
  destruct (enter_verification_code_navigation_wait slow_redirect "482193"
              eq_refl eq_refl) as [Hhit _].
  apply (Hhit 2%nat).
  - lia.
  - intros [|[|i]] Hi; [reflexivity|reflexivity|lia].
  - reflexivity.
Defined.

(** C8, as stated, fails: on [slow_redirect] the first read shows the
    failure keywords [verify] and [oob], and a wait that answered false at
    once would stop there after one sleep; the code goes on and returns
    true at the third read. *)
Lemma failure_keyword_does_not_end_the_wait :
  BrowserSpec.failed (page_url slow_redirect 0) = true /\
  BrowserSpec.wait_navigation_as_stated (page_url slow_redirect) 0 10
    = (false, 1%nat) /\
  enter_verification_code slow_redirect "482193" = (true, 3%nat).
Proof. repeat split; reflexivity. Qed.

(** ** Verification codes *)

Import Mail.



(** ** Node selection *)

Import Clash.



(** ** The acquisition paths *)

Import Orchestrator.

(** C5.  When a healthy node is found and the browser [login] step returns
    false whenever it is called, [register_new_account] (and with it
    [register_single_account]) goes through exactly three attempts: it
    creates three new mail clients and calls [register] on each, calls
    [login] at most three times, and returns none.  If moreover every
    mailbox registration succeeds and every browser starts, the events are
    those of three failed attempts, each with the identity registered in
    that attempt.  When no healthy node is found (none, or an empty name)
    it returns none right after the search, and no mail client or browser
    is created. *)
Theorem register_exhausts_three_attempts (E : env) (h : bool) (w : world) :
  (forall node,
     e_find_healthy_node E (w_finds w) = Some node -> PyStr.truthy node = true ->
     (forall k, b_login (e_browser E k) = false) ->
     (exists evs nb,
        register_new_account E h w =
          (None, mkWorld (w_trace w ++ FindHealthyNode :: evs) (w_accounts w)
                         (1 + w_finds w) (3 + w_mails w) (nb + w_browsers w)
                         (w_writes w)) /\
        count is_new_mail evs = 3%nat /\ count is_register evs = 3%nat /\
        (count is_login evs <= 3)%nat /\ (nb <= 3)%nat) /\
     (forall e0 p0 e1 p1 e2 p2,
        m_register (e_mail E (w_mails w)) = Some (e0, p0) ->
        m_register (e_mail E (1 + w_mails w)) = Some (e1, p1) ->
        m_register (e_mail E (2 + w_mails w)) = Some (e2, p2) ->
        (forall k, b_start (e_browser E k) = true) ->
        w_trace (register_new_account E h w).2 =
          w_trace w ++ FindHealthyNode ::
            OrchestratorSpec.failed_login_attempt h (w_mails w) (w_browsers w) e0 p0 ++
            OrchestratorSpec.failed_login_attempt h (1 + w_mails w) (1 + w_browsers w) e1 p1 ++
            OrchestratorSpec.failed_login_attempt h (2 + w_mails w) (2 + w_browsers w) e2 p2)) /\
  (e_find_healthy_node E (w_finds w) = None \/
   e_find_healthy_node E (w_finds w) = Some EmptyString ->
   register_new_account E h w =
     (None, mkWorld (w_trace w ++ [FindHealthyNode]) (w_accounts w)
                    (1 + w_finds w) (w_mails w) (w_browsers w) (w_writes w))) /\
  register_single_account E = register_new_account E false.
Proof.
  split; [|split; [|reflexivity]].
  - intros node Hnode Htruthy Hlogin.
    assert (Hstart : register_new_account E h w =
              register_loop E h 3
                (mkWorld (w_trace w ++ [FindHealthyNode]) (w_accounts w)
                         (1 + w_finds w) (w_mails w) (w_browsers w) (w_writes w))).
    { unfold register_new_account, find_healthy_node, bind.
      rewrite Hnode, Htruthy. reflexivity. }
    split.
    + destruct (OrchestratorFacts.register_loop_login_false E h 3
                  (mkWorld (w_trace w ++ [FindHealthyNode]) (w_accounts w)
                           (1 + w_finds w) (w_mails w) (w_browsers w) (w_writes w))
                  Hlogin) as (evs & nb & Hrun & Hcounts).
      exists evs, nb. split; [|exact Hcounts].
      rewrite Hstart, Hrun. cbn [w_trace w_accounts w_finds w_mails w_browsers w_writes].
      now rewrite <- app_assoc.
    + intros e0 p0 e1 p1 e2 p2 H0 H1 H2 Hs. rewrite Hstart.
      cbn [register_loop]. unfold bind.
      rewrite (OrchestratorFacts.register_attempt_failed_login E h _ e0 p0);
        [|exact H0|apply Hs|apply Hlogin].
      cbn [w_trace w_accounts w_finds w_mails w_browsers w_writes].
      rewrite (OrchestratorFacts.register_attempt_failed_login E h _ e1 p1);
        [|exact H1|apply Hs|apply Hlogin].
      cbn [w_trace w_accounts w_finds w_mails w_browsers w_writes].
      rewrite (OrchestratorFacts.register_attempt_failed_login E h _ e2 p2);
        [|exact H2|apply Hs|apply Hlogin].
      cbn [w_trace w_accounts w_finds w_mails w_browsers w_writes ret snd].
      rewrite <- !app_assoc. reflexivity.
  - intros Hnone. unfold register_new_account, find_healthy_node, bind.
    destruct Hnone as [-> | ->]; reflexivity.
Qed.

Lemma register_exhausts_three_attempts_witness :
  (register_new_account login_always_false true (initial [])).1 = None /\
  w_trace (register_new_account login_always_false true (initial [])).2 =
    [FindHealthyNode;
     NewMailClient 0; Register 0; NewBrowser 0 true; Start 0;
     Login 0 "t0@virgilian.com" "Pwd"; Stop 0;
     NewMailClient 1; Register 1; NewBrowser 1 true; Start 1;
     Login 1 "t1@virgilian.com" "Pwd"; Stop 1;
     NewMailClient 2; Register 2; NewBrowser 2 true; Start 2;
     Login 2 "t2@virgilian.com" "Pwd"; Stop 2].
Proof.
  destruct (register_exhausts_three_attempts login_always_false true (initial []))
    as (Hthree & _ & _).
  destruct (Hthree "jp-03" eq_refl eq_refl (fun _ => eq_refl)) as [Hcount Htrace].
  split.
  - destruct Hcount as (evs & nb & -> & _). reflexivity.
  - apply (Htrace "t0@virgilian.com" "Pwd" "t1@virgilian.com" "Pwd"
                  "t2@virgilian.com" "Pwd")%string;
      first [reflexivity | intros; reflexivity].
Defined.

(** *** Results of the paths in terms of the environment *)

Import OrchestratorSpec OrchestratorFacts.

Lemma register_loop_first_success (E : env) (h : bool) (n : nat) (w : world)
    (d : cookie_data) :
  (register_attempt E h w).1 = Some d -> (register_loop E h (S n) w).1 = Some d.
Proof.
  intros H. cbn [register_loop]. unfold bind.
  destruct (register_attempt E h w) as [r w1]. simpl in H. subst r. reflexivity.
Qed.

Lemma register_loop_no_session (E : env) (h : bool) (n : nat) (w : world) :
  (forall k, PyStr.truthy (secure_c_ses (extracted E k)) = false) ->
  (register_loop E h n w).1 = None.
Proof.
  intros Hempty. revert w. induction n as [|n IH]; intros w; [reflexivity|].
  cbn [register_loop]. unfold bind.
  pose proof (register_attempt_result E h w) as Hr.
  destruct (register_attempt E h w) as [r w1]. simpl in Hr. subst r.
  rewrite Hempty, andb_false_r.
  destruct (m_register (e_mail E (w_mails w))) as [[e p]|]; apply IH.
Qed.

Lemma register_new_account_no_session (E : env) (h : bool) (w : world) :
  (forall k, PyStr.truthy (secure_c_ses (extracted E k)) = false) ->
  (register_new_account E h w).1 = None.
Proof.
  intros Hempty. unfold register_new_account, bind.
  destruct (find_healthy_node E w) as [[node|] w1]; [|reflexivity].
  now apply register_loop_no_session.
Qed.

Lemma register_new_account_result (E : env) (h : bool) (w : world)
    (node email password : string) :
  e_find_healthy_node E (w_finds w) = Some node -> PyStr.truthy node = true ->
  m_register (e_mail E (w_mails w)) = Some (email, password) ->
  steps_ok E (w_mails w) (w_browsers w) = true ->
  PyStr.truthy (secure_c_ses (extracted E (w_browsers w))) = true ->
  (register_new_account E h w).1 =
    Some (set_password password (set_email email (extracted E (w_browsers w)))).
Proof.
  intros Hnode Hn Hreg Hsteps Hses.
  unfold register_new_account, find_healthy_node, bind. rewrite Hnode, Hn.
  apply register_loop_first_success. rewrite register_attempt_result.
  cbn [w_mails w_browsers]. now rewrite Hreg, Hsteps, Hses.
Qed.

Lemma refresh_single_account_result (E : env) (email password : string)
    (w : world) (node : string) :
  e_find_healthy_node E (w_finds w) = Some node -> PyStr.truthy node = true ->
  m_login_existing (e_mail E (w_mails w)) = true ->
  (refresh_single_account E email password w).1 =
    if steps_ok E (w_mails w) (w_browsers w) &&
       PyStr.truthy (secure_c_ses (extracted E (w_browsers w)))
    then Some (set_password password (set_email email (extracted E (w_browsers w))))
    else None.
Proof.
  intros Hnode Hn Hlogin. unfold steps_ok, extracted.
  run_paths; first [reflexivity | congruence].
Qed.

Lemma process_existing_account_result (E : env) (email password : string)
    (h : bool) (w : world) (node : string) :
  PyStr.truthy email = true ->
  e_find_healthy_node E (w_finds w) = Some node -> PyStr.truthy node = true ->
  (process_existing_account E email password h None w).1 =
    steps_ok E (w_mails w) (w_browsers w) &&
    PyStr.truthy (secure_c_ses (extracted E (w_browsers w))) &&
    write_completes E w email (set_email email (extracted E (w_browsers w))).
Proof.
  intros He Hnode Hn. unfold steps_ok, extracted, write_completes.
  run_paths; first [reflexivity | congruence].
Qed.

Lemma refresh_single_account_no_session (E : env) (email password : string)
    (w : world) :
  (forall k, PyStr.truthy (secure_c_ses (extracted E k)) = false) ->
  (refresh_single_account E email password w).1 = None.
Proof.
  intros Hempty. pose proof (Hempty (w_browsers w)) as H. unfold extracted in H.
  run_paths; first [reflexivity | congruence].
Qed.

Lemma process_existing_account_no_session (E : env) (email password : string)
    (h : bool) (proxy_node : option string) (w : world) :
  (forall k, PyStr.truthy (secure_c_ses (extracted E k)) = false) ->
  (process_existing_account E email password h proxy_node w).1 = false.
Proof.
  intros Hempty. pose proof (Hempty (w_browsers w)) as H. unfold extracted in H.
  destruct proxy_node as [n|]; run_paths; first [reflexivity | congruence].
Qed.

(** C1.  On every acquisition path the session cookie decides alone:

    - whatever the environment does, every bundle handed to
      [update_accounts_json] by the register loop of [main_async], by its
      refresh loop (through [process_existing_account]), by
      [run_register_task] and by [run_refresh_task] has a non-empty
      [secure_c_ses];
    - an attempt whose extraction yields an empty [secure_c_ses] fails:
      when every extraction does, [register_new_account],
      [register_single_account] and [refresh_single_account] return none
      and [process_existing_account] returns false;
    - when the steps before the extraction succeed, a bundle with a
      non-empty [secure_c_ses] is the result, whatever its other fields
      hold: the register paths and [refresh_single_account] return it with
      the identity merged in, and [process_existing_account] hands it to
      [update_accounts_json] and returns true once that call returns. *)
Theorem session_cookie_is_the_success_predicate (E : env) :
  (forall accounts h count,
     Forall (fun d => secure_c_ses d <> EmptyString)
       (stored (w_trace (main_register E h count 0 0 (initial accounts)).2))) /\
  (forall accounts h proxy_node csv,
     Forall (fun d => secure_c_ses d <> EmptyString)
       (stored (w_trace (main_refresh E h proxy_node csv (initial accounts)).2))) /\
  (forall accounts count,
     Forall (fun d => secure_c_ses d <> EmptyString)
       (stored (w_trace (run_register_task E count (initial accounts)).2))) /\
  (forall accounts email password,
     Forall (fun d => secure_c_ses d <> EmptyString)
       (stored (w_trace (run_refresh_task E email password (initial accounts)).2))) /\
  ((forall k, secure_c_ses (extracted E k) = EmptyString) ->
   forall h email password proxy_node w,
     (register_new_account E h w).1 = None /\
     (register_single_account E w).1 = None /\
     (refresh_single_account E email password w).1 = None /\
     (process_existing_account E email password h proxy_node w).1 = false) /\
  (forall h w node email password,
     e_find_healthy_node E (w_finds w) = Some node -> PyStr.truthy node = true ->
     steps_ok E (w_mails w) (w_browsers w) = true ->
     secure_c_ses (extracted E (w_browsers w)) <> EmptyString ->
     (m_register (e_mail E (w_mails w)) = Some (email, password) ->
      (register_new_account E h w).1 =
        Some (set_password password (set_email email (extracted E (w_browsers w)))) /\
      (register_single_account E w).1 =
        Some (set_password password (set_email email (extracted E (w_browsers w))))) /\
     (m_login_existing (e_mail E (w_mails w)) = true ->
      (refresh_single_account E email password w).1 =
        Some (set_password password (set_email email (extracted E (w_browsers w))))) /\
     (PyStr.truthy email = true ->
      (process_existing_account E email password h None w).1 =
        write_completes E w email (set_email email (extracted E (w_browsers w))))).
Proof.
  assert (Htruthy : forall s, s <> EmptyString -> PyStr.truthy s = true)
    by (intros [|c s] H; [congruence|reflexivity]).
  split; [|split; [|split; [|split; [|split]]]].
  - intros accounts h count. apply safe_stored.
    apply (keeps_main_register E h count 0 0 (initial accounts)), safe_initial.
  - intros accounts h proxy_node csv. apply safe_stored.
    apply (keeps_main_refresh E h proxy_node csv (initial accounts)), safe_initial.
  - intros accounts count. apply safe_stored.
    apply (keeps_run_register_loop E count [] (initial accounts)), safe_initial.
  - intros accounts email password. apply safe_stored.
    apply (keeps_run_refresh_task E email password (initial accounts)), safe_initial.
  - intros Hempty h email password proxy_node w.
    assert (Hf : forall k, PyStr.truthy (secure_c_ses (extracted E k)) = false)
      by (intros k; now rewrite Hempty).
    split; [now apply register_new_account_no_session|].
    split; [now apply (register_new_account_no_session E false)|].
    split; [now apply refresh_single_account_no_session|].
    now apply process_existing_account_no_session.
  - intros h w node email password Hnode Hn Hsteps Hses.
    apply Htruthy in Hses. split; [|split].
    + intros Hreg. split.
      * now apply (register_new_account_result E h w node).
      * now apply (register_new_account_result E false w node).
    + intros Hlogin.
      rewrite (refresh_single_account_result E email password w node Hnode Hn Hlogin).
      now rewrite Hsteps, Hses.
    + intros He.
      rewrite (process_existing_account_result E email password h w node He Hnode Hn).
      now rewrite Hsteps, Hses.
Qed.

Lemma session_cookie_is_the_success_predicate_witness :
  (register_new_account only_session_cookie true (initial [])).1 =
    Some (mkCookieData "CAESxyz" "" "" "" ""
            (Some "t1234abc@virgilian.com") (Some "Pwdabc1234")) /\
  (refresh_single_account only_session_cookie "t1234abc@virgilian.com" "Pwdabc1234"
     (initial [])).1 =
    Some (mkCookieData "CAESxyz" "" "" "" ""
            (Some "t1234abc@virgilian.com") (Some "Pwdabc1234")) /\
  (process_existing_account only_session_cookie "t1234abc@virgilian.com" "Pwdabc1234"
     true None (initial [])).1 = true.
Proof.
  destruct (session_cookie_is_the_success_predicate only_session_cookie)
    as (_ & _ & _ & _ & _ & Hok).
  destruct (Hok true (initial []) "jp-03" "t1234abc@virgilian.com" "Pwdabc1234")
    as (Hreg & Href & Hproc);
    [reflexivity | reflexivity | vm_compute; reflexivity | discriminate |].
  split; [apply Hreg; reflexivity|].
  split; [apply Href; reflexivity|].
  rewrite Hproc by reflexivity. vm_compute. reflexivity.
Defined.

(** C6 (amended).  The refresh paths make a single attempt.  Each call of
    [refresh_single_account] or [process_existing_account] creates at most
    one mail client and one browser session and calls [start] and [login]
    at most once; a browser session that was created is stopped as the
    last action; and the call succeeds only if every step of that one
    attempt succeeded, so that a failed step (login false, no code, code
    refused, completion time-out, missing session cookie) ends the call
    with none, or false, and no second attempt. *)
Theorem refresh_is_a_single_attempt
    (E : env) (email password : string) (h : bool) (proxy_node : option string)
    (w : world) :
  (exists evs r w',
     refresh_single_account E email password w = (r, w') /\
     w_trace w' = w_trace w ++ evs /\
     (count is_new_mail evs <= 1)%nat /\ (count is_new_browser evs <= 1)%nat /\
     (count is_start evs <= 1)%nat /\ (count is_login evs <= 1)%nat /\
     (count is_new_browser evs = 1%nat -> list.last evs = Some (Stop (w_browsers w))) /\
     (r <> None ->
      steps_ok E (w_mails w) (w_browsers w) = true /\
      PyStr.truthy (secure_c_ses (extracted E (w_browsers w))) = true)) /\
  (exists evs r w',
     process_existing_account E email password h proxy_node w = (r, w') /\
     w_trace w' = w_trace w ++ evs /\
     (count is_new_mail evs <= 1)%nat /\ (count is_new_browser evs <= 1)%nat /\
     (count is_start evs <= 1)%nat /\ (count is_login evs <= 1)%nat /\
     (count is_new_browser evs = 1%nat -> list.last evs = Some (Stop (w_browsers w))) /\
     (r = true ->
      steps_ok E (w_mails w) (w_browsers w) = true /\
      PyStr.truthy (secure_c_ses (extracted E (w_browsers w))) = true)).
Proof.
  unfold steps_ok, extracted. split.
  - run_paths; rewrite <- ?app_assoc; cbn;
      (eexists _, _, _; split; [reflexivity|];
       split; [first [reflexivity | symmetry; apply app_nil_r]|];
       cbn; repeat split; first [lia | reflexivity | congruence]).
  - destruct proxy_node as [n|];
      run_paths; rewrite <- ?app_assoc; cbn;
      (eexists _, _, _; split; [reflexivity|];
       split; [first [reflexivity | symmetry; apply app_nil_r]|];
       cbn; repeat split; first [lia | reflexivity | congruence]).
Qed.

Lemma refresh_is_a_single_attempt_witness :
  (refresh_single_account login_always_false "t0@virgilian.com" "Pwd" (initial [])).1
    = None /\
  w_trace (refresh_single_account login_always_false "t0@virgilian.com" "Pwd"
             (initial [])).2 =
    [FindHealthyNode; NewMailClient 0; LoginExisting 0 "t0@virgilian.com" "Pwd";
     NewBrowser 0 false; Start 0; Login 0 "t0@virgilian.com" "Pwd"; Stop 0].
Proof.
  destruct (refresh_is_a_single_attempt login_always_false "t0@virgilian.com" "Pwd"
              true None (initial [])) as [(evs & r & w' & Hrun & Htrace & _) _].
  rewrite Hrun in *. vm_compute in Hrun. injection Hrun as <- <-.
  split; reflexivity.
Defined.

(** C6, as stated, fails: where [login] always returns false the register
    pipeline goes through three attempts, but each refresh path stops
    after one: one browser session, one call of [login], and none (or
    false) returned. *)
Lemma refresh_does_not_retry :
  count is_login
    (w_trace (register_new_account login_always_false true (initial [])).2) = 3%nat /\
  count is_login
    (w_trace (refresh_single_account login_always_false "t0@virgilian.com" "Pwd"
                (initial [])).2) = 1%nat /\
  count is_new_browser
    (w_trace (refresh_single_account login_always_false "t0@virgilian.com" "Pwd"
                (initial [])).2) = 1%nat /\
  (refresh_single_account login_always_false "t0@virgilian.com" "Pwd"
     (initial [])).1 = None /\
  count is_login
    (w_trace (process_existing_account login_always_false "t0@virgilian.com" "Pwd"
                true None (initial [])).2) = 1%nat /\
  (process_existing_account login_always_false "t0@virgilian.com" "Pwd"
     true None (initial [])).1 = false.
Proof. repeat split; vm_compute; reflexivity. Qed.

(** C7.  [refresh_single_account] never registers a mailbox and binds the
    client once, with [login_existing], but it never clears the inbox:
    in no environment does its trace hold a [ClearInbox], so the code it
    then waits for may be one that was already in the inbox.
    [process_existing_account], its sibling, does clear the inbox between
    [start] and [login].  Both are shown on an environment in which every
    step succeeds. *)
Theorem refresh_single_account_skips_clear_inbox :
  (forall E email password w,
     exists evs, w_trace (refresh_single_account E email password w).2
                   = w_trace w ++ evs /\
       count is_clear_inbox evs = 0%nat /\ count is_register evs = 0%nat /\
       (count is_binding evs <= 1)%nat) /\
  w_trace (refresh_single_account only_session_cookie "t1234abc@virgilian.com"
             "Pwdabc1234" (initial [])).2 =
    [FindHealthyNode; NewMailClient 0;
     LoginExisting 0 "t1234abc@virgilian.com" "Pwdabc1234";
     NewBrowser 0 false; Start 0;
     Login 0 "t1234abc@virgilian.com" "Pwdabc1234";
     WaitForCode 0 30; EnterVerificationCode 0 "482193";
     WaitForLoginComplete 0 60; ExtractCookies 0; Stop 0] /\
  w_trace (process_existing_account only_session_cookie "t1234abc@virgilian.com"
             "Pwdabc1234" true None (initial [])).2 =
    [FindHealthyNode; NewMailClient 0;
     SetCredentials 0 "t1234abc@virgilian.com" "Pwdabc1234";
     NewBrowser 0 true; Start 0; ClearInbox 0;
     Login 0 "t1234abc@virgilian.com" "Pwdabc1234";
     WaitForCode 0 30; EnterVerificationCode 0 "482193";
     WaitForLoginComplete 0 60; ExtractCookies 0;
     UpdateAccountsJson "t1234abc@virgilian.com"
       (set_email "t1234abc@virgilian.com" bare_session);
     Stop 0].
Proof.
  split; [|split; vm_compute; reflexivity].
  intros E email password w.
  run_paths; rewrite <- ?app_assoc; cbn;
    (eexists; split; [first [reflexivity | symmetry; apply app_nil_r]|];
     cbn; repeat split; lia).
Qed.

(* ===================================================================== *)
(** * Part IV: further properties of the code                             *)
(* ===================================================================== *)

(** ** The artifact store as a keyed collection *)
Module StoreFacts.
Import DateTime Utils UtilsSpec UtilsFacts StoreSpec.

Lemma email_is_true (email : string) (a : account) :
  email_is email a = true <-> acc_email a = Some email.
Proof.
  unfold email_is. destruct (acc_email a) as [e|]; [|split; discriminate].
  rewrite String.eqb_eq. split; congruence.
Qed.

(** The search returns the first record with the email. *)
Lemma find_existing_idx_Some (email : string) (accounts : list account) (i : nat) :
  find_existing_idx email accounts = Some i ->
  (exists a, accounts !! i = Some a /\ acc_email a = Some email) /\
  forall j b, (j < i)%nat -> accounts !! j = Some b -> acc_email b <> Some email.
Proof.
  revert i. induction accounts as [|a rest IH]; intros i H; simpl in H; [discriminate|].
  destruct (email_is email a) eqn:E.
  - injection H as <-. split; [|intros; lia].
    exists a. split; [reflexivity|]. now apply email_is_true.
  - destruct (find_existing_idx email rest) as [k|]; simpl in H; [|discriminate].
    injection H as <-. destruct (IH k eq_refl) as [(b & Hb & He) Hbefore].
    split; [exists b; auto|].
    intros [|j] c Hj Hc; simpl in Hc.
    + injection Hc as <-. intros Hx. apply email_is_true in Hx. congruence.
    + apply (Hbefore j c); [lia|assumption].
Qed.

Lemma find_existing_idx_None (email : string) (accounts : list account) :
  find_existing_idx email accounts = None <->
  Forall (fun a => acc_email a <> Some email) accounts.
Proof.
  induction accounts as [|a rest IH]; simpl.
  - split; [constructor|reflexivity].
  - destruct (email_is email a) eqn:E.
    + split; [discriminate|]. intros H. inversion H as [|? ? Ha _]; subst.
      apply email_is_true in E. contradiction.
    + destruct (find_existing_idx email rest) as [k|]; simpl.
      * split; [discriminate|]. intros H. inversion H as [|? ? _ Hr]; subst.
        apply IH in Hr. discriminate.
      * split; [|reflexivity]. intros _. constructor.
        -- intros Hx. apply email_is_true in Hx. congruence.
        -- now apply IH.
Qed.

Lemma find_existing_idx_intro (email : string) (accounts : list account) (i : nat)
    (a : account) :
  accounts !! i = Some a -> acc_email a = Some email ->
  (forall j b, (j < i)%nat -> accounts !! j = Some b -> acc_email b <> Some email) ->
  find_existing_idx email accounts = Some i.
Proof.
  revert i. induction accounts as [|c rest IH]; intros i Hi He Hbefore; [discriminate|].
  simpl. destruct i as [|i]; simpl in Hi.
  - injection Hi as ->. apply email_is_true in He. now rewrite He.
  - destruct (email_is email c) eqn:E.
    + apply email_is_true in E. exfalso.
      apply (Hbefore 0%nat c); [lia|reflexivity|assumption].
    + rewrite (IH i Hi He); [reflexivity|].
      intros j b Hj Hb. apply (Hbefore (S j) b); [lia|exact Hb].
Qed.

(** Overwriting the record found with one of the same email, and appending
    a record with an email not yet in the file, both make the search find
    the new record. *)
Lemma find_existing_idx_insert (email : string) (accounts : list account) (i : nat)
    (r : account) :
  find_existing_idx email accounts = Some i -> acc_email r = Some email ->
  find_existing_idx email (<[i := r]> accounts) = Some i.
Proof.
  intros F Hr. destruct (find_existing_idx_Some _ _ _ F) as [_ Hbefore].
  apply (find_existing_idx_intro email _ i r).
  - apply list_lookup_insert_eq. eapply find_existing_idx_lt; eauto.
  - exact Hr.
  - intros j b Hj Hb. rewrite list_lookup_insert_ne in Hb by lia. eauto.
Qed.

Lemma find_existing_idx_snoc (email : string) (accounts : list account) (r : account) :
  find_existing_idx email accounts = None -> acc_email r = Some email ->
  find_existing_idx email (accounts ++ [r]) = Some (length accounts).
Proof.
  intros F Hr. apply find_existing_idx_None in F.
  apply (find_existing_idx_intro email _ _ r).
  - rewrite lookup_app_r by lia. now rewrite Nat.sub_diag.
  - exact Hr.
  - intros j b Hj Hb. rewrite lookup_app_l in Hb by lia.
    rewrite Forall_lookup in F. eauto.
Qed.

(** The record [update_accounts_json] writes, and where. *)
Lemma update_accounts_json_inv (now : datetime) (accounts accounts' : list account)
    (email : string) (cd : cookie_data) :
  update_accounts_json now accounts email cd = Some accounts' ->
  exists r,
    acc_email r = Some email /\
    acc_secure_c_ses r = secure_c_ses cd /\
    acc_csesidx r = csesidx cd /\
    acc_config_id r = config_id cd /\
    acc_host_c_oses r = host_c_oses cd /\
    acc_updated_at r = strftime now /\
    match find_existing_idx email accounts with
    | Some i =>
        accounts' = <[i := r]> accounts /\
        exists a, accounts !! i = Some a /\ acc_email a = Some email /\
          acc_id r = acc_id a /\
          acc_created_at r = Some (default (strftime now) (acc_created_at a))
    | None =>
        accounts' = accounts ++ [r] /\
        acc_id r = Some (nth_id (S (length accounts))) /\
        acc_created_at r = Some (strftime now)
    end.
Proof.
  unfold update_accounts_json.
  destruct (replace_day now (day now + 7)) as [exp|]; [|discriminate].
  destruct (find_existing_idx email accounts) as [i|] eqn:F; simpl.
  - destruct (find_existing_idx_Some _ _ _ F) as [(a & Ha & He) _].
    rewrite Ha. simpl. intros H. injection H as <-.
    refine (ex_intro _ (mkAccount _ _ _ _ _ _ _ _ _) _); cbn.
    do 6 (split; [reflexivity|]).
    split; [reflexivity|]. exists a. auto.
  - intros H. injection H as <-.
    refine (ex_intro _ (mkAccount _ _ _ _ _ _ _ _ _) _); cbn.
    do 6 (split; [reflexivity|]).
    split; [reflexivity|]. split; [|reflexivity].
    unfold nth_id. now rewrite Nat.add_1_r.
Qed.

Lemma target_index_found (email : string) (accounts : list account) (i : nat) :
  find_existing_idx email accounts = Some i -> target_index email accounts = i.
Proof. unfold target_index. now intros ->. Qed.

Lemma target_index_new (email : string) (accounts : list account) :
  find_existing_idx email accounts = None ->
  target_index email accounts = length accounts.
Proof. unfold target_index. now intros ->. Qed.

(** *** The emails of the file *)

Lemma emails_insert (accounts : list account) (i : nat) (a r : account) :
  accounts !! i = Some a -> acc_email r = acc_email a ->
  emails (<[i := r]> accounts) = emails accounts.
Proof.
  unfold emails. revert i. induction accounts as [|c rest IH]; intros i Hi He;
    [discriminate|].
  destruct i as [|i]; simpl in *.
  - injection Hi as ->. now rewrite He.
  - destruct (acc_email c); [f_equal|]; apply (IH i Hi He).
Qed.

Lemma emails_snoc (accounts : list account) (r : account) (email : string) :
  acc_email r = Some email -> emails (accounts ++ [r]) = emails accounts ++ [email].
Proof. intros He. unfold emails. rewrite omap_app. simpl. now rewrite He. Qed.

Lemma not_in_emails (email : string) (accounts : list account) :
  find_existing_idx email accounts = None -> ~ In email (emails accounts).
Proof.
  intros F Hin. apply find_existing_idx_None in F.
  unfold emails in Hin. apply list_elem_of_In, list_elem_of_omap in Hin.
  destruct Hin as (a & Ha & He). rewrite Forall_forall in F.
  apply (F a); [now apply list_elem_of_In|exact He].
Qed.

Lemma update_accounts_json_emails (now : datetime) (accounts accounts' : list account)
    (email : string) (cd : cookie_data) :
  update_accounts_json now accounts email cd = Some accounts' ->
  emails accounts' =
    match find_existing_idx email accounts with
    | Some _ => emails accounts
    | None => emails accounts ++ [email]
    end.
Proof.
  intros H. apply update_accounts_json_inv in H as (r & He & _ & _ & _ & _ & _ & H).
  destruct (find_existing_idx email accounts) as [i|].
  - destruct H as (-> & a & Ha & Hea & _). apply (emails_insert _ _ a); congruence.
  - destruct H as (-> & _). now apply emails_snoc.
Qed.

Lemma update_accounts_json_NoDup (now : datetime) (accounts accounts' : list account)
    (email : string) (cd : cookie_data) :
  update_accounts_json now accounts email cd = Some accounts' ->
  NoDup (emails accounts) -> NoDup (emails accounts').
Proof.
  intros H Hnd. rewrite (update_accounts_json_emails _ _ _ _ _ H).
  destruct (find_existing_idx email accounts) as [i|] eqn:F; [assumption|].
  apply list.NoDup_app. split; [assumption|]. split; [|apply NoDup_singleton].
  intros x Hx Hx'. apply list_elem_of_singleton in Hx'. subst x.
  apply (not_in_emails email accounts F). now apply list_elem_of_In.
Qed.

(** *** The ids of the file *)

Lemma update_accounts_json_numbered (now : datetime) (accounts accounts' : list account)
    (email : string) (cd : cookie_data) :
  update_accounts_json now accounts email cd = Some accounts' ->
  numbered accounts -> numbered accounts'.
Proof.
  intros H Hn. apply update_accounts_json_inv in H as (r & _ & _ & _ & _ & _ & _ & H).
  destruct (find_existing_idx email accounts) as [i|] eqn:F.
  - destruct H as (-> & a & Ha & _ & Hid & _). intros j b Hj.
    destruct (decide (j = i)) as [->|Hne].
    + rewrite list_lookup_insert_eq in Hj by (eapply find_existing_idx_lt; eauto).
      injection Hj as <-. rewrite Hid. now apply Hn.
    + rewrite list_lookup_insert_ne in Hj by congruence. now apply Hn.
  - destruct H as (-> & Hid & _). intros j b Hj.
    destruct (decide (j < length accounts)%nat) as [Hlt|Hge].
    + rewrite lookup_app_l in Hj by assumption. now apply Hn.
    + rewrite lookup_app_r in Hj by lia.
      destruct (j - length accounts)%nat as [|k] eqn:D; simpl in Hj; [|discriminate].
      injection Hj as <-. rewrite Hid. do 2 f_equal. lia.
Qed.

Lemma to_uint_nonnil (n : nat) : Nat.to_uint n <> Decimal.Nil.
Proof.
  rewrite <- (DecimalNat.Unsigned.of_to n), DecimalNat.Unsigned.to_of.
  apply DecimalFacts.unorm_nonnil.
Qed.

(** [str] is injective on the natural numbers. *)
Lemma of_nat_inj (n m : nat) : PyStr.of_nat n = PyStr.of_nat m -> n = m.
Proof.
  unfold PyStr.of_nat. intros H.
  apply (f_equal NilZero.uint_of_string) in H.
  rewrite !NilZero.usu in H by apply to_uint_nonnil.
  injection H as H. now apply DecimalNat.Unsigned.to_uint_inj.
Qed.

Lemma append_inj_r (s a b : string) : (s ++ a = s ++ b)%string -> a = b.
Proof.
  induction s as [|c s IH]; simpl; intros H; [assumption|].
  injection H as H. auto.
Qed.

Lemma nth_id_inj (n m : nat) : nth_id n = nth_id m -> n = m.
Proof. unfold nth_id. intros H. now apply of_nat_inj, (append_inj_r "account_"). Qed.

(** Numbered records have distinct ids. *)
Lemma numbered_NoDup (accounts : list account) :
  numbered accounts -> NoDup (map acc_id accounts).
Proof.
  intros Hn. apply NoDup_alt. intros i j x Hi Hj.
  rewrite list_lookup_fmap in Hi, Hj.
  destruct (accounts !! i) as [a|] eqn:Ha; [|discriminate].
  destruct (accounts !! j) as [b|] eqn:Hb; [|discriminate].
  simpl in Hi, Hj. rewrite (Hn _ _ Ha) in Hi. rewrite (Hn _ _ Hb) in Hj.
  rewrite <- Hj in Hi. assert (Hid : nth_id (S i) = nth_id (S j)) by congruence.
  apply nth_id_inj in Hid. lia.
Qed.

Lemma update_accounts_json_well_formed (now : datetime)
    (accounts accounts' : list account) (email : string) (cd : cookie_data) :
  PyStr.truthy (secure_c_ses cd) = true ->
  update_accounts_json now accounts email cd = Some accounts' ->
  well_formed accounts -> well_formed accounts'.
Proof.
  intros Hcd H (Hn & Hnd & Hall). split; [|split].
  - eapply update_accounts_json_numbered; eauto.
  - eapply update_accounts_json_NoDup; eauto.
  - apply update_accounts_json_inv in H as (r & He & Hs & _ & _ & _ & _ & H).
    assert (Hr : is_Some (acc_email r) /\ PyStr.truthy (acc_secure_c_ses r) = true).
    { rewrite He, Hs. split; [eauto|assumption]. }
    destruct (find_existing_idx email accounts) as [i|].
    + destruct H as (-> & _). now apply Forall_insert.
    + destruct H as (-> & _). apply Forall_app. split; [assumption|].
      constructor; [assumption|constructor].
Qed.

End StoreFacts.
(** [update_accounts_json] is an upsert keyed by the email: the file grows
    by one record when the email is new and keeps its length otherwise,
    every record but the one at the target index is left as it was, no
    record before the target carries the email, and afterwards the search
    by which the function locates a record finds the one just written. *)
Theorem update_accounts_json_is_an_upsert
    (now : datetime) (accounts accounts' : list Utils.account) (email : string)
    (cd : cookie_data) :
  Utils.update_accounts_json now accounts email cd = Some accounts' ->
  length accounts' =
    Nat.max (length accounts) (S (UtilsSpec.target_index email accounts)) /\
  (forall j, j <> UtilsSpec.target_index email accounts ->
             accounts' !! j = accounts !! j) /\
  (forall j b, (j < UtilsSpec.target_index email accounts)%nat ->
               accounts !! j = Some b -> Utils.acc_email b <> Some email) /\
  Utils.find_existing_idx email accounts' =
    Some (UtilsSpec.target_index email accounts).
Proof.
  intros H.
  apply StoreFacts.update_accounts_json_inv in H as (r & He & _ & _ & _ & _ & _ & H).
  destruct (Utils.find_existing_idx email accounts) as [i|] eqn:F.
  - destruct H as (-> & a & Ha & _).
    rewrite (StoreFacts.target_index_found _ _ _ F).
    pose proof (UtilsFacts.find_existing_idx_lt _ _ _ F) as Hlt.
    split; [rewrite length_insert; lia|].
    split; [intros j Hj; now rewrite list_lookup_insert_ne by congruence|].
    split; [apply (StoreFacts.find_existing_idx_Some _ _ _ F)|].
    now apply StoreFacts.find_existing_idx_insert.
  - destruct H as (-> & _).
    rewrite (StoreFacts.target_index_new _ _ F).
    split; [rewrite length_app; simpl; lia|].
    split.
    { intros j Hj. destruct (decide (j < length accounts)%nat) as [Hlt|Hge].
      - now rewrite lookup_app_l.
      - rewrite !lookup_ge_None_2; [reflexivity|lia|rewrite length_app; simpl; lia]. }
    split.
    { intros j b _ Hb. apply StoreFacts.find_existing_idx_None in F.
      rewrite Forall_lookup in F. eauto. }
    now apply StoreFacts.find_existing_idx_snoc.
Qed.

(** Refreshing bob in a file of two leaves alice alone and the file at two
    records. *)
Lemma update_accounts_json_is_an_upsert_witness :
  Utils.update_accounts_json (mkDT 2025 1 10 8 0 0) Scenarios.two_accounts
    "bob@virgilian.com" sample_bundle
    = Some [Scenarios.alice; Scenarios.bob_refreshed] /\
  [Scenarios.alice; Scenarios.bob_refreshed] !! 0%nat
    = Scenarios.two_accounts !! 0%nat /\
  Utils.find_existing_idx "bob@virgilian.com"
    [Scenarios.alice; Scenarios.bob_refreshed] = Some 1%nat.
Proof.
  assert (H : Utils.update_accounts_json (mkDT 2025 1 10 8 0 0)
                Scenarios.two_accounts "bob@virgilian.com" sample_bundle
              = Some [Scenarios.alice; Scenarios.bob_refreshed])
    by (vm_compute; reflexivity).
  split; [exact H|].
  destruct (update_accounts_json_is_an_upsert _ _ _ _ _ H) as (_ & Hother & _ & Hfind).
  split; [apply Hother; vm_compute; discriminate|exact Hfind].
Defined.

(** The record [update_accounts_json] writes takes [csesidx], [config_id]
    and [host_c_oses] from the bundle and the time of the call as
    [updated_at].  When it replaces a record, the [id] of that record is
    kept (even a missing one) and so is its [created_at], which becomes the
    time of the call only when the old record had none; a record that is
    added gets the id [account_<n+1>], [n] the number of records in the
    file, and the time of the call as [created_at]. *)
Theorem update_accounts_json_keeps_id_and_created_at
    (now : datetime) (accounts accounts' : list Utils.account) (email : string)
    (cd : cookie_data) :
  Utils.update_accounts_json now accounts email cd = Some accounts' ->
  exists r,
    accounts' !! UtilsSpec.target_index email accounts = Some r /\
    Utils.acc_csesidx r = csesidx cd /\
    Utils.acc_config_id r = config_id cd /\
    Utils.acc_host_c_oses r = host_c_oses cd /\
    Utils.acc_updated_at r = strftime now /\
    match accounts !! UtilsSpec.target_index email accounts with
    | Some a =>
        Utils.acc_email a = Some email /\
        Utils.acc_id r = Utils.acc_id a /\
        Utils.acc_created_at r =
          Some (default (strftime now) (Utils.acc_created_at a))
    | None =>
        UtilsSpec.target_index email accounts = length accounts /\
        Utils.acc_id r = Some (StoreSpec.nth_id (S (length accounts))) /\
        Utils.acc_created_at r = Some (strftime now)
    end.
Proof.
  intros H.
  apply StoreFacts.update_accounts_json_inv in H
    as (r & He & _ & H1 & H2 & H3 & H4 & H).
  exists r. destruct (Utils.find_existing_idx email accounts) as [i|] eqn:F.
  - destruct H as (-> & a & Ha & Hea & Hid & Hc).
    rewrite (StoreFacts.target_index_found _ _ _ F), Ha.
    pose proof (UtilsFacts.find_existing_idx_lt _ _ _ F) as Hlt.
    rewrite list_lookup_insert_eq by assumption. auto 10.
  - destruct H as (-> & Hid & Hc).
    rewrite (StoreFacts.target_index_new _ _ F).
    rewrite lookup_app_r, Nat.sub_diag by lia.
    rewrite (lookup_ge_None_2 accounts) by lia. simpl. auto 10.
Qed.

(** Bob keeps his id and his creation time of 3 January. *)
Lemma update_accounts_json_keeps_id_and_created_at_witness :
  exists r,
    [Scenarios.alice; Scenarios.bob_refreshed] !! 1%nat = Some r /\
    Utils.acc_id r = Some "account_2" /\
    Utils.acc_created_at r = Some "2025-01-03 09:30:00" /\
    Utils.acc_updated_at r = "2025-01-10 08:00:00".
Proof.
  assert (H : Utils.update_accounts_json (mkDT 2025 1 10 8 0 0)
                Scenarios.two_accounts "bob@virgilian.com" sample_bundle
              = Some [Scenarios.alice; Scenarios.bob_refreshed])
    by (vm_compute; reflexivity).
  destruct (update_accounts_json_keeps_id_and_created_at _ _ _ _ _ H)
    as (r & Hr & _ & _ & _ & Hu & Hold).
  exists r. split; [exact Hr|].
  change (Scenarios.two_accounts !! UtilsSpec.target_index "bob@virgilian.com"
            Scenarios.two_accounts) with (Some Scenarios.bob) in Hold.
  destruct Hold as (_ & Hid & Hc). split; [exact Hid|]. split; [exact Hc|].
  rewrite Hu. vm_compute. reflexivity.
Defined.

(** A second call of [update_accounts_json] at the same instant, for the
    same email and bundle, rewrites the file with the same content. *)
Theorem update_accounts_json_idempotent
    (now : datetime) (accounts accounts' : list Utils.account) (email : string)
    (cd : cookie_data) :
  Utils.update_accounts_json now accounts email cd = Some accounts' ->
  Utils.update_accounts_json now accounts' email cd = Some accounts'.
Proof.
  unfold Utils.update_accounts_json.
  destruct (replace_day now (day now + 7)) as [exp|]; [|discriminate].
  destruct (Utils.find_existing_idx email accounts) as [i|] eqn:F; intros H;
    injection H as <-.
  - pose proof (UtilsFacts.find_existing_idx_lt _ _ _ F) as Hlt.
    destruct (StoreFacts.find_existing_idx_Some _ _ _ F) as [(a & Ha & _) _].
    rewrite Ha. cbn [mbind option_bind].
    rewrite StoreFacts.find_existing_idx_insert by (assumption || reflexivity).
    cbn [mbind option_bind]. rewrite list_lookup_insert_eq by assumption.
    cbn [Utils.acc_id Utils.acc_created_at default].
    now rewrite list_insert_insert_eq.
  - cbn [mbind option_bind].
    rewrite StoreFacts.find_existing_idx_snoc by (assumption || reflexivity).
    cbn [mbind option_bind]. rewrite lookup_app_r, Nat.sub_diag by lia.
    cbn [lookup list_lookup Utils.acc_id Utils.acc_created_at default].
    rewrite insert_app_r_alt, Nat.sub_diag by lia. reflexivity.
Qed.

(** Carol is added once; the second call changes nothing. *)
Lemma update_accounts_json_idempotent_witness :
  Utils.update_accounts_json (mkDT 2025 1 10 8 0 0) Scenarios.two_accounts
    "carol@virgilian.com" sample_bundle
    = Some [Scenarios.alice; Scenarios.bob; Scenarios.carol] /\
  Utils.update_accounts_json (mkDT 2025 1 10 8 0 0)
    [Scenarios.alice; Scenarios.bob; Scenarios.carol]
    "carol@virgilian.com" sample_bundle
    = Some [Scenarios.alice; Scenarios.bob; Scenarios.carol].
Proof.
  assert (H : Utils.update_accounts_json (mkDT 2025 1 10 8 0 0)
                Scenarios.two_accounts "carol@virgilian.com" sample_bundle
              = Some [Scenarios.alice; Scenarios.bob; Scenarios.carol])
    by (vm_compute; reflexivity).
  split; [exact H|].
  exact (update_accounts_json_idempotent _ _ _ _ _ H).
Defined.
(** ** Invariants along the acquisition paths *)
Module PathFacts.
Import Orchestrator OrchestratorSpec OrchestratorFacts PathSpec.
Local Open Scope nat_scope.

Lemma maintains_ret {A} (Inv : world -> Prop) (a : A) : maintains Inv (ret a).
Proof. apply triple_ret. auto. Qed.

Lemma maintains_bind {A B} (Inv : world -> Prop) (m : M A) (k : A -> M B) :
  maintains Inv m -> (forall a, maintains Inv (k a)) -> maintains Inv (bind m k).
Proof. intros Hm Hk. eapply triple_bind; [exact Hm|]. intros a. apply Hk. Qed.

(** A fact about the result that holds in every world can be added to the
    postcondition. *)
Lemma maintains_result {A} (Inv : world -> Prop) (m : M A) (Q : A -> Prop) :
  maintains Inv m -> (forall w, Q (m w).1) ->
  triple Inv m (fun a w => Inv w /\ Q a).
Proof. intros Hm HQ w Hw. split; [now apply Hm|apply HQ]. Qed.

Lemma triple_pure {A} (P : world -> Prop) (F : Prop) (m : M A)
    (Q : A -> world -> Prop) :
  (F -> triple P m Q) -> triple (fun w => P w /\ F) m Q.
Proof. intros H w [Hw HF]. now apply H. Qed.

(** The results of the attempts carry a session cookie and the email they
    are then filed under, in every world. *)
Lemma filed_result_None : filed_result None.
Proof. intros d H. discriminate. Qed.

Lemma register_attempt_filed (E : env) (h : bool) (w : world) :
  filed_result (register_attempt E h w).1.
Proof.
  rewrite register_attempt_result.
  destruct (m_register (e_mail E (w_mails w))) as [[email password]|];
    [|apply filed_result_None].
  destruct (steps_ok E (w_mails w) (w_browsers w) &&
            PyStr.truthy (secure_c_ses (extracted E (w_browsers w)))) eqn:H;
    [|apply filed_result_None].
  intros d Hd. injection Hd as <-. apply andb_true_iff in H as [_ H].
  split; [exact H|reflexivity].
Qed.

Lemma register_loop_filed (E : env) (h : bool) (n : nat) (w : world) :
  filed_result (register_loop E h n w).1.
Proof.
  revert w. induction n as [|n IH]; intros w; [apply filed_result_None|].
  cbn [register_loop]. unfold bind.
  pose proof (register_attempt_filed E h w) as Ha.
  destruct (register_attempt E h w) as [[d|] w1]; [exact Ha|apply IH].
Qed.

Lemma register_new_account_filed (E : env) (h : bool) (w : world) :
  filed_result (register_new_account E h w).1.
Proof.
  unfold register_new_account, bind.
  destruct (find_healthy_node E w) as [[node|] w1];
    [apply register_loop_filed|apply filed_result_None].
Qed.

Lemma refresh_single_account_filed (E : env) (email password : string)
    (w : world) (d : cookie_data) :
  (refresh_single_account E email password w).1 = Some d -> filed email d.
Proof.
  run_paths; intros H; try discriminate.
  all: injection H as <-; split; first [reflexivity | simpl in *; congruence].
Qed.

(** *** From the attempts to the runs *)
Section Callers.
Variable E : env.
Variable Inv : world -> Prop.
Hypothesis Inv_find : maintains Inv (find_healthy_node E).
Hypothesis Inv_attempt : forall h, maintains Inv (register_attempt E h).
Hypothesis Inv_process : forall email password h proxy_node,
  maintains Inv (process_existing_account E email password h proxy_node).
Hypothesis Inv_refresh : forall email password,
  maintains Inv (refresh_single_account E email password).
Hypothesis Inv_update : forall email d,
  filed email d -> maintains Inv (update_accounts_json E email d).
Hypothesis Inv_csv : forall email password,
  maintains Inv (append_to_csv email password).
Hypothesis Inv_sleep : maintains Inv (emit (Sleep 3)).

Lemma maintains_register_loop h n : maintains Inv (register_loop E h n).
Proof.
  induction n as [|n IH]; cbn [register_loop]; [apply maintains_ret|].
  apply maintains_bind; [apply Inv_attempt|].
  intros [d|]; [apply maintains_ret|exact IH].
Qed.

Lemma maintains_register_new_account h : maintains Inv (register_new_account E h).
Proof.
  unfold register_new_account. apply maintains_bind; [apply Inv_find|].
  intros [node|]; [apply maintains_register_loop|apply maintains_ret].
Qed.

Lemma maintains_store_result {A} (r : cookie_data) (a : A) :
  filed (result_email r) r ->
  maintains Inv
    (let* written := update_accounts_json E (result_email r) r in
     if negb written then ret None
     else append_to_csv (result_email r) (result_password r) >> ret (Some a)).
Proof.
  intros Hr. apply maintains_bind; [now apply Inv_update|].
  intros []; simpl; [|apply maintains_ret].
  apply maintains_bind; [apply Inv_csv|]. intros _. apply maintains_ret.
Qed.

Lemma maintains_cooldown (rest : nat) :
  maintains Inv (match rest with O => ret tt | S _ => emit (Sleep 3) end).
Proof. destruct rest; [apply maintains_ret|apply Inv_sleep]. Qed.

Lemma maintains_main_register h count success fail :
  maintains Inv (main_register E h count success fail).
Proof.
  revert success fail. induction count as [|rest IH]; intros success fail;
    cbn [main_register]; [apply maintains_ret|].
  eapply triple_bind.
  { apply (maintains_result Inv _ filed_result);
      [apply maintains_register_new_account|apply register_new_account_filed]. }
  intros result. apply triple_pure. intros Hres.
  apply maintains_bind.
  { destruct result as [r|]; [|apply maintains_ret].
    apply maintains_store_result. now apply Hres. }
  intros [[s f]|]; [|apply maintains_ret].
  apply maintains_bind; [apply maintains_cooldown|]. intros _. apply IH.
Qed.

Lemma maintains_main_refresh_loop h proxy_node existing accounts success fail :
  maintains Inv (main_refresh_loop E h proxy_node existing accounts success fail).
Proof.
  revert success fail.
  induction accounts as [|[email password] rest IH]; intros success fail;
    cbn [main_refresh_loop]; [apply maintains_ret|].
  destruct (existsb (String.eqb email) existing); [apply IH|].
  apply maintains_bind; [apply Inv_process|]. intros []; apply IH.
Qed.

Lemma maintains_main_refresh h proxy_node accounts :
  maintains Inv (main_refresh E h proxy_node accounts).
Proof. intros w Hw. unfold main_refresh. now apply maintains_main_refresh_loop. Qed.

Lemma maintains_run_register_loop count results :
  maintains Inv (run_register_loop E count results).
Proof.
  revert results. induction count as [|rest IH]; intros results;
    cbn [run_register_loop]; [apply maintains_ret|].
  eapply triple_bind.
  { apply (maintains_result Inv _ filed_result);
      [apply (maintains_register_new_account false)
      |apply (register_new_account_filed E false)]. }
  intros result. apply triple_pure. intros Hres.
  apply maintains_bind.
  { destruct result as [r|]; [|apply maintains_ret].
    apply maintains_store_result. now apply Hres. }
  intros [rs|]; [|apply maintains_ret].
  apply maintains_bind; [apply maintains_cooldown|]. intros _. apply IH.
Qed.

Lemma maintains_run_register_task count : maintains Inv (run_register_task E count).
Proof. apply maintains_run_register_loop. Qed.

Lemma maintains_run_refresh_task email password :
  maintains Inv (run_refresh_task E email password).
Proof.
  unfold run_refresh_task. eapply triple_bind.
  { apply (maintains_result Inv _ (fun r => forall d, r = Some d -> filed email d));
      [apply Inv_refresh|intros w d; apply refresh_single_account_filed]. }
  intros [r|]; apply triple_pure; intros Hres; [|apply maintains_ret].
  apply maintains_bind; [apply Inv_update; now apply Hres|].
  intros written. apply maintains_ret.
Qed.

End Callers.

(** *** Invariants of accounts.json *)
Section Store.
Variable E : env.
Variable I : list Utils.account -> Prop.
Hypothesis I_update : forall k accounts email d accounts',
  filed email d -> I accounts ->
  Utils.update_accounts_json (e_now E k) accounts email d = Some accounts' ->
  I accounts'.

Lemma store_find : maintains (on_accounts I) (find_healthy_node E).
Proof. intros w Hw. exact Hw. Qed.

Lemma store_attempt h : maintains (on_accounts I) (register_attempt E h).
Proof. intros w Hw. unfold on_accounts in *. run_paths; exact Hw. Qed.

Lemma store_update email d :
  filed email d -> maintains (on_accounts I) (update_accounts_json E email d).
Proof.
  intros Hd w Hw. unfold on_accounts, update_accounts_json in *.
  destruct (Utils.update_accounts_json _ _ _ _) as [accounts'|] eqn:U; simpl;
    [|exact Hw].
  eapply I_update; eauto.
Qed.

Lemma store_process email password h proxy_node :
  maintains (on_accounts I) (process_existing_account E email password h proxy_node).
Proof.
  intros w Hw. unfold on_accounts in *.
  destruct proxy_node as [n|]; run_paths; try exact Hw;
    (eapply I_update; [|exact Hw|eassumption]; split; [assumption|reflexivity]).
Qed.

Lemma store_refresh email password :
  maintains (on_accounts I) (refresh_single_account E email password).
Proof. intros w Hw. unfold on_accounts in *. run_paths; exact Hw. Qed.

Lemma store_emit e : maintains (on_accounts I) (emit e).
Proof. intros w Hw. exact Hw. Qed.

(** An invariant of the file that every write of a filed bundle preserves
    holds after each of the four runs. *)
Lemma store_runs (w : world) :
  I (w_accounts w) ->
  (forall h count, I (w_accounts (main_register E h count 0 0 w).2)) /\
  (forall h proxy_node csv, I (w_accounts (main_refresh E h proxy_node csv w).2)) /\
  (forall count, I (w_accounts (run_register_task E count w).2)) /\
  (forall email password, I (w_accounts (run_refresh_task E email password w).2)).
Proof.
  intros Hw. repeat split; intros.
  - apply (maintains_main_register E (on_accounts I)); auto using store_find,
      store_attempt, store_update, store_emit.
  - apply (maintains_main_refresh E (on_accounts I)); auto using store_process.
  - apply (maintains_run_register_task E (on_accounts I)); auto using store_find,
      store_attempt, store_update, store_emit.
  - apply (maintains_run_refresh_task E (on_accounts I)); auto using store_refresh,
      store_update.
Qed.

End Store.

(** *** The last week of a month *)
Section MonthEnd.
Variable E : env.
Hypothesis late : forall k,
  (DateTime.days_in_month (DateTime.year (e_now E k)) (DateTime.month (e_now E k))
   < DateTime.day (e_now E k) + 7)%Z.

Lemma late_update k accounts email d :
  Utils.update_accounts_json (e_now E k) accounts email d = None.
Proof.
  unfold Utils.update_accounts_json.
  now rewrite (UtilsFacts.replace_day_None _ _ (late k)).
Qed.

Lemma late_write email d w : (update_accounts_json E email d w).1 = false.
Proof. unfold update_accounts_json. now rewrite late_update. Qed.

Lemma late_process email password h proxy_node w :
  (process_existing_account E email password h proxy_node w).1 = false.
Proof.
  destruct proxy_node as [n|]; run_paths; try reflexivity;
    match goal with
    | H : Utils.update_accounts_json _ _ _ _ = Some _ |- _ =>
        rewrite late_update in H; discriminate
    end.
Qed.

Lemma late_main_register h count success fail w :
  match (main_register E h count success fail w).1 with
  | Some p => p = (success, fail + count)
  | None => True
  end.
Proof.
  revert success fail w. induction count as [|rest IH]; intros success fail w.
  - cbn. now rewrite Nat.add_0_r.
  - cbn [main_register]. unfold bind at 1.
    destruct (register_new_account E h w) as [[r|] w1].
    + unfold bind.
      pose proof (late_write (result_email r) r w1) as Hw.
      destruct (update_accounts_json E (result_email r) r w1) as [written w2].
      simpl in Hw. subst written. exact I.
    + unfold bind, ret.
      destruct rest as [|rest'].
      * cbn. f_equal. lia.
      * cbn [emit]. replace (fail + S (S rest')) with (S fail + S rest') by lia.
        apply IH.
Qed.

Lemma late_main_refresh_loop h proxy_node existing accounts success fail w :
  ((main_refresh_loop E h proxy_node existing accounts success fail w).1).1 = success.
Proof.
  revert success fail w.
  induction accounts as [|[email password] rest IH]; intros success fail w;
    cbn [main_refresh_loop]; [reflexivity|].
  destruct (existsb (String.eqb email) existing); [apply IH|].
  unfold bind.
  pose proof (late_process email password h proxy_node w) as Hp.
  destruct (process_existing_account E email password h proxy_node w) as [ok w1].
  simpl in Hp. subst ok. apply IH.
Qed.

Lemma late_run_register_loop count results w :
  match (run_register_loop E count results w).1 with
  | (SUCCESS, rs) => rs = results
  | _ => True
  end.
Proof.
  revert results w. induction count as [|rest IH]; intros results w.
  - reflexivity.
  - cbn [run_register_loop]. unfold bind at 1.
    destruct (register_single_account E w) as [[r|] w1].
    + unfold bind.
      pose proof (late_write (result_email r) r w1) as Hw.
      destruct (update_accounts_json E (result_email r) r w1) as [written w2].
      simpl in Hw. subst written. exact I.
    + unfold bind, ret. destruct rest as [|rest']; [reflexivity|apply IH].
Qed.

Lemma late_run_refresh_task email password w :
  ((run_refresh_task E email password w).1).1 = FAILED.
Proof.
  unfold run_refresh_task, bind.
  destruct (refresh_single_account E email password w) as [[r|] w1]; [|reflexivity].
  pose proof (late_write email r w1) as Hw.
  destruct (update_accounts_json E email r w1) as [written w2].
  simpl in Hw. subst written. reflexivity.
Qed.

End MonthEnd.

(** *** The protocol of the two clients *)












(** *** Where a registration succeeds *)

Lemma register_attempt_success (E : env) (h : bool) (w w' : world) (d : cookie_data) :
  register_attempt E h w = (Some d, w') ->
  exists email password,
    m_register (e_mail E (w_mails w)) = Some (email, password) /\
    steps_ok E (w_mails w) (w_browsers w) = true /\
    d = set_password password (set_email email (extracted E (w_browsers w))) /\
    w_mails w' = S (w_mails w) /\ w_browsers w' = S (w_browsers w) /\
    list.last (w_trace w') = Some (Stop (w_browsers w)).
Proof.
  unfold steps_ok, extracted. run_paths; intros H; try discriminate.
  all: injection H as <- <-; eexists _, _;
    repeat split; first [reflexivity | apply last_snoc | simpl in *; congruence].
Qed.

Lemma register_attempt_counters (E : env) (h : bool) (w : world) :
  w_mails (register_attempt E h w).2 = S (w_mails w) /\
  w_browsers w <= w_browsers (register_attempt E h w).2.
Proof. run_paths; split; first [reflexivity | lia]. Qed.

Lemma register_loop_success (E : env) (h : bool) (n : nat) (w w' : world)
    (d : cookie_data) :
  register_loop E h n w = (Some d, w') ->
  exists m b email password,
    w_mails w <= m < w_mails w + n /\ w_browsers w <= b /\
    w_mails w' = S m /\ w_browsers w' = S b /\
    m_register (e_mail E m) = Some (email, password) /\
    steps_ok E m b = true /\
    d = set_password password (set_email email (extracted E b)) /\
    list.last (w_trace w') = Some (Stop b).
Proof.
  revert w. induction n as [|n IH]; intros w H; [discriminate|].
  cbn [register_loop] in H. unfold bind in H.
  pose proof (register_attempt_counters E h w) as [Hm Hb].
  destruct (register_attempt E h w) as [[d0|] w1] eqn:A.
  - injection H as -> ->.
    destruct (register_attempt_success E h w w' d A)
      as (email & password & Hr & Hs & Hd & Hm' & Hb' & Hl).
    exists (w_mails w), (w_browsers w), email, password.
    repeat split; first [assumption | lia].
  - simpl in Hm, Hb. destruct (IH w1 H)
      as (m & b & email & password & Hm1 & Hb1 & Hrest).
    exists m, b, email, password. repeat split; first [apply Hrest | lia].
Qed.

(** *** The refresh run of [main_async] *)

Lemma process_existing_account_store (E : env) (email password : string)
    (h : bool) (proxy_node : option string) (w : world) :
  ((process_existing_account E email password h proxy_node w).1 = false ->
   w_accounts (process_existing_account E email password h proxy_node w).2
     = w_accounts w) /\
  ((process_existing_account E email password h proxy_node w).1 = true ->
   PyStr.truthy email = true /\
   exists d,
     Utils.update_accounts_json (e_now E (w_writes w)) (w_accounts w) email d
       = Some (w_accounts
                 (process_existing_account E email password h proxy_node w).2)).
Proof.
  destruct proxy_node as [n|]; run_paths;
    (split; intros H; try discriminate;
     first [reflexivity | split; [reflexivity|eexists; eassumption]]).
Qed.

Lemma not_existing (email : string) (accounts : list Utils.account) :
  existsb (String.eqb email) (existing_emails accounts) = false ->
  PyStr.truthy email = true ->
  Forall (fun a => Utils.acc_email a <> Some email) accounts.
Proof.
  intros Hex Ht. induction accounts as [|a rest IH]; [constructor|].
  unfold existing_emails in Hex. cbn [omap list_omap] in Hex.
  destruct (Utils.acc_email a) as [e|] eqn:Ea.
  - destruct (PyStr.truthy e) eqn:Te.
    + cbn [existsb] in Hex. apply orb_false_iff in Hex as [Hne Hrest].
      constructor; [|now apply IH].
      intros Heq. rewrite Ea in Heq. injection Heq as ->.
      now rewrite String.eqb_refl in Hne.
    + constructor; [|now apply IH]. intros Heq. rewrite Ea in Heq.
      injection Heq as ->. congruence.
  - constructor; [congruence|now apply IH].
Qed.

(** A write for an email that no record of [old] carries leaves [old]
    alone. *)
Lemma update_keeps_prefix (now : DateTime.datetime) (old added accounts' : list Utils.account)
    (email : string) (d : cookie_data) :
  Forall (fun a => Utils.acc_email a <> Some email) old ->
  Utils.update_accounts_json now (old ++ added) email d = Some accounts' ->
  exists added', accounts' = old ++ added' /\ length added' <= S (length added).
Proof.
  intros Hold H.
  apply StoreFacts.update_accounts_json_inv in H as (r & _ & _ & _ & _ & _ & _ & H).
  destruct (Utils.find_existing_idx email (old ++ added)) as [i|] eqn:F.
  - destruct H as (-> & a & Ha & Hea & _).
    assert (Hi : length old <= i).
    { destruct (decide (i < length old)) as [Hlt|]; [|lia].
      rewrite lookup_app_l in Ha by assumption.
      rewrite Forall_lookup in Hold. now apply Hold in Ha. }
    exists (<[i - length old := r]> added). split.
    + now apply insert_app_r_alt.
    + rewrite length_insert. lia.
  - destruct H as (-> & _). exists (added ++ [r]). split.
    + now rewrite app_assoc.
    + rewrite length_app. simpl. lia.
Qed.

Lemma main_refresh_loop_appends (E : env) (h : bool) (proxy_node : option string)
    (old : list Utils.account) (csv : list (string * string)) :
  forall success fail w added,
    w_accounts w = old ++ added ->
    exists added',
      w_accounts (main_refresh_loop E h proxy_node (existing_emails old) csv
                    success fail w).2 = old ++ added' /\
      length added' + success <=
        length added +
        ((main_refresh_loop E h proxy_node (existing_emails old) csv
            success fail w).1).1 /\
      ((main_refresh_loop E h proxy_node (existing_emails old) csv
          success fail w).1).1 +
      ((main_refresh_loop E h proxy_node (existing_emails old) csv
          success fail w).1).2 =
        success + fail + length (to_process (existing_emails old) csv).
Proof.
  induction csv as [|[email password] rest IH]; intros success fail w added Hw.
  - exists added. cbn. repeat split; [assumption|lia|lia].
  - cbn [main_refresh_loop to_process List.filter fst].
    destruct (existsb (String.eqb email) (existing_emails old)) eqn:Hex;
      cbn [negb].
    + apply IH, Hw.
    + unfold bind.
      destruct (process_existing_account_store E email password h proxy_node w)
        as [Hfalse Htrue].
      destruct (process_existing_account E email password h proxy_node w)
        as [[] w1]; cbn [fst snd] in Hfalse, Htrue.
      * destruct (Htrue eq_refl) as (Ht & d & Hu). rewrite Hw in Hu.
        destruct (update_keeps_prefix _ old added _ email d
                    (not_existing email old Hex Ht) Hu) as (added1 & H1 & Hl1).
        destruct (IH (S success) fail w1 added1 H1) as (added' & Ha & Hl & Hc).
        exists added'. fold (to_process (existing_emails old) rest).
        cbn [length]. repeat split; [assumption|lia|lia].
      * rewrite <- (Hfalse eq_refl) in Hw.
        destruct (IH success (S fail) w1 added Hw) as (added' & Ha & Hl & Hc).
        exists added'. fold (to_process (existing_emails old) rest).
        cbn [length]. repeat split; [assumption|lia|lia].
Qed.

(** *** What a register run writes *)














End PathFacts.

Import StoreSpec PathSpec PathFacts.

(** A well-formed accounts.json (numbered records, one record per email,
    every record with an email and a non-empty session cookie; the empty
    file is one) is still well formed after a register run or a refresh
    run of [main_async], after [run_register_task] and after
    [run_refresh_task], whatever the environment does.  In a well-formed
    file no two records share an id. *)
Theorem accounts_json_stays_well_formed (E : env) (w : world) :
  StoreSpec.well_formed (w_accounts w) ->
  (forall h count,
     StoreSpec.well_formed (w_accounts (main_register E h count 0 0 w).2)) /\
  (forall h proxy_node csv,
     StoreSpec.well_formed (w_accounts (main_refresh E h proxy_node csv w).2)) /\
  (forall count,
     StoreSpec.well_formed (w_accounts (run_register_task E count w).2)) /\
  (forall email password,
     StoreSpec.well_formed (w_accounts (run_refresh_task E email password w).2)) /\
  (forall accounts, StoreSpec.well_formed accounts ->
     NoDup (map Utils.acc_id accounts)).
Proof.
  intros Hw.
  assert (Hupd : forall k accounts email d accounts',
            PathSpec.filed email d -> StoreSpec.well_formed accounts ->
            Utils.update_accounts_json (e_now E k) accounts email d = Some accounts' ->
            StoreSpec.well_formed accounts').
  { intros k accounts email d accounts' [Hd _] Hacc Hu.
    eapply StoreFacts.update_accounts_json_well_formed; eauto. }
  destruct (PathFacts.store_runs E StoreSpec.well_formed Hupd w Hw)
    as (H1 & H2 & H3 & H4).
  split; [exact H1|]. split; [exact H2|]. split; [exact H3|]. split; [exact H4|].
  intros accounts (Hn & _). now apply StoreFacts.numbered_NoDup.
Qed.

(** From the absent file, one refresh task leaves a well-formed file of one
    record. *)
Lemma accounts_json_stays_well_formed_witness :
  StoreSpec.well_formed (w_accounts (initial [])) /\
  StoreSpec.well_formed
    (w_accounts (run_refresh_task only_session_cookie "t1234abc@virgilian.com"
                   "Pwdabc1234" (initial [])).2) /\
  length (w_accounts (run_refresh_task only_session_cookie "t1234abc@virgilian.com"
                        "Pwdabc1234" (initial [])).2) = 1%nat.
Proof.
  assert (H0 : StoreSpec.well_formed (w_accounts (initial []))).
  { split; [intros i a H; discriminate|]. split; constructor. }
  split; [exact H0|]. split; [|vm_compute; reflexivity].
  destruct (accounts_json_stays_well_formed only_session_cookie (initial []) H0)
    as (_ & _ & _ & H & _).
  apply H.
Defined.

(** While the day of the month plus seven exceeds the length of the month,
    that is during the last week of every month, nothing reaches
    accounts.json on any path: the file is the same after each run; a
    register run of [main_async] that comes to its end has counted every
    account as failed (a registration that succeeds ends the run with the
    exception); its refresh run counts no success; [run_register_task]
    ends with SUCCESS only with an empty list of accounts; and
    [run_refresh_task] always ends FAILED. *)
Theorem nothing_is_stored_in_the_last_week_of_a_month (E : env) (w : world) :
  (forall k, days_in_month (year (e_now E k)) (month (e_now E k))
             < day (e_now E k) + 7) ->
  (forall h count,
     w_accounts (main_register E h count 0 0 w).2 = w_accounts w /\
     (forall success fail,
        (main_register E h count 0 0 w).1 = Some (success, fail) ->
        success = 0%nat /\ fail = count)) /\
  (forall h proxy_node csv,
     w_accounts (main_refresh E h proxy_node csv w).2 = w_accounts w /\
     ((main_refresh E h proxy_node csv w).1).1 = 0%nat) /\
  (forall count,
     w_accounts (run_register_task E count w).2 = w_accounts w /\
     (forall results,
        (run_register_task E count w).1 = (SUCCESS, results) -> results = [])) /\
  (forall email password,
     w_accounts (run_refresh_task E email password w).2 = w_accounts w /\
     ((run_refresh_task E email password w).1).1 = FAILED).
Proof.
  intros Hlate.
  assert (Hupd : forall k accounts email d accounts',
            PathSpec.filed email d -> accounts = w_accounts w ->
            Utils.update_accounts_json (e_now E k) accounts email d = Some accounts' ->
            accounts' = w_accounts w).
  { intros k accounts email d accounts' _ _ Hu.
    rewrite (PathFacts.late_update E Hlate) in Hu. discriminate. }
  destruct (PathFacts.store_runs E (fun a => a = w_accounts w) Hupd w eq_refl)
    as (H1 & H2 & H3 & H4).
  split; [|split; [|split]].
  - intros h count. split; [apply H1|]. intros success fail Hr.
    pose proof (PathFacts.late_main_register E Hlate h count 0 0 w) as Hm.
    rewrite Hr in Hm. injection Hm as -> ->. auto.
  - intros h proxy_node csv. split; [apply H2|].
    apply (PathFacts.late_main_refresh_loop E Hlate).
  - intros count. split; [apply H3|]. intros results Hr.
    pose proof (PathFacts.late_run_register_loop E Hlate count [] w) as Hm.
    unfold run_register_task in Hr. now rewrite Hr in Hm.
  - intros email password. split; [apply H4|].
    apply (PathFacts.late_run_refresh_task E Hlate).
Qed.

(** On 27 February every step of a refresh succeeds and the task fails. *)
Lemma nothing_is_stored_in_the_last_week_of_a_month_witness :
  steps_ok Scenarios.late_february 0 0 = true /\
  ((run_refresh_task Scenarios.late_february "t1234abc@virgilian.com" "Pwdabc1234"
      (initial Scenarios.two_accounts)).1).1 = FAILED /\
  w_accounts (run_refresh_task Scenarios.late_february "t1234abc@virgilian.com"
                "Pwdabc1234" (initial Scenarios.two_accounts)).2
    = Scenarios.two_accounts.
Proof.
  split; [reflexivity|].
  destruct (nothing_is_stored_in_the_last_week_of_a_month Scenarios.late_february
              (initial Scenarios.two_accounts)) as (_ & _ & _ & H).
  - intros k. vm_compute. reflexivity.
  - destruct (H "t1234abc@virgilian.com" "Pwdabc1234") as [Hacc Hst].
    split; [exact Hst|exact Hacc].
Defined.


(** The monitor refuses a [login] on a session that was not started, a
    second session while one is open, and a code awaited on an earlier
    mail client. *)
Example monitor_refuses :
  run_monitor idle
    [NewMailClient 0; Register 0; NewBrowser 0 true; Login 0 "a" "p"] = None /\
  run_monitor idle
    [NewMailClient 0; Register 0; NewBrowser 0 true; Start 0; NewBrowser 1 true]
    = None /\
  run_monitor idle
    [NewMailClient 0; Register 0; NewMailClient 1; Register 1; NewBrowser 0 true;
     Start 0; Login 0 "a" "p"; WaitForCode 0 30] = None.
Proof. repeat split; reflexivity. Qed.

(** When [register_new_account] returns a bundle, the attempt that made it
    is the last one started: its mail client is the last one created, one
    of at most three, its browser session is the last one created and was
    stopped as the last action, every step of that attempt succeeded, and
    the bundle is what that session extracted together with the address
    and the password that mail client registered. *)
Theorem register_returns_the_identity_of_the_successful_attempt
    (E : env) (h : bool) (w w' : world) (d : cookie_data) :
  register_new_account E h w = (Some d, w') ->
  exists m b email password,
    (w_mails w <= m < w_mails w + 3)%nat /\
    w_mails w' = S m /\ w_browsers w' = S b /\
    m_register (e_mail E m) = Some (email, password) /\
    steps_ok E m b = true /\
    d = set_password password (set_email email (extracted E b)) /\
    cd_email d = Some email /\ cd_password d = Some password /\
    list.last (w_trace w') = Some (Stop b).
Proof.
  unfold register_new_account, bind. intros H.
  destruct (find_healthy_node E w) as [[node|] w1] eqn:F; [|discriminate].
  assert (Hw1 : w_mails w1 = w_mails w).
  { unfold find_healthy_node in F. now injection F as _ <-. }
  destruct (PathFacts.register_loop_success E h max_retries w1 w' d H)
    as (m & b & email & password & Hm & _ & Hm' & Hb' & Hr & Hs & Hd & Hl).
  exists m, b, email, password. rewrite Hw1 in Hm. unfold max_retries in Hm.
  subst d. repeat split; first [assumption | lia].
Qed.

(** The first session fails at [login]; the bundle carries the identity of
    the second mail client. *)
Lemma register_returns_the_identity_of_the_successful_attempt_witness :
  exists d w' b,
    register_new_account Scenarios.second_attempt_succeeds true (initial [])
      = (Some d, w') /\
    w_mails w' = 2%nat /\ w_browsers w' = S b /\
    cd_email d = Some "t1@virgilian.com" /\ cd_password d = Some "Pwd1" /\
    list.last (w_trace w') = Some (Stop b).
Proof.
  destruct (register_new_account Scenarios.second_attempt_succeeds true (initial []))
    as [[d|] w'] eqn:R; [|vm_compute in R; discriminate].
  destruct (register_returns_the_identity_of_the_successful_attempt _ _ _ _ _ R)
    as (m & b & email & password & _ & Hm & Hb & Hr & _ & _ & He & Hp & Hl).
  exists d, w', b.
  assert (Hw : w_mails w' = 2%nat) by (vm_compute in R; now injection R as _ <-).
  assert (m = 1%nat) by lia. subst m. vm_compute in Hr. injection Hr as <- <-.
  repeat split; assumption.
Defined.

(** The refresh run of [main_async] never rewrites a record that
    accounts.json held when the run began: rows of the CSV file whose email
    the file already lists are skipped, and what the other rows store goes
    behind the old records.  Every row that is not skipped is counted once,
    as a success or as a failure, and the file grows by at most one record
    per success. *)
Theorem main_refresh_only_appends
    (E : env) (h : bool) (proxy_node : option string)
    (csv : list (string * string)) (w : world) :
  exists added,
    w_accounts (main_refresh E h proxy_node csv w).2 = w_accounts w ++ added /\
    (length added <= ((main_refresh E h proxy_node csv w).1).1)%nat /\
    (((main_refresh E h proxy_node csv w).1).1 +
     ((main_refresh E h proxy_node csv w).1).2)%nat =
      length (to_process (existing_emails (w_accounts w)) csv).
Proof.
  unfold main_refresh.
  destruct (main_refresh_loop_appends E h proxy_node (w_accounts w) csv 0 0 w [])
    as (added & Ha & Hl & Hc); [now rewrite app_nil_r|].
  cbn [length] in Hl. exists added. repeat split; [assumption|lia|lia].
Qed.



(** ** The pinned node and the runtime configuration *)
Module ClashManagerFacts.
Import Clash ClashManager.





End ClashManagerFacts.





(** The runtime configuration [_prepare_config] writes always has rules,
    the ports and the mode of the manager, and is left unchanged by a
    second pass.  When the configuration brings no rules the one rule
    written sends everything to the group 🚀 节点选择; that group exists in
    the runtime configuration only if the configuration had a group of
    this name, or had no groups but at least one named proxy, in which case
    the group is generated with exactly the named proxies, in order.  A
    configuration with groups of its own and no rules thus gets a rule
    that names a group it does not have. *)
Theorem prepare_config_generates_rules (port api_port : Z) (cfg : ClashManager.config) :
  ClashManager.absent
    (ClashManager.cfg_rules (ClashManager._prepare_config port api_port cfg)) = false /\
  ClashManager.cfg_mixed_port (ClashManager._prepare_config port api_port cfg)
    = Some port /\
  ClashManager.cfg_external_controller (ClashManager._prepare_config port api_port cfg)
    = Some (ClashManager.Local api_port) /\
  ClashManager.cfg_mode (ClashManager._prepare_config port api_port cfg)
    = Some "rule" /\
  ClashManager._prepare_config port api_port
    (ClashManager._prepare_config port api_port cfg)
    = ClashManager._prepare_config port api_port cfg /\
  (ClashManager.absent (ClashManager.cfg_rules cfg) = true ->
   ClashManager.cfg_rules (ClashManager._prepare_config port api_port cfg)
     = Some [ClashManager.AUTO_RULE] /\
   (In ClashManager.AUTO_GROUP
       (ClashManager.group_names (ClashManager._prepare_config port api_port cfg))
    <-> In ClashManager.AUTO_GROUP (ClashManager.group_names cfg) \/
        (ClashManager.absent (ClashManager.cfg_proxy_groups cfg) = true /\
         ClashManager.proxy_names cfg <> []))) /\
  (ClashManager.absent (ClashManager.cfg_proxy_groups cfg) = true ->
   ClashManager.proxy_names cfg <> [] ->
   ClashManager.cfg_proxy_groups (ClashManager._prepare_config port api_port cfg)
     = Some [(ClashManager.AUTO_GROUP, ClashManager.proxy_names cfg)]).
Proof.
  destruct cfg as [mp ec mode ll proxies groups rules].
  unfold ClashManager._prepare_config, ClashManager.group_names,
    ClashManager.proxy_names.
  cbn [ClashManager.cfg_rules ClashManager.cfg_proxy_groups ClashManager.cfg_proxies
       ClashManager.cfg_mixed_port ClashManager.cfg_external_controller
       ClashManager.cfg_mode].
  split; [destruct rules as [[|r rs]|]; reflexivity|].
  split; [reflexivity|]. split; [reflexivity|]. split; [reflexivity|].
  split; [|split].
  - destruct groups as [[|g gs]|], rules as [[|r rs]|];
      cbn [ClashManager.absent]; destruct (omap id proxies); reflexivity.
  - intros Hr. split; [now rewrite Hr|].
    destruct groups as [[|g gs]|]; destruct (omap id proxies) as [|x xs]; simpl;
      (split; intros H);
      first [ left; reflexivity
            | right; split; [reflexivity|discriminate]
            | intuition congruence ].
  - intros Hg Hn. rewrite Hg. destruct (omap id proxies); [congruence|reflexivity].
Qed.

(** A subscription with a group PROXY and no rules gets the rule
    MATCH,🚀 节点选择, which names no group of the runtime configuration. *)
Lemma prepare_config_generates_rules_witness :
  ClashManager.cfg_rules (ClashManager._prepare_config 17890 29090 Scenarios.own_group)
    = Some ["MATCH,🚀 节点选择"] /\
  ~ In "🚀 节点选择"
       (ClashManager.group_names
          (ClashManager._prepare_config 17890 29090 Scenarios.own_group)) /\
  ClashManager.cfg_proxy_groups
    (ClashManager._prepare_config 17890 29090 Scenarios.only_nodes)
    = Some [("🚀 节点选择", ["jp-03"; "us-02"])].
Proof.
  destruct (prepare_config_generates_rules 17890 29090 Scenarios.own_group)
    as (_ & _ & _ & _ & _ & Hrules & _).
  destruct (Hrules eq_refl) as [Hr Hiff].
  split; [exact Hr|]. split.
  - intros Hin. apply Hiff in Hin as [Hin|[Habs _]]; [|discriminate].
    vm_compute in Hin. destruct Hin as [Hin|[]]. discriminate.
  - apply (prepare_config_generates_rules 17890 29090 Scenarios.only_nodes);
      [reflexivity|discriminate].
Defined.

(** ** Pushing the results *)
Module DataPusherFacts.
Import DataPusher.

Lemma push_loop_bound (post : nat -> post_outcome) (k n : nat) :
  (k <= (push_loop post k n).2 <= k + n)%nat.
Proof.
  revert k. induction n as [|n IH]; intros k; cbn [push_loop]; [simpl; lia|].
  destruct (post k) as [status| | |]; [destruct (accepted_status status)|..];
    cbn [snd]; try lia; specialize (IH (S k)); lia.
Qed.

Lemma push_loop_hit (post : nat -> post_outcome) (n k j : nat) :
  (j < n)%nat ->
  (forall i, (i < j)%nat -> retried (post (k + i)%nat) = true) ->
  succeeded (post (k + j)%nat) = true ->
  push_loop post k n = (Some true, S (k + j)).
Proof.
  revert k j. induction n as [|n IH]; intros k j Hj Hbefore Hhit; [lia|].
  cbn [push_loop]. destruct j as [|j].
  - rewrite Nat.add_0_r in *. destruct (post k) as [status| | |];
      try discriminate. cbn [succeeded] in Hhit. now rewrite Hhit.
  - pose proof (Hbefore 0%nat ltac:(lia)) as H0. rewrite Nat.add_0_r in H0.
    replace (k + S j)%nat with (S k + j)%nat in * by lia.
    assert (Hrest : push_loop post (S k) n = (Some true, S (S k + j))).
    { apply IH; [lia| |assumption]. intros i Hi.
      replace (S k + i)%nat with (k + S i)%nat by lia. apply Hbefore. lia. }
    destruct (post k) as [status| | |]; try discriminate; try exact Hrest.
    cbn [retried] in H0. apply negb_true_iff in H0. now rewrite H0.
Qed.

Lemma push_loop_miss (post : nat -> post_outcome) (n k : nat) :
  (forall i, (i < n)%nat -> retried (post (k + i)%nat) = true) ->
  push_loop post k n = (Some false, (k + n)%nat).
Proof.
  revert k. induction n as [|n IH]; intros k Hmiss; cbn [push_loop].
  - now rewrite Nat.add_0_r.
  - pose proof (Hmiss 0%nat ltac:(lia)) as H0. rewrite Nat.add_0_r in H0.
    assert (Hrest : push_loop post (S k) n = (Some false, (k + S n)%nat)).
    { replace (k + S n)%nat with (S k + n)%nat by lia. apply IH. intros i Hi.
      replace (S k + i)%nat with (k + S i)%nat by lia. apply Hmiss. lia. }
    destruct (post k) as [status| | |]; try discriminate; try exact Hrest.
    cbn [retried] in H0. apply negb_true_iff in H0. now rewrite H0.
Qed.

Lemma push_loop_true (post : nat -> post_outcome) (n k m : nat) :
  push_loop post k n = (Some true, m) ->
  exists j, (j < n)%nat /\ m = S (k + j) /\ succeeded (post (k + j)%nat) = true /\
            forall i, (i < j)%nat -> retried (post (k + i)%nat) = true.
Proof.
  revert k. induction n as [|n IH]; intros k H; cbn [push_loop] in H;
    [discriminate|].
  assert (Hgo : retried (post k) = true -> push_loop post (S k) n = (Some true, m) ->
          exists j, (j < S n)%nat /\ m = S (k + j) /\
                    succeeded (post (k + j)%nat) = true /\
                    forall i, (i < j)%nat -> retried (post (k + i)%nat) = true).
  { intros Hk Hrest. destruct (IH _ Hrest) as (j & Hj & Hm & Hs & Hb).
    exists (S j). replace (k + S j)%nat with (S k + j)%nat by lia.
    repeat split; [lia|assumption|assumption|].
    intros [|i] Hi; [now rewrite Nat.add_0_r|].
    replace (k + S i)%nat with (S k + i)%nat by lia. apply Hb. lia. }
  destruct (post k) as [status| | |] eqn:P; try discriminate; try (now apply Hgo).
  destruct (accepted_status status) eqn:A.
  - injection H as <-. exists 0%nat. rewrite Nat.add_0_r, P.
    repeat split; [lia|exact A|intros; lia].
  - apply Hgo; [|assumption]. cbn. now rewrite A.
Qed.

End DataPusherFacts.

(** [push] sends at most [retry_count] requests, none at all when the
    target URL is empty or [retry_count] is not positive, and in those two
    cases it returns false.  It returns true exactly when one of the first
    [retry_count] requests is answered with 200, 201 or 204 while every
    request before it timed out, raised a request error or was answered
    with another status; it then stops at that request.  When every one of
    the [retry_count] requests fails in one of those ways it returns false
    after exactly [retry_count] requests.  [push_from_file] sends nothing
    for a file without records. *)
Theorem push_retries_up_to_retry_count
    (target_url : string) (retry_count : Z) (post : nat -> DataPusher.post_outcome) :
  ((DataPusher.push target_url retry_count post).2 <= Z.to_nat retry_count)%nat /\
  (PyStr.truthy target_url = false \/ retry_count <= 0 ->
   DataPusher.push target_url retry_count post = (Some false, 0%nat)) /\
  (PyStr.truthy target_url = true ->
   (forall m, DataPusher.push target_url retry_count post = (Some true, m) <->
      exists j, (j < Z.to_nat retry_count)%nat /\ m = S j /\
        DataPusher.succeeded (post j) = true /\
        forall i, (i < j)%nat -> DataPusher.retried (post i) = true) /\
   ((forall i, (i < Z.to_nat retry_count)%nat -> DataPusher.retried (post i) = true) ->
    DataPusher.push target_url retry_count post
      = (Some false, Z.to_nat retry_count))) /\
  DataPusher.push_from_file target_url retry_count post 0 = (Some false, 0%nat).
Proof.
  unfold DataPusher.push. split; [|split; [|split; [|reflexivity]]].
  - destruct (PyStr.truthy target_url); cbn [negb snd]; [|lia].
    pose proof (DataPusherFacts.push_loop_bound post 0 (Z.to_nat retry_count)). lia.
  - intros [Hu|Hr]; [now rewrite Hu|].
    destruct (PyStr.truthy target_url); [|reflexivity].
    replace (Z.to_nat retry_count) with 0%nat by lia. reflexivity.
  - intros Hu. rewrite Hu. cbn [negb]. split.
    + intros m. split.
      * intros H. apply DataPusherFacts.push_loop_true in H
          as (j & Hj & Hm & Hs & Hb).
        exists j. auto.
      * intros (j & Hj & -> & Hs & Hb).
        apply (DataPusherFacts.push_loop_hit post _ 0 j); assumption.
    + intros Hmiss.
      apply (DataPusherFacts.push_loop_miss post (Z.to_nat retry_count) 0).
      exact Hmiss.
Qed.

(** With three tries, a time-out and a 503 are followed by the 201 that
    ends the push; with two tries the push fails. *)
Lemma push_retries_up_to_retry_count_witness :
  DataPusher.push "https://panel.example/api/accounts" 3 Scenarios.third_time_lucky
    = (Some true, 3%nat) /\
  DataPusher.push "https://panel.example/api/accounts" 2 Scenarios.third_time_lucky
    = (Some false, 2%nat).
Proof.
  destruct (push_retries_up_to_retry_count "https://panel.example/api/accounts" 3
              Scenarios.third_time_lucky) as (_ & _ & H3 & _).
  destruct (push_retries_up_to_retry_count "https://panel.example/api/accounts" 2
              Scenarios.third_time_lucky) as (_ & _ & H2 & _).
  split.
  - apply (H3 eq_refl). exists 2%nat. repeat split; [simpl; lia|].
    intros [|[|i]] Hi; [reflexivity|reflexivity|lia].
  - apply (H2 eq_refl). intros [|[|i]] Hi; [reflexivity|reflexivity|simpl in Hi; lia].
Defined.

(** ** The browser: completion, navigation, and where the session comes from *)
Module BrowserMoreFacts.
Import Browser BrowserSpec BrowserLogin.
Local Open Scope nat_scope.

Lemma poll_complete_true (url : nat -> string) (n k : nat) :
  poll_complete url k n = true <->
  exists i, i < n /\ PyStr.any_contains COMPLETE_KEYWORDS (url (k + i)) = true.
Proof.
  revert k. induction n as [|n IH]; intros k; cbn [poll_complete].
  - split; [discriminate|]. intros (i & Hi & _). lia.
  - rewrite orb_true_iff, IH. split.
    + intros [H|(i & Hi & H)].
      * exists 0. rewrite Nat.add_0_r. split; [lia|assumption].
      * exists (S i). replace (k + S i) with (S k + i) by lia. split; [lia|assumption].
    + intros ([|i] & Hi & H).
      * left. now rewrite Nat.add_0_r in H.
      * right. exists i. replace (S k + i) with (k + S i) by lia.
        split; [lia|assumption].
Qed.

Lemma poll_complete_settled (url : nat -> string) (u : string) (n k : nat) :
  (forall i, url i = u) -> 0 < n ->
  poll_complete url k n = PyStr.any_contains COMPLETE_KEYWORDS u.
Proof.
  intros Hu Hn. destruct (PyStr.any_contains COMPLETE_KEYWORDS u) eqn:C.
  - apply poll_complete_true. exists 0. now rewrite Hu.
  - destruct (poll_complete url k n) eqn:P; [|reflexivity].
    apply poll_complete_true in P as (i & _ & H). rewrite Hu in H. congruence.
Qed.

Lemma logged_in_complete (u : string) :
  logged_in u = true -> PyStr.any_contains COMPLETE_KEYWORDS u = true.
Proof.
  unfold logged_in, PyStr.any_contains.
  change COMPLETE_KEYWORDS with (LOGGED_IN_KEYWORDS ++ ["cid"]).
  rewrite existsb_app. intros ->. reflexivity.
Qed.

Lemma complete_split (u : string) :
  PyStr.any_contains COMPLETE_KEYWORDS u = logged_in u || PyStr.contains "cid" u.
Proof.
  unfold logged_in, PyStr.any_contains.
  change COMPLETE_KEYWORDS with (LOGGED_IN_KEYWORDS ++ ["cid"]).
  rewrite existsb_app. cbn [existsb]. now rewrite orb_false_r.
Qed.

(** The scan takes the session value from a cookie of that name, or
    leaves it as it was. *)
Lemma scan_cookies_provenance (off : Z) (cs : list cookie) (r : cookie_data) :
  secure_c_ses (scan_cookies off cs r).1 = secure_c_ses r \/
  exists c, In c cs /\ ck_name c = SECURE_C_SES /\
            ck_value c = secure_c_ses (scan_cookies off cs r).1.
Proof.
  revert r. induction cs as [|c cs IH]; intros r; cbn [scan_cookies]; [now left|].
  destruct (String.eqb_spec (ck_name c) SECURE_C_SES) as [Hn|_].
  - right. destruct (truthy_expiry (ck_expires c)) as [t|].
    + destruct (DateTime.fromtimestamp off (t - 43200)) as [dt|].
      * destruct (IH (with_expires_at (DateTime.strftime dt)
                        (with_secure_c_ses (ck_value c) r))) as [H|(c' & Hin & H)].
        -- exists c. split; [now left|]. split; [assumption|]. now rewrite H.
        -- exists c'. split; [now right|assumption].
      * exists c. split; [now left|]. split; [assumption|reflexivity].
    + destruct (IH (with_secure_c_ses (ck_value c) r)) as [H|(c' & Hin & H)].
      * exists c. split; [now left|]. split; [assumption|]. now rewrite H.
      * exists c'. split; [now right|assumption].
  - destruct (String.eqb (ck_name c) HOST_C_OSES).
    + destruct (IH (with_host_c_oses (ck_value c) r)) as [H|(c' & Hin & H)].
      * now left.
      * right. exists c'. split; [now right|assumption].
    + destruct (IH r) as [H|(c' & Hin & H)]; [now left|].
      right. exists c'. split; [now right|assumption].
Qed.

Lemma extract_cookies_provenance (lib : urllib) (off : Z) (now : DateTime.datetime)
    (pg : page) :
  secure_c_ses (extract_cookies lib off now pg) = "" \/
  exists cookies c, context_cookies pg = Some cookies /\ In c cookies /\
    ck_name c = SECURE_C_SES /\
    ck_value c = secure_c_ses (extract_cookies lib off now pg).
Proof.
  destruct (context_cookies pg) as [cookies|] eqn:Hc.
  - destruct (BrowserFacts.extract_cookies_unfold lib off now pg cookies Hc)
      as (r0 & Hs0 & _ & ->).
    pose proof (scan_cookies_provenance off cookies r0) as Hp.
    destruct (scan_cookies off cookies r0) as [r' raised]. cbn [fst] in Hp.
    assert (Hsame : secure_c_ses
              (if raised then r'
               else if PyStr.truthy (expires_at r') then r'
               else match DateTime.add_days now 7 with
                    | Some d => with_expires_at (DateTime.strftime d) r'
                    | None => r'
                    end) = secure_c_ses r').
    { destruct raised; [reflexivity|].
      destruct (PyStr.truthy (expires_at r')); [reflexivity|].
      now destruct (DateTime.add_days now 7). }
    rewrite Hsame. destruct Hp as [Hp|(c & Hin & Hn & Hv)].
    + left. now rewrite Hp.
    + right. exists cookies, c. auto.
  - left. unfold extract_cookies. rewrite Hc.
    destruct (after_cid _); destruct (url_query_first _ _ _) as [v|];
      try destruct (PyStr.truthy v); reflexivity.
Qed.

End BrowserMoreFacts.

Import BrowserMoreFacts.

(** [wait_for_login_complete(timeout)] reads the URL [timeout // 3] times
    and returns true exactly when one of these reads shows one of its six
    keywords, so never for a time-out below three seconds.  Every URL that
    [enter_verification_code] takes for logged in passes it too.  On a page
    that has settled on one URL the result is whether that URL shows a
    keyword; in particular the benefit of the doubt that
    [enter_verification_code] gives to a URL with neither a logged-in nor a
    failure keyword (true, after its ten reads) is withdrawn by
    [wait_for_login_complete], which answers false unless the URL holds
    [cid]. *)
Theorem wait_for_login_complete_reads_the_url (pg : page) (timeout : nat) :
  (wait_for_login_complete pg timeout = true <->
   exists k, (k < timeout / 3)%nat /\
             PyStr.any_contains COMPLETE_KEYWORDS (page_url pg k) = true) /\
  ((timeout < 3)%nat -> wait_for_login_complete pg timeout = false) /\
  (forall u, BrowserSpec.logged_in u = true ->
             PyStr.any_contains COMPLETE_KEYWORDS u = true) /\
  (forall u, (forall k, page_url pg k = u) -> (3 <= timeout)%nat ->
     wait_for_login_complete pg timeout
       = BrowserSpec.logged_in u || PyStr.contains "cid" u) /\
  (forall u code, (forall k, page_url pg k = u) ->
     BrowserSpec.logged_in u = false -> BrowserSpec.failed u = false ->
     PyStr.contains "cid" u = false ->
     find_code_input (code_input_found pg) 0 10 = true ->
     input_steps_ok pg = true ->
     enter_verification_code pg code = (true, 10%nat) /\
     wait_for_login_complete pg 60 = false).
Proof.
  unfold wait_for_login_complete. split; [|split; [|split; [|split]]].
  - rewrite poll_complete_true. reflexivity.
  - intros Hlt. now rewrite Nat.div_small.
  - exact logged_in_complete.
  - intros u Hu Ht. rewrite <- complete_split. apply poll_complete_settled; [exact Hu|].
    apply Nat.div_str_pos. lia.
  - intros u code Hu Hl Hf Hc Hfound Hsteps. split.
    + unfold enter_verification_code. rewrite Hfound, Hsteps. cbn [negb].
      rewrite (BrowserFacts.wait_navigation_miss (page_url pg) 10 0).
      * cbn [Nat.add]. now rewrite Hu, Hf.
      * intros i _. now rewrite Hu.
    + rewrite (poll_complete_settled _ u) by (auto; cbn; lia).
      now rewrite complete_split, Hl, Hc.
Qed.

(** A page stuck on the PIN form: the code is taken for accepted after ten
    reads, and the login for incomplete after twenty more. *)
Lemma wait_for_login_complete_reads_the_url_witness :
  enter_verification_code Scenarios.stuck_page "482193" = (true, 10%nat) /\
  wait_for_login_complete Scenarios.stuck_page 60 = false.
Proof.
  destruct (wait_for_login_complete_reads_the_url Scenarios.stuck_page 60)
    as (_ & _ & _ & _ & H).
  apply (H "https://auth.business.gemini.google/signin/pin" "482193");
    first [reflexivity | intros; reflexivity].
Defined.

(** [login] calls [goto] at most three times.  The page counts as loaded
    exactly when one of these calls succeeds and every call before it
    failed with a message that holds [net::ERR_CONNECTION_CLOSED] or
    [net::ERR_CONNECTION_RESET]; any other failure ends [login] at once,
    without a retry, and so does a third connection error. *)
Theorem login_retries_only_connection_errors
    (goto : nat -> BrowserLogin.goto_outcome) :
  ((BrowserLogin.navigate goto 0 BrowserLogin.max_retries).2 <= 3)%nat /\
  (forall m,
     BrowserLogin.navigate goto 0 BrowserLogin.max_retries = (true, m) <->
     exists j, (j < 3)%nat /\ m = S j /\ goto j = BrowserLogin.Loaded /\
       forall i, (i < j)%nat -> BrowserLogin.retried (goto i) = true) /\
  (forall j error_msg,
     (j < 3)%nat ->
     (forall i, (i < j)%nat -> BrowserLogin.retried (goto i) = true) ->
     goto j = BrowserLogin.Failed error_msg ->
     BrowserLogin.connection_error error_msg = false ->
     BrowserLogin.navigate goto 0 BrowserLogin.max_retries = (false, S j)) /\
  ((forall i, (i < 3)%nat -> BrowserLogin.retried (goto i) = true) ->
   BrowserLogin.navigate goto 0 BrowserLogin.max_retries = (false, 3%nat)).
Proof.
  unfold BrowserLogin.max_retries. cbn [BrowserLogin.navigate].
  split; [|split; [|split]].
  - destruct (goto 0%nat) as [|m0]; [cbn; lia|].
    destruct (BrowserLogin.connection_error m0); [|cbn; lia].
    destruct (goto 1%nat) as [|m1]; [cbn; lia|].
    destruct (BrowserLogin.connection_error m1); [|cbn; lia].
    destruct (goto 2%nat) as [|m2]; [cbn; lia|].
    destruct (BrowserLogin.connection_error m2); cbn; lia.
  - intros m. split.
    + destruct (goto 0%nat) as [|m0] eqn:G0.
      { intros H. injection H as <-. exists 0%nat.
        repeat split; [lia|assumption|intros; lia]. }
      destruct (BrowserLogin.connection_error m0) eqn:C0; [|discriminate].
      destruct (goto 1%nat) as [|m1] eqn:G1.
      { intros H. injection H as <-. exists 1%nat.
        repeat split; [lia|assumption|].
        intros [|i] Hi; [|lia]. now rewrite G0. }
      destruct (BrowserLogin.connection_error m1) eqn:C1; [|discriminate].
      destruct (goto 2%nat) as [|m2] eqn:G2.
      { intros H. injection H as <-. exists 2%nat.
        repeat split; [lia|assumption|].
        intros [|[|i]] Hi; [now rewrite G0|now rewrite G1|lia]. }
      destruct (BrowserLogin.connection_error m2); discriminate.
    + intros (j & Hj & -> & Hl & Hb).
      destruct j as [|[|[|j]]]; [| | |lia].
      * now rewrite Hl.
      * pose proof (Hb 0%nat ltac:(lia)) as H0.
        destruct (goto 0%nat) as [|m0]; [discriminate|]. cbn in H0.
        now rewrite H0, Hl.
      * pose proof (Hb 0%nat ltac:(lia)) as H0.
        pose proof (Hb 1%nat ltac:(lia)) as H1.
        destruct (goto 0%nat) as [|m0]; [discriminate|]. cbn in H0. rewrite H0.
        destruct (goto 1%nat) as [|m1]; [discriminate|]. cbn in H1. rewrite H1.
        now rewrite Hl.
  - intros j error_msg Hj Hb Hg Hc.
    destruct j as [|[|[|j]]]; [| | |lia].
    + now rewrite Hg, Hc.
    + pose proof (Hb 0%nat ltac:(lia)) as H0.
      destruct (goto 0%nat) as [|m0]; [discriminate|]. cbn in H0.
      now rewrite H0, Hg, Hc.
    + pose proof (Hb 0%nat ltac:(lia)) as H0.
      pose proof (Hb 1%nat ltac:(lia)) as H1.
      destruct (goto 0%nat) as [|m0]; [discriminate|]. cbn in H0. rewrite H0.
      destruct (goto 1%nat) as [|m1]; [discriminate|]. cbn in H1. rewrite H1.
      now rewrite Hg, Hc.
  - intros Hb.
    pose proof (Hb 0%nat ltac:(lia)) as H0.
    pose proof (Hb 1%nat ltac:(lia)) as H1.
    pose proof (Hb 2%nat ltac:(lia)) as H2.
    destruct (goto 0%nat) as [|m0]; [discriminate|]. cbn in H0. rewrite H0.
    destruct (goto 1%nat) as [|m1]; [discriminate|]. cbn in H1. rewrite H1.
    destruct (goto 2%nat) as [|m2]; [discriminate|]. cbn in H2. now rewrite H2.
Qed.

(** A reset connection is retried; a time-out of [goto] is not. *)
Lemma login_retries_only_connection_errors_witness :
  BrowserLogin.navigate Scenarios.reset_once 0 BrowserLogin.max_retries
    = (true, 2%nat) /\
  BrowserLogin.navigate Scenarios.goto_times_out 0 BrowserLogin.max_retries
    = (false, 1%nat).
Proof.
  destruct (login_retries_only_connection_errors Scenarios.reset_once)
    as (_ & Hok & _).
  destruct (login_retries_only_connection_errors Scenarios.goto_times_out)
    as (_ & _ & Hfail & _).
  split.
  - apply Hok. exists 1%nat. repeat split; [lia|].
    intros [|i] Hi; [vm_compute; reflexivity|lia].
  - apply (Hfail 0%nat "Page.goto: Timeout 60000ms exceeded.");
      [lia|intros; lia|reflexivity|vm_compute; reflexivity].
Defined.

(** The session value [extract_cookies] returns is empty or the value of
    a cookie named [__Secure-C_SES] of the browser context.  So when the
    cookies cannot be read, or none of them has that name, every
    acquisition path fails: with browser sessions whose extraction is that
    of [extract_cookies] on such a context, [register_new_account],
    [register_single_account] and [refresh_single_account] return none and
    [process_existing_account] returns false, whatever else succeeds. *)
Theorem no_session_cookie_no_account
    (lib : urllib) (utc_offset : Z) (now : datetime) :
  (forall pg,
     secure_c_ses (extract_cookies lib utc_offset now pg) <> "" ->
     exists cookies c,
       context_cookies pg = Some cookies /\ In c cookies /\
       ck_name c = SECURE_C_SES /\
       ck_value c = secure_c_ses (extract_cookies lib utc_offset now pg)) /\
  (forall (E : env) (pages : nat -> page),
     (forall b, b_extract_cookies (e_browser E b)
                = extract_cookies lib utc_offset now (pages b)) ->
     (forall b cookies, context_cookies (pages b) = Some cookies ->
        Forall (fun c => ck_name c <> SECURE_C_SES) cookies) ->
     forall h email password proxy_node w,
       (register_new_account E h w).1 = None /\
       (register_single_account E w).1 = None /\
       (refresh_single_account E email password w).1 = None /\
       (process_existing_account E email password h proxy_node w).1 = false).
Proof.
  split.
  - intros pg Hne.
    destruct (extract_cookies_provenance lib utc_offset now pg) as [H|H];
      [contradiction|exact H].
  - intros E pages Hext Hnone h email password proxy_node w.
    assert (Hempty : forall k,
              PyStr.truthy (secure_c_ses (extracted E k)) = false).
    { intros k. unfold extracted. rewrite Hext.
      destruct (extract_cookies_provenance lib utc_offset now (pages k))
        as [->|(cookies & c & Hc & Hin & Hn & _)]; [reflexivity|].
      exfalso. specialize (Hnone k cookies Hc). rewrite Forall_forall in Hnone.
      now apply (Hnone c). }
    split; [now apply register_new_account_no_session|].
    split; [now apply (register_new_account_no_session E false)|].
    split; [now apply refresh_single_account_no_session|].
    now apply process_existing_account_no_session.
Qed.

(** Logged in, on the home page, with every cookie but the session cookie:
    the refresh fails. *)
Lemma no_session_cookie_no_account_witness :
  steps_ok Scenarios.no_session_cookie 0 0 = true /\
  (refresh_single_account Scenarios.no_session_cookie "t1234abc@virgilian.com"
     "Pwdabc1234" (initial [])).1 = None.
Proof.
  split; [reflexivity|].
  destruct (no_session_cookie_no_account sample_urllib 0 (mkDT 2025 1 10 8 0 0))
    as [_ H].
  apply (H Scenarios.no_session_cookie
           (fun _ => sample_page
                       [mkCookie "NID" "n" None;
                        mkCookie "__Host-C_OSES" "oses" (Some 1700000000)])
           (fun _ => eq_refl)); [|exact true|exact None].
  intros b cookies Hc. injection Hc as <-.
  repeat constructor; discriminate.
Defined.

(** ** The mailbox *)
Module MailBoxFacts.
Import Mail MailSpec MailFacts MailBox MailBoxSpec.
Local Open Scope nat_scope.

(** What [_extract_code] returns is a piece of the body, of four to eight
    characters. *)
Lemma extract_code_shape (db : unicode_db) (body t : text) :
  _extract_code db body = Some t ->
  4 <= length t <= 8 /\
  (exists before after, body = before ++ t ++ after) /\
  (forallb token_char t = true \/
   (length t = 6 /\ forallb (is_digit db) t = true)).
Proof.
  unfold _extract_code.
  destruct (search (context_at db) None body) as [code|] eqn:S.
  - intros H. injection H as <-. apply search_context_sound in S
      as (before & label & gap & colon & ws & after & -> & _ & _ & _ & Ht & Hl & _).
    split; [exact Hl|]. split; [|now left].
    exists (before ++ label ++ gap ++ colon :: ws), after.
    now rewrite <- !app_assoc.
  - pose proof (findall_head (six_digits_at db) None body) as Hh.
    destruct (findall (six_digits_at db) 0 None body) as [|d ds]; [discriminate|].
    intros H. injection H as <-. cbn [head] in Hh. symmetry in Hh.
    apply search_six_sound in Hh as (before & after & -> & (Hl & Hd & _) & _).
    split; [lia|]. split; [eauto|now right].
Qed.



Lemma substring_app_mid (a b c : string) :
  String.substring (String.length a) (String.length b) (a ++ b ++ c)%string = b.
Proof.
  induction a as [|x a IH]; [|exact IH].
  cbn [String.length String.append].
  induction b as [|y b IHb]; [now destruct c|].
  cbn. now rewrite IHb.
Qed.

Lemma substring_length (n m : nat) (s : string) :
  n + m <= String.length s -> String.length (String.substring n m s) = m.
Proof.
  revert n m. induction s as [|c s IH]; intros n m H; cbn in H.
  - assert (n = 0) by lia. assert (m = 0) by lia. subst. reflexivity.
  - destruct n as [|n]; cbn.
    + destruct m as [|m]; [reflexivity|]. cbn. f_equal. apply (IH 0). lia.
    + apply IH. lia.
Qed.

End MailBoxFacts.

Import MailBoxSpec.

(** Whatever [_extract_code] returns is a piece of the body of four to
    eight characters: letters and digits after a label, or six digits.  It
    is never the empty string, so the test [if code] of [wait_for_code]
    lets every extracted code through. *)
Theorem extract_code_returns_a_short_piece_of_the_body
    (db : unicode_db) (body t : text) :
  _extract_code db body = Some t ->
  (4 <= length t <= 8)%nat /\
  t <> [] /\
  (exists before after, body = before ++ t ++ after) /\
  (forallb token_char t = true \/
   (length t = 6%nat /\ forallb (is_digit db) t = true)) /\
  MailBox.examine db
    (MailBox.Listing 200
       [MailBox.mkMessage (Some "id") (Some (MailBox.Text body, MailBox.Missing))])
    = Some t.
Proof.
  intros H. destruct (MailBoxFacts.extract_code_shape db body t H) as (Hl & Hsub & Hc).
  assert (Hne : t <> []) by (intros ->; simpl in Hl; lia).
  repeat split; try assumption; try lia.
  cbn. destruct body as [|c body]; [vm_compute in H; discriminate|].
  cbn. rewrite H. destruct t; [contradiction|reflexivity].
Qed.

Lemma extract_code_returns_a_short_piece_of_the_body_witness :
  _extract_code sample_unicode (str "Your code: AB12CD9 or 654321")
    = Some (str "AB12CD9") /\
  (4 <= length (str "AB12CD9") <= 8)%nat /\
  exists before after,
    str "Your code: AB12CD9 or 654321" = before ++ str "AB12CD9" ++ after.
Proof.
  assert (H : _extract_code sample_unicode (str "Your code: AB12CD9 or 654321")
              = Some (str "AB12CD9")) by (vm_compute; reflexivity).
  destruct (extract_code_returns_a_short_piece_of_the_body _ _ _ H)
    as (Hl & _ & Hs & _).
  split; [exact H|]. split; [exact Hl|exact Hs].
Defined.



(** The password [register()] makes up can be read off the address it
    makes up: it is [Pwd], then the ten characters that follow the
    time-stamp digits in the address, then those four digits. *)
Theorem registered_password_follows_from_the_address
    (epoch rand_str domain : string) :
  (4 <= String.length epoch)%nat -> String.length rand_str = 10%nat ->
  (MailBox.new_identity epoch rand_str domain).2
    = password_of_address (MailBox.new_identity epoch rand_str domain).1.
Proof.
  intros He Hr. unfold MailBox.new_identity, password_of_address. cbn [fst snd].
  set (ts := MailBox.last4 epoch).
  assert (Hts : String.length ts = 4%nat).
  { unfold ts, MailBox.last4. apply MailBoxFacts.substring_length. lia. }
  assert (H1 : String.substring 1 4 ("t" ++ ts ++ rand_str ++ "@" ++ domain)%string = ts).
  { rewrite <- Hts.
    exact (MailBoxFacts.substring_app_mid "t" ts (rand_str ++ "@" ++ domain)). }
  assert (H2 : String.substring 5 10 ("t" ++ ts ++ rand_str ++ "@" ++ domain)%string
               = rand_str).
  { rewrite <- Hr.
    replace 5%nat with (String.length ("t" ++ ts)%string)
      by (cbn [String.append String.length]; now rewrite Hts).
    replace ("t" ++ ts ++ rand_str ++ "@" ++ domain)%string
      with (("t" ++ ts) ++ rand_str ++ "@" ++ domain)%string by reflexivity.
    apply MailBoxFacts.substring_app_mid. }
  now rewrite H1, H2.
Qed.

Lemma registered_password_follows_from_the_address_witness :
  MailBox.new_identity "1736496000" "k3x9q0abcd" "virgilian.com"
    = ("t6000k3x9q0abcd@virgilian.com", "Pwdk3x9q0abcd6000") /\
  password_of_address "t6000k3x9q0abcd@virgilian.com" = "Pwdk3x9q0abcd6000".
Proof.
  split; [reflexivity|].
  pose proof (registered_password_follows_from_the_address "1736496000" "k3x9q0abcd"
                "virgilian.com" ltac:(cbn; lia) eq_refl) as H.
  symmetry. exact H.
Defined.

(** ** The CSV file *)
Module CsvFacts.
Import Csv CsvSpec.
Local Open Scope nat_scope.



Lemma records_snoc (h r : row) (lines : list row) :
  r <> [] -> records ((h :: lines) ++ [r]) = records (h :: lines) ++ [r].
Proof.
  intros Hr. unfold records. cbn [app tail]. rewrite List.filter_app. f_equal.
  cbn. destruct r; [contradiction|reflexivity].
Qed.










Lemma get_cell_no_key (key : string) (names cells : row) :
  ~ In key names -> get_cell key names cells = None.
Proof.
  revert cells. induction names as [|n names IH]; intros cells H; [reflexivity|].
  cbn [get_cell]. rewrite IH by (intros Hx; apply H; now right).
  destruct (String.eqb_spec n key) as [->|]; [|reflexivity].
  exfalso. apply H. now left.
Qed.

Lemma valid_ids_no_id_column (py : py_digits) (names : row) (rows : list row) :
  isdigit py EmptyString = false -> ~ In "ID"%string names ->
  valid_ids py names rows = Some [].
Proof.
  intros He Hn. induction rows as [|r rest IH]; [reflexivity|].
  cbn [valid_ids]. unfold get_or_empty. rewrite get_cell_no_key by exact Hn.
  now rewrite He.
Qed.

Lemma append_no_id_column (py : py_digits) (h : row) (lines : list row)
    (email password today : string) :
  isdigit py EmptyString = false -> ~ In "ID"%string h ->
  append_to_csv py (Some (h :: lines)) email password today =
  (true, Some ((h :: lines) ++ [new_row 1 email password today])).
Proof.
  intros He Hn. unfold append_to_csv.
  change (fieldnames (h :: lines)) with h.
  rewrite (valid_ids_no_id_column py h _ He Hn).
  now destruct (records (h :: lines)).
Qed.

Lemma append_all_no_id_column (py : py_digits) (h : row) (lines : list row)
    (accounts : list (string * string * string)) :
  isdigit py EmptyString = false -> ~ In "ID"%string h ->
  append_all py (Some (h :: lines)) accounts =
  Some ((h :: lines) ++ map (fun a => new_row 1 a.1.1 a.1.2 a.2) accounts).
Proof.
  intros He Hn. revert lines.
  induction accounts as [|[[e p] t] rest IH]; intros lines.
  - cbn. now rewrite app_nil_r.
  - cbn [append_all]. rewrite (append_no_id_column py h lines e p t He Hn).
    cbn [snd]. change ((h :: lines) ++ [new_row 1 e p t])
      with (h :: (lines ++ [new_row 1 e p t])).
    rewrite IH. cbn [map fst snd app]. now rewrite <- app_assoc.
Qed.

Lemma records_all_rows (lines : list row) :
  Forall (fun r => r <> []) lines -> List.filter
    (fun r : row => match r with [] => false | _ :: _ => true end) lines = lines.
Proof.
  induction 1 as [|r rest Hr _ IH]; [reflexivity|].
  cbn [List.filter]. destruct r; [contradiction|]. now rewrite IH.
Qed.

End CsvFacts.

Import Csv CsvSpec.





(** The header is written only when the file does not exist.  On a file
    whose first line has no ID field every append writes the id 1; so on
    a file that exists and is empty, the first appended line takes the
    place of the header, every line of the run carries the id 1, and
    [read_csv_accounts] returns one account less than were appended. *)
Theorem append_to_csv_repeats_id_1_without_a_header (py : py_digits)
    (email password today : string) (rest : list (string * string * string)) :
  isdigit py EmptyString = false ->
  email <> "ID"%string -> password <> "ID"%string -> today <> "ID"%string ->
  exists file,
    append_all py (Some []) ((email, password, today) :: rest) = Some file /\
    file = map (fun a => new_row 1 a.1.1 a.1.2 a.2) ((email, password, today) :: rest) /\
    length (read_csv_accounts file) = length rest.
Proof.
  intros He H1 H2 H3.
  assert (Hn : ~ In "ID"%string (new_row 1 email password today)).
  { unfold new_row. intros [Hx|[Hx|[Hx|[Hx|[]]]]]; try congruence.
    vm_compute in Hx. discriminate. }
  refine (ex_intro _ _ (conj _ (conj eq_refl _))).
  - cbn [append_all]. unfold append_to_csv at 1.
    cbn [fieldnames records head tail List.filter default valid_ids snd app].
    rewrite (CsvFacts.append_all_no_id_column py _ [] rest He Hn). reflexivity.
  - unfold read_csv_accounts. rewrite length_map. unfold records.
    cbn [map tail]. rewrite CsvFacts.records_all_rows.
    + now rewrite length_map.
    + apply List.Forall_forall. intros r Hr. apply in_map_iff in Hr.
      destruct Hr as (a & <- & _). discriminate.
Qed.

Lemma append_to_csv_repeats_id_1_without_a_header_witness :
  isdigit ascii_digits EmptyString = false /\
  exists file,
    append_all ascii_digits (Some [])
      [("a@x.io", "pw1", "2026-01-02"); ("b@x.io", "pw2", "2026-01-03")] = Some file /\
    file = map (fun a => new_row 1 a.1.1 a.1.2 a.2)
      [("a@x.io", "pw1", "2026-01-02"); ("b@x.io", "pw2", "2026-01-03")] /\
    length (read_csv_accounts file) = length [("b@x.io", "pw2", "2026-01-03")].
Proof.
  split; [reflexivity|].
  apply (append_to_csv_repeats_id_1_without_a_header ascii_digits
           "a@x.io" "pw1" "2026-01-02" [("b@x.io", "pw2", "2026-01-03")]);
    [reflexivity | discriminate | discriminate | discriminate].
Defined.

(** ** The task store of the API *)
Module ApiTasksFacts.
Import ApiTasks ApiTasksSpec.

Lemma compare_refl (s : string) : String.compare s s = Eq.
Proof.
  pose proof (String.compare_antisym s s) as H.
  destruct (String.compare s s); [reflexivity|discriminate|discriminate].
Qed.

Lemma ascii_compare_lt_trans (a b c : ascii) :
  Ascii.compare a b = Lt -> Ascii.compare b c = Lt -> Ascii.compare a c = Lt.
Proof.
  unfold Ascii.compare. rewrite !N.compare_lt_iff. lia.
Qed.

Lemma compare_lt_trans (a b c : string) :
  String.compare a b = Lt -> String.compare b c = Lt -> String.compare a c = Lt.
Proof.
  revert b c. induction a as [|x a IH]; intros [|y b] [|z c]; cbn;
    try discriminate; try reflexivity.
  destruct (Ascii.compare x y) eqn:Exy; [|intros _|discriminate].
  - apply Ascii.compare_eq_iff in Exy. subst y.
    destruct (Ascii.compare x z); [apply IH|reflexivity|discriminate].
  - destruct (Ascii.compare y z) eqn:Eyz; [intros _| |discriminate].
    + apply Ascii.compare_eq_iff in Eyz. subst z. now rewrite Exy.
    + intros _. now rewrite (ascii_compare_lt_trans x y z Exy Eyz).
Qed.

Lemma newer_irrefl (a b : TaskInfo) :
  created_at a = created_at b -> newer a b = false.
Proof. unfold newer, String.ltb. intros ->. now rewrite compare_refl. Qed.

Lemma newer_asym (a b : TaskInfo) : newer a b = true -> newer b a = false.
Proof.
  unfold newer, String.ltb. rewrite (String.compare_antisym (created_at a)).
  now destruct (String.compare (created_at b) (created_at a)).
Qed.

(** [b] is not newer than [a], [c] not newer than [b]: [c] is not newer
    than [a]. *)
Lemma not_newer_trans (a b c : TaskInfo) :
  newer b a = false -> newer c b = false -> newer c a = false.
Proof.
  unfold newer, String.ltb. intros Hab Hbc.
  destruct (String.compare (created_at a) (created_at c)) eqn:Eac; try reflexivity.
  destruct (String.compare (created_at a) (created_at b)) eqn:Eab; try discriminate.
  - apply String.compare_eq_iff in Eab. rewrite <- Eab, Eac in Hbc. discriminate.
  - rewrite String.compare_antisym in Eab.
    destruct (String.compare (created_at b) (created_at a)) eqn:Eba; try discriminate.
    rewrite (compare_lt_trans _ _ _ Eba Eac) in Hbc. discriminate.
Qed.

Lemma insert_task_perm (t : TaskInfo) (l : list TaskInfo) :
  Permutation (insert_task t l) (t :: l).
Proof.
  induction l as [|u l IH]; cbn; [reflexivity|].
  destruct (newer u t); [|reflexivity].
  rewrite IH. apply perm_swap.
Qed.

Lemma sorted_tasks_perm (l : list TaskInfo) : Permutation (sorted_tasks l) l.
Proof.
  induction l as [|t l IH]; cbn; [reflexivity|].
  rewrite insert_task_perm. now constructor.
Qed.

Lemma insert_task_descending (t : TaskInfo) (l : list TaskInfo) :
  descending l -> descending (insert_task t l).
Proof.
  induction l as [|u l IH]; cbn; [auto|]. intros [Hu Hl].
  destruct (newer u t) eqn:E; cbn.
  - split; [|now apply IH].
    rewrite (insert_task_perm t l). constructor; [now apply newer_asym|exact Hu].
  - split; [|split; assumption].
    constructor; [exact E|].
    eapply List.Forall_impl; [|exact Hu]. intros c Hc. cbn beta in Hc.
    now apply (not_newer_trans t u c).
Qed.

Lemma sorted_tasks_descending (l : list TaskInfo) : descending (sorted_tasks l).
Proof.
  induction l as [|t l IH]; cbn; [exact I|]. now apply insert_task_descending.
Qed.

Lemma descending_app (l1 l2 : list TaskInfo) :
  descending (l1 ++ l2) ->
  descending l1 /\ forall a b, In a l1 -> In b l2 -> newer b a = false.
Proof.
  induction l1 as [|x l1 IH]; cbn; [intros _; split; [exact I|intros a b []]|].
  intros [Hx Hl]. destruct (IH Hl) as [Hd Hcross].
  apply Forall_app in Hx as [Hx1 Hx2]. split; [split; assumption|].
  intros a b [<-|Ha] Hb; [|now apply Hcross].
  rewrite List.Forall_forall in Hx2. now apply Hx2.
Qed.

Lemma descending_newest_first (l : list TaskInfo) : descending l -> newest_first l.
Proof.
  induction l as [|x l IH]; intros Hd i j a b Hij Hi Hj; [discriminate|].
  destruct Hd as [Hx Hl]. destruct j as [|j]; [lia|]. cbn in Hj.
  destruct i as [|i]; cbn in Hi.
  - injection Hi as <-. rewrite Forall_lookup in Hx. exact (Hx j b Hj).
  - apply (IH Hl i j a b); [lia|assumption|assumption].
Qed.

Lemma insert_task_created_on (stamp : string) (t : TaskInfo) (l : list TaskInfo) :
  created_on stamp (insert_task t l) = created_on stamp (t :: l).
Proof.
  induction l as [|u l IH]; [reflexivity|]. cbn [insert_task].
  destruct (newer u t) eqn:E; [|reflexivity].
  unfold created_on in *. cbn [List.filter] in *. rewrite IH.
  destruct (String.eqb_spec (created_at u) stamp) as [Hu|Hu];
    destruct (String.eqb_spec (created_at t) stamp) as [Ht|Ht]; try reflexivity.
  rewrite (newer_irrefl u t) in E by congruence. discriminate.
Qed.

Lemma sorted_tasks_created_on (stamp : string) (l : list TaskInfo) :
  created_on stamp (sorted_tasks l) = created_on stamp l.
Proof.
  induction l as [|t l IH]; [reflexivity|]. cbn [sorted_tasks foldr].
  fold (sorted_tasks l). rewrite insert_task_created_on.
  unfold created_on in *. cbn [List.filter]. now rewrite IH.
Qed.

Lemma created_on_take (stamp : string) (n : nat) (l : list TaskInfo) :
  created_on stamp (take n l) `prefix_of` created_on stamp l.
Proof.
  exists (created_on stamp (drop n l)). unfold created_on.
  now rewrite <- List.filter_app, take_drop.
Qed.

Lemma slice_to_take {A} (limit : Z) (l : list A) :
  exists n, slice_to limit l = take n l /\
    n = if 0 <=? limit then Z.to_nat limit else (length l - Z.to_nat (- limit))%nat.
Proof. unfold slice_to. destruct (0 <=? limit); eauto. Qed.

Lemma set_item_get (k : string) (v : TaskInfo) (tasks : task_store) :
  get_item k (set_item k v tasks) = Some v.
Proof.
  induction tasks as [|[k' v'] rest IH]; cbn; [now rewrite String.eqb_refl|].
  destruct (String.eqb k' k) eqn:E; cbn; [now rewrite String.eqb_refl|].
  now rewrite E.
Qed.

Lemma set_item_get_other (k k' : string) (v : TaskInfo) (tasks : task_store) :
  k' <> k -> get_item k' (set_item k v tasks) = get_item k' tasks.
Proof.
  intros Hne. induction tasks as [|[k0 v0] rest IH]; cbn.
  - destruct (String.eqb_spec k k'); [congruence|reflexivity].
  - destruct (String.eqb_spec k0 k) as [->|]; cbn.
    + destruct (String.eqb_spec k k'); [congruence|reflexivity].
    + now rewrite IH.
Qed.

Lemma set_item_keys (k : string) (v : TaskInfo) (tasks : task_store) :
  map fst (set_item k v tasks) =
  match get_item k tasks with
  | Some _ => map fst tasks
  | None => map fst tasks ++ [k]
  end.
Proof.
  induction tasks as [|[k0 v0] rest IH]; cbn; [reflexivity|].
  destruct (String.eqb_spec k0 k) as [->|]; cbn; [reflexivity|].
  rewrite IH. now destruct (get_item k rest).
Qed.

Lemma get_item_None (k : string) (tasks : task_store) :
  get_item k tasks = None -> ~ In k (map fst tasks).
Proof.
  induction tasks as [|[k0 v0] rest IH]; cbn; [auto|].
  destruct (String.eqb_spec k0 k); [discriminate|]. intros H [?|Hin]; [auto|].
  now apply IH.
Qed.

Lemma set_item_In (k : string) (v : TaskInfo) (tasks : task_store) (kv : string * TaskInfo) :
  In kv (set_item k v tasks) -> kv = (k, v) \/ In kv tasks.
Proof.
  induction tasks as [|[k0 v0] rest IH]; cbn.
  - intros [<-|[]]. now left.
  - destruct (String.eqb k0 k); cbn; intros [<-|H]; auto.
    destruct (IH H); auto.
Qed.

Lemma set_item_keyed (k : string) (v : TaskInfo) (tasks : task_store) :
  task_id v = k -> keyed tasks -> keyed (set_item k v tasks).
Proof.
  intros Hk [Hnd Hid]. split.
  - rewrite set_item_keys. destruct (get_item k tasks) eqn:G; [exact Hnd|].
    apply list.NoDup_app. split; [exact Hnd|].
    split; [|apply NoDup_singleton].
    intros x Hx Hx'. apply list_elem_of_singleton in Hx'. subst x.
    apply list_elem_of_In in Hx. now apply (get_item_None k tasks G).
  - apply List.Forall_forall. intros kv Hin.
    apply set_item_In in Hin as [->|Hin]; [exact Hk|].
    rewrite List.Forall_forall in Hid. now apply Hid.
Qed.

Lemma get_item_In (k : string) (t : TaskInfo) (tasks : task_store) :
  get_item k tasks = Some t -> In t (values tasks).
Proof.
  induction tasks as [|[k0 v0] rest IH]; cbn; [discriminate|].
  destruct (String.eqb k0 k); [intros H; injection H as <-; now left|].
  intros H. right. now apply IH.
Qed.

Lemma set_item_length (k : string) (v : TaskInfo) (tasks : task_store) :
  length (set_item k v tasks) =
  match get_item k tasks with
  | Some _ => length tasks
  | None => S (length tasks)
  end.
Proof.
  rewrite <- (length_map fst (set_item k v tasks)), set_item_keys.
  destruct (get_item k tasks); rewrite ?length_app, length_map; cbn; lia.
Qed.

Lemma sorted_tasks_length (l : list TaskInfo) : length (sorted_tasks l) = length l.
Proof. apply Permutation_length, sorted_tasks_perm. Qed.

Lemma list_tasks_all (tasks : task_store) (t : TaskInfo) :
  In t (values tasks) -> In t (list_tasks (Z.of_nat (length tasks)) tasks).
Proof.
  intros Hin. unfold list_tasks, slice_to.
  destruct (Z.leb_spec 0 (Z.of_nat (length tasks))) as [_|]; [|lia].
  rewrite Nat2Z.id, take_ge
    by (rewrite sorted_tasks_length; unfold values; now rewrite length_map).
  apply (Permutation_in t (Permutation_sym (sorted_tasks_perm (values tasks)))).
  exact Hin.
Qed.

End ApiTasksFacts.

(** [list_tasks(limit)] returns the stored tasks from the newest on: no
    returned task is created later than one before it, and no task left
    out is created later than a returned one.  Tasks created in the same
    second come in the order in which they were stored, the oldest of
    them first.  With [limit >= 0] it returns [limit] tasks, or all of
    them when there are fewer; a negative [limit] is not refused: it
    leaves out the [-limit] tasks at the end of the sorted list and
    returns the others. *)
Theorem list_tasks_returns_the_newest_tasks (tasks : ApiTasks.task_store) (limit : Z) :
  ApiTasksSpec.newest_first (ApiTasks.list_tasks limit tasks) /\
  (exists rest,
     Permutation (ApiTasks.list_tasks limit tasks ++ rest) (ApiTasks.values tasks) /\
     forall a b, In a (ApiTasks.list_tasks limit tasks) -> In b rest ->
                 ApiTasks.newer b a = false) /\
  (forall stamp,
     ApiTasksSpec.created_on stamp (ApiTasks.list_tasks limit tasks)
       `prefix_of` ApiTasksSpec.created_on stamp (ApiTasks.values tasks)) /\
  length (ApiTasks.list_tasks limit tasks) =
    if 0 <=? limit then Nat.min (Z.to_nat limit) (length tasks)
    else (length tasks - Z.to_nat (- limit))%nat.
Proof.
  unfold ApiTasks.list_tasks.
  destruct (ApiTasksFacts.slice_to_take limit
              (ApiTasks.sorted_tasks (ApiTasks.values tasks))) as (n & -> & Hn).
  pose proof (ApiTasksFacts.sorted_tasks_descending (ApiTasks.values tasks)) as Hd.
  rewrite <- (take_drop n (ApiTasks.sorted_tasks (ApiTasks.values tasks))) in Hd.
  apply ApiTasksFacts.descending_app in Hd as [Hd Hcross].
  split; [now apply ApiTasksFacts.descending_newest_first|].
  split.
  { exists (drop n (ApiTasks.sorted_tasks (ApiTasks.values tasks))).
    split; [|exact Hcross].
    rewrite take_drop. apply ApiTasksFacts.sorted_tasks_perm. }
  split.
  { intros stamp.
    rewrite <- (ApiTasksFacts.sorted_tasks_created_on stamp (ApiTasks.values tasks)).
    apply ApiTasksFacts.created_on_take. }
  rewrite length_take, ApiTasksFacts.sorted_tasks_length in *.
  unfold ApiTasks.values in *. rewrite length_map in *. subst n.
  destruct (0 <=? limit); lia.
Qed.

(** [POST /api/register] and [POST /api/refresh] answer with the first
    eight characters of the UUID and store a pending task under that id,
    stamped with the time of the call; the register task starts with the
    progress 0 of [count].  The tasks under other ids are as they were.
    When the store already holds a task under the same eight characters,
    that task is replaced, whatever its status, and the store does not
    grow.  Every key stays the id of its task, and the new task is among
    those [list_tasks] returns for a limit of the number of tasks. *)
Theorem a_created_task_is_pending_under_its_id
    (uuid4 : string) (now : datetime) (count : Z) (tasks : ApiTasks.task_store) :
  ApiTasksSpec.keyed tasks ->
  ((ApiTasks.register_accounts uuid4 now count tasks).1 = ApiTasks.short_id uuid4 /\
   ApiTasksSpec.stored_pending (ApiTasks.short_id uuid4) now tasks
     (ApiTasks.register_accounts uuid4 now count tasks).2 /\
   ApiTasksSpec.keyed (ApiTasks.register_accounts uuid4 now count tasks).2 /\
   exists t,
     ApiTasks.get_task_status (ApiTasks.short_id uuid4)
       (ApiTasks.register_accounts uuid4 now count tasks).2 = Some t /\
     ApiTasks.progress t = Some (ApiTasks.mkProgress count 0 0 0 None) /\
     In t (ApiTasks.list_tasks
             (Z.of_nat (length (ApiTasks.register_accounts uuid4 now count tasks).2))
             (ApiTasks.register_accounts uuid4 now count tasks).2)) /\
  ((ApiTasks.refresh_account uuid4 now tasks).1 = ApiTasks.short_id uuid4 /\
   ApiTasksSpec.stored_pending (ApiTasks.short_id uuid4) now tasks
     (ApiTasks.refresh_account uuid4 now tasks).2 /\
   ApiTasksSpec.keyed (ApiTasks.refresh_account uuid4 now tasks).2 /\
   exists t,
     ApiTasks.get_task_status (ApiTasks.short_id uuid4)
       (ApiTasks.refresh_account uuid4 now tasks).2 = Some t /\
     ApiTasks.progress t = None /\
     In t (ApiTasks.list_tasks
             (Z.of_nat (length (ApiTasks.refresh_account uuid4 now tasks).2))
             (ApiTasks.refresh_account uuid4 now tasks).2)).
Proof.
  intros Hk.
  assert (H : forall t, ApiTasks.task_id t = ApiTasks.short_id uuid4 ->
            ApiTasks.status t = PENDING -> ApiTasks.created_at t = strftime now ->
            ApiTasks.completed_at t = None -> ApiTasks.result t = None ->
            ApiTasks.error t = None ->
            ApiTasksSpec.stored_pending (ApiTasks.short_id uuid4) now tasks
              (ApiTasks.set_item (ApiTasks.short_id uuid4) t tasks) /\
            ApiTasksSpec.keyed (ApiTasks.set_item (ApiTasks.short_id uuid4) t tasks) /\
            exists t',
              ApiTasks.get_task_status (ApiTasks.short_id uuid4)
                (ApiTasks.set_item (ApiTasks.short_id uuid4) t tasks) = Some t' /\
              ApiTasks.progress t' = ApiTasks.progress t /\
              In t' (ApiTasks.list_tasks
                       (Z.of_nat (length (ApiTasks.set_item (ApiTasks.short_id uuid4)
                                            t tasks)))
                       (ApiTasks.set_item (ApiTasks.short_id uuid4) t tasks))).
  { intros t Hid Hs Hc Hd Hr He.
    pose proof (ApiTasksFacts.set_item_get (ApiTasks.short_id uuid4) t tasks) as Hget.
    split; [|split].
    - split; [exists t; unfold ApiTasks.get_task_status; auto 10|].
      split; [intros id' Hne; now apply ApiTasksFacts.set_item_get_other|].
      apply ApiTasksFacts.set_item_length.
    - now apply ApiTasksFacts.set_item_keyed.
    - exists t. split; [exact Hget|]. split; [reflexivity|].
      apply ApiTasksFacts.list_tasks_all. now apply (ApiTasksFacts.get_item_In _ _ _ Hget). }
  split.
  - split; [reflexivity|]. unfold ApiTasks.register_accounts. cbn [snd].
    apply H; reflexivity.
  - split; [reflexivity|]. unfold ApiTasks.refresh_account. cbn [snd].
    apply H; reflexivity.
Qed.

(** A UUID whose first eight characters are those of the running task
    bbbb0002: the answer to the status request for that id is now a
    pending task, and the store still holds three tasks. *)
Lemma a_created_task_is_pending_under_its_id_witness :
  ApiTasksSpec.keyed Scenarios.three_tasks /\
  (exists t, ApiTasks.get_task_status "bbbb0002" Scenarios.three_tasks = Some t /\
             ApiTasks.status t = RUNNING) /\
  ApiTasksSpec.stored_pending "bbbb0002" (mkDT 2025 1 10 9 20 0) Scenarios.three_tasks
    (ApiTasks.refresh_account "bbbb0002-7c1e-4f0a-9d2b-5e6f7a8b9c0d"
       (mkDT 2025 1 10 9 20 0) Scenarios.three_tasks).2 /\
  length (ApiTasks.refresh_account "bbbb0002-7c1e-4f0a-9d2b-5e6f7a8b9c0d"
            (mkDT 2025 1 10 9 20 0) Scenarios.three_tasks).2 = 3%nat.
Proof.
  assert (Hk : ApiTasksSpec.keyed Scenarios.three_tasks).
  { split; [|repeat constructor].
    apply NoDup_ListNoDup. repeat constructor; cbn; intuition discriminate. }
  split; [exact Hk|]. split; [eexists; split; reflexivity|].
  destruct (a_created_task_is_pending_under_its_id
              "bbbb0002-7c1e-4f0a-9d2b-5e6f7a8b9c0d" (mkDT 2025 1 10 9 20 0) 1
              Scenarios.three_tasks Hk) as (_ & _ & Hs & _).
  split; [exact Hs|]. destruct Hs as (_ & _ & Hl). exact Hl.
Defined.
